(** * nwsrs: the results extractor and the store

    A shallow embedding of [extract_chess_results.py]
    ([extract_tournament_info], [parse_section_results] and
    [extract_chess_results]) and of [store_chess_data.py] (the tables and
    the functions that fill them), together with the Python string, integer
    and regular-expression primitives they are built from.

    Conventions.
    - A Python [str] is a list of characters; a character is a code point
      below 256 (Rocq's [ascii]), classified the way CPython classifies
      the Latin-1 block ([str.isspace], [str.isdigit], [\w], [\d], [\s]).
    - A raised exception is an explicit [Raise]; [try ... except ValueError]
      is a match on the [option] a conversion returns.
    - [int(s)] is modelled without the interpreter's configurable limit on
      the number of digits of a converted string.
    - [float(s)] is a parameter of the table parser: a function
      [py_float : str -> option F] into an arbitrary type of floats, [None]
      standing for [ValueError].
    - The network, the HTML parser, the JSON file and the SQLite engine are
      outside the program: a page is what the extractor reads of it, a
      database is the content of its tables. *)

From Stdlib Require Import ZArith Ascii String Lia Bool.
From stdpp Require Import base option list strings gmap.

Local Open Scope bool_scope.
Local Open Scope nat_scope.

(** ** Characters and strings *)

Abbreviation str := (list ascii).

Definition lit (s : string) : str := list_ascii_of_string s.

Definition code (c : ascii) : nat := nat_of_ascii c.

Definition in_range (lo hi : nat) (c : ascii) : bool :=
  (lo <=? code c) && (code c <=? hi).

Definition is_code (n : nat) (c : ascii) : bool := code c =? n.

Definition NL : ascii := ascii_of_nat 10.

(** [str.isspace] / [\s] on one character (Py_UNICODE_ISSPACE). *)
Definition isspace (c : ascii) : bool :=
  in_range 9 13 c || in_range 28 32 c || is_code 133 c || is_code 160 c.

(** [\d], and the digits [int] accepts: decimal digits only. *)
Definition is_decimal (c : ascii) : bool := in_range 48 57 c.

(** [str.isdigit] on one character: decimal digits and the superscripts
    U+00B2, U+00B3, U+00B9. *)
Definition isdigit_char (c : ascii) : bool :=
  is_decimal c || is_code 178 c || is_code 179 c || is_code 185 c.

Definition is_upper (c : ascii) : bool := in_range 65 90 c.
Definition is_lower (c : ascii) : bool := in_range 97 122 c.
Definition is_letter (c : ascii) : bool := is_upper c || is_lower c.

(** [str.isalpha] on one character of the Latin-1 block. *)
Definition isalpha_char (c : ascii) : bool :=
  is_letter c || is_code 170 c || is_code 181 c || is_code 186 c
  || in_range 192 214 c || in_range 216 246 c || in_range 248 255 c.

(** [str.isnumeric] on one character: [isdigit] and the vulgar fractions. *)
Definition isnumeric_char (c : ascii) : bool :=
  isdigit_char c || in_range 188 190 c.

(** [\w]: alphanumeric or underscore. *)
Definition is_word (c : ascii) : bool :=
  isalpha_char c || isnumeric_char c || is_code 95 c.

Definition is_char (a : ascii) (c : ascii) : bool := Ascii.eqb a c.

Definition nonempty {A} (l : list A) : bool :=
  match l with [] => false | _ => true end.

(** ** Exceptions *)

Inductive exn := ValueError | IndexError.

Inductive result (A : Type) :=
| OK (a : A)
| Raise (e : exn).
Arguments OK {A} a.
Arguments Raise {A} e.

Definition bind {A B} (m : result A) (k : A -> result B) : result B :=
  match m with
  | OK a => k a
  | Raise e => Raise e
  end.

Notation "'let*' x ':=' m 'in' k" := (bind m (fun x => k))
  (at level 10, x pattern, m at level 100, k at level 200).

(** ** String primitives *)

(** [s.lstrip()], [s.rstrip()], [s.strip()]. *)
Fixpoint lstrip_by (p : ascii -> bool) (s : str) : str :=
  match s with
  | [] => []
  | c :: s' => if p c then lstrip_by p s' else s
  end.

Definition rstrip_by (p : ascii -> bool) (s : str) : str :=
  rev (lstrip_by p (rev s)).

Definition strip (s : str) : str := lstrip_by isspace (rstrip_by isspace s).

(** [s.rstrip(chars)] for a one-character [chars]. *)
Definition rstrip_char (a : ascii) (s : str) : str := rstrip_by (is_char a) s.

(** [s.startswith(p)]. *)
Fixpoint startswith (s p : str) : bool :=
  match p, s with
  | [], _ => true
  | a :: p', c :: s' => Ascii.eqb a c && startswith s' p'
  | _ :: _, [] => false
  end.

(** [s.endswith(p)]. *)
Definition endswith (s p : str) : bool := startswith (rev s) (rev p).

(** [s.find(sub)] as the text before and after the first occurrence. *)
Fixpoint find_sub (sub s : str) : option (str * str) :=
  if startswith s sub then Some ([], drop (length sub) s)
  else match s with
       | [] => None
       | c :: s' =>
           match find_sub sub s' with
           | Some (pre, post) => Some (c :: pre, post)
           | None => None
           end
       end.

(** [sub in s]. *)
Definition contains (sub s : str) : bool :=
  match find_sub sub s with Some _ => true | None => false end.

(** [s.split(sep)]: cut at the successive non-overlapping occurrences of
    [sep], left to right. Every cut removes at least one character, so
    [length s] cuts are always enough. *)
Fixpoint split_cuts (n : nat) (sep s : str) : list str :=
  match n with
  | 0 => [s]
  | S n' =>
      match find_sub sep s with
      | Some (pre, post) => pre :: split_cuts n' sep post
      | None => [s]
      end
  end.

Definition py_split_sep (sep s : str) : result (list str) :=
  match sep with
  | [] => Raise ValueError
  | _ => OK (split_cuts (length s) sep s)
  end.

(** [s.split()]: maximal runs of non-whitespace characters. [cur] is the
    run being read, most recent character first. *)
Fixpoint split_ws (s : str) (cur : str) : list str :=
  match s with
  | [] => if nonempty cur then [rev cur] else []
  | c :: s' =>
      if isspace c
      then (if nonempty cur then rev cur :: split_ws s' [] else split_ws s' [])
      else split_ws s' (c :: cur)
  end.

Definition py_split (s : str) : list str := split_ws s [].

(** [sep.join(l)]. *)
Fixpoint join (sep : str) (l : list str) : str :=
  match l with
  | [] => []
  | [x] => x
  | x :: l' => x ++ sep ++ join sep l'
  end.

(** [l[i]]. *)
Definition py_index {A} (l : list A) (i : nat) : result A :=
  match l !! i with
  | Some x => OK x
  | None => Raise IndexError
  end.

(** [l[i:j]]. *)
Definition slice {A} (l : list A) (i j : nat) : list A := drop i (take j l).

(** [s.isdigit()]. *)
Definition isdigit (s : str) : bool := nonempty s && forallb isdigit_char s.

(** ** [int(s)] *)

Definition digit_val (c : ascii) : Z := (Z.of_nat (code c) - 48)%Z.

(** Digits of a decimal literal: single underscores are allowed between
    digits. [prev] tells whether the previous character was a digit. *)
Fixpoint int_digits (s : str) (acc : Z) (prev : bool) : option Z :=
  match s with
  | [] => if prev then Some acc else None
  | c :: s' =>
      if is_decimal c then int_digits s' (acc * 10 + digit_val c)%Z true
      else if is_code 95 c && prev then int_digits s' acc false
      else None
  end.

(** The whitespace [int] strips from both ends: what C calls whitespace
    (U+0009 to U+000D and the space), and the two other [str.isspace]
    characters of the block, U+0085 and U+00A0, which the conversion turns
    into spaces first. U+001C to U+001F are [str.isspace] but are not
    stripped: [int] rejects a text that holds one. *)
Definition int_space (c : ascii) : bool :=
  in_range 9 13 c || is_code 32 c || is_code 133 c || is_code 160 c.

Definition py_int (s : str) : option Z :=
  match lstrip_by int_space (rstrip_by int_space s) with
  | [] => None
  | c :: r =>
      if is_code 45 c then Z.opp <$> int_digits r 0%Z false
      else if is_code 43 c then int_digits r 0%Z false
      else int_digits (c :: r) 0%Z false
  end.

(** ** Regular expressions

    The three patterns of the program are sequences of greedy repetitions
    of one character class, and anchors. [match_items] is the backtracking
    matcher of [re]: a repetition first takes as many characters as it can
    and gives them back one at a time while the rest of the pattern
    fails. The result lists the text each item matched. *)

Inductive item :=
| Bos                                                   (* ^ *)
| Eos                                                   (* $ *)
| Rep (p : ascii -> bool) (lo : nat) (hi : option nat). (* class{lo,hi}, greedy *)

Fixpoint span_len (p : ascii -> bool) (s : str) : nat :=
  match s with
  | [] => 0
  | c :: s' => if p c then S (span_len p s') else 0
  end.

Definition cap (hi : option nat) (n : nat) : nat :=
  match hi with
  | Some h => Nat.min h n
  | None => n
  end.

Fixpoint try_down {A} (f : nat -> option A) (k : nat) : option A :=
  match f k with
  | Some x => Some x
  | None =>
      match k with
      | 0 => None
      | S k' => try_down f k'
      end
  end.

(** [$] without MULTILINE: the end of the string, or just before a final
    newline. *)
Definition at_end (s : str) : bool :=
  match s with
  | [] => true
  | [c] => Ascii.eqb c NL
  | _ => false
  end.

Fixpoint match_items (its : list item) (pos : nat) (s : str) : option (list str) :=
  match its with
  | [] => Some []
  | Bos :: r =>
      if pos =? 0 then cons [] <$> match_items r pos s else None
  | Eos :: r =>
      if at_end s then cons [] <$> match_items r pos s else None
  | Rep p lo hi :: r =>
      try_down
        (fun k =>
           if lo <=? k
           then cons (take k s) <$> match_items r (pos + k) (drop k s)
           else None)
        (cap hi (span_len p s))
  end.

Record re_match := {
  before : str;
  groups : list str;
  after : str
}.

Definition group0 (m : re_match) : str := concat (groups m).

Definition shift (c : ascii) (m : re_match) : re_match :=
  {| before := c :: before m; groups := groups m; after := after m |}.

(** [re.search]: the leftmost position at which the pattern matches. *)
Fixpoint search_from (its : list item) (pos : nat) (s : str) : option re_match :=
  match match_items its pos s with
  | Some gs =>
      Some {| before := []; groups := gs; after := drop (length (concat gs)) s |}
  | None =>
      match s with
      | [] => None
      | c :: s' => shift c <$> search_from its (S pos) s'
      end
  end.

Definition re_search (its : list item) (s : str) : option re_match :=
  search_from its 0 s.

(** [re.match]: at position 0 only. *)
Definition re_match_at0 (its : list item) (s : str) : option (list str) :=
  match_items its 0 s.

(** A literal character. *)
Definition one (c : ascii) : item := Rep (is_char c) 1 (Some 1).

(** [r'(\w{3}\s+\d{1,2},\s+\d{4})'] *)
Definition date_pattern : list item :=
  [ Rep is_word 3 (Some 3); Rep isspace 1 None; Rep is_decimal 1 (Some 2);
    one ","%char; Rep isspace 1 None; Rep is_decimal 4 (Some 4) ].

(** [r'TD:?\s+([A-Za-z]+)']; group 1 is the text of the last item. *)
Definition td_pattern : list item :=
  [ one "T"%char; one "D"%char; Rep (is_char ":") 0 (Some 1); Rep isspace 1 None;
    Rep is_letter 1 None ].

Definition td_group1 (m : re_match) : str := default [] (groups m !! 4).

(** [r'^[A-Z0-9]{8}$'] *)
Definition id_pattern : list item :=
  [ Bos; Rep (fun c => is_upper c || is_decimal c) 8 (Some 8); Eos ].

(** ** HeadingParser: [extract_tournament_info]

    The dictionary [tournament_info] has the four keys below; an absent key
    is [None]. *)

Record TournamentInfo := {
  date : option str;
  tournament : option str;
  address : option str;
  TD : option str
}.

Definition empty_info : TournamentInfo :=
  {| date := None; tournament := None; address := None; TD := None |}.

Definition set_date (v : str) (i : TournamentInfo) : TournamentInfo :=
  {| date := Some v; tournament := tournament i; address := address i; TD := TD i |}.
Definition set_tournament (v : str) (i : TournamentInfo) : TournamentInfo :=
  {| date := date i; tournament := Some v; address := address i; TD := TD i |}.
Definition set_address (v : str) (i : TournamentInfo) : TournamentInfo :=
  {| date := date i; tournament := tournament i; address := Some v; TD := TD i |}.
Definition set_TD (v : str) (i : TournamentInfo) : TournamentInfo :=
  {| date := date i; tournament := tournament i; address := address i; TD := Some v |}.

(** [lines = [line.strip() for line in tourney_text.split('\n') if line.strip()]]
    with [tourney_text = heading.get_text().strip()]. *)
Definition heading_lines (text : str) : result (list str) :=
  let tourney_text := strip text in
  let* raw := py_split_sep [NL] tourney_text in
  OK (map strip (filter (fun l => nonempty (strip l) = true) raw)).

(** The branch taken when the date is in the first line. *)
Definition date_in_first_line (first_line : str) (m : re_match)
    (info : TournamentInfo) : result TournamentInfo :=
  let info := set_date (group0 m) info in
  let* cut := py_split_sep (group0 m) first_line in
  let* head := py_index cut 0 in
  let tournament_name := strip head in
  let info := set_tournament tournament_name info in
  let* cut := py_split_sep (group0 m) first_line in
  if 1 <? length cut then
    let* cut := py_split_sep (group0 m) first_line in
    let* second := py_index cut 1 in
    let address_part := strip second in
    if nonempty address_part then OK (set_address address_part info) else OK info
  else OK info.

(** [for line in lines[1:]]: the first later line holding a date. *)
Fixpoint date_in_later_lines (rest : list str) (info : TournamentInfo)
    : result TournamentInfo :=
  match rest with
  | [] => OK info
  | line :: rest' =>
      match re_search date_pattern line with
      | Some m =>
          let info := set_date (group0 m) info in
          let* parts := py_split_sep (group0 m) line in
          if 1 <? length parts then
            let* second := py_index parts 1 in
            if nonempty (strip second)
            then
              let* second := py_index parts 1 in
              OK (set_address (strip second) info)
            else OK info
          else OK info
      | None => date_in_later_lines rest' info
      end
  end.

(** The address fallback loop over [lines[1:]]. *)
Fixpoint address_in_later_lines (rest : list str) (info : TournamentInfo)
    : TournamentInfo :=
  match rest with
  | [] => info
  | line :: rest' =>
      if match date info with
         | Some d => contains d line
         | None => false
         end || contains (lit "TD:") line
      then address_in_later_lines rest' info
      else set_address (strip line) info
  end.

Definition address_fallback (lines : list str) (info : TournamentInfo)
    : TournamentInfo :=
  match address info with
  | None => if 1 <? length lines then address_in_later_lines (drop 1 lines) info
            else info
  | Some _ => info
  end.

(** The director loop over [lines]. *)
Fixpoint td_in_lines (lines : list str) (info : TournamentInfo) : TournamentInfo :=
  match lines with
  | [] => info
  | line :: rest =>
      match re_search td_pattern line with
      | Some m => set_TD (td_group1 m) info
      | None => td_in_lines rest info
      end
  end.

Definition info_of_lines (lines : list str) : result TournamentInfo :=
  match lines with
  | [] => OK empty_info
  | first_line :: rest =>
      let* info :=
        match re_search date_pattern first_line with
        | Some m => date_in_first_line first_line m empty_info
        | None => date_in_later_lines rest (set_tournament first_line empty_info)
        end in
      let info := address_fallback lines info in
      OK (td_in_lines lines info)
  end.

(** [heading] is the text of the [h3.tournreport] element, [None] when the
    page has none. *)
Definition extract_tournament_info (heading : option str) : result TournamentInfo :=
  match heading with
  | None => OK empty_info
  | Some text =>
      let* lines := heading_lines text in
      info_of_lines lines
  end.

(** ** SectionTableParser: [parse_section_results] *)

(** One element of [player["rds"]]: [{"round": ..., "res": ...}]. *)
Record RoundResult := {
  round : str;
  res : str
}.

(** The header scan: [(i, part)] for every header token [rdN]. *)
Definition is_round_column (part : str) : bool :=
  startswith part (lit "rd") && isdigit (drop 2 part).

Fixpoint round_columns_from (i : nat) (header_parts : list str) : list (nat * str) :=
  match header_parts with
  | [] => []
  | part :: rest =>
      if is_round_column part
      then (i, part) :: round_columns_from (S i) rest
      else round_columns_from (S i) rest
  end.

Definition round_columns (header_parts : list str) : list (nat * str) :=
  round_columns_from 0 header_parts.

(** The scan for the ID token: [name_end] and [player["id"]]. *)
Fixpoint find_id_from (i : nat) (parts : list str) : option (nat * str) :=
  match parts with
  | [] => None
  | part :: rest =>
      match re_match_at0 id_pattern part with
      | Some _ => Some (i, part)
      | None => find_id_from (S i) rest
      end
  end.

Definition find_id (parts : list str) : option (nat * str) := find_id_from 0 parts.

(** [player["start"]] and the cursor after it. *)
Definition start_rating (parts : list str) (idx : nat) : option Z * nat :=
  match parts !! idx with
  | Some t =>
      match py_int t with
      | Some v => (Some v, S idx)
      | None => (None, idx)
      end
  | None => (None, idx)
  end.

(** The three branches of the end-rating/games field. *)
Inductive branch := SlashBranch | SplitBranch | PlainBranch.

Definition end_games_branch (end_games : str) : branch :=
  if contains (lit "/") end_games && negb (contains (lit " ") end_games)
  then SlashBranch
  else if contains (lit "/") end_games && endswith end_games (lit "/")
  then SplitBranch
  else PlainBranch.

(** [player["end"]], [player["gms"]] and the cursor after the field. The
    unpacking [end, games = end_games.split('/')] is outside the [try]. *)
Definition end_games (parts : list str) (idx : nat)
    : result (option Z * option Z * nat) :=
  match parts !! idx with
  | None => OK (None, None, idx)
  | Some t =>
      match end_games_branch t with
      | SlashBranch =>
          let* cut := py_split_sep (lit "/") t in
          match cut with
          | [e; g] =>
              match py_int (strip e) with
              | Some ev =>
                  match py_int (strip g) with
                  | Some gv => OK (Some ev, Some gv, S idx)
                  | None => OK (Some ev, None, S idx)
                  end
              | None => OK (None, None, S idx)
              end
          | _ => Raise ValueError
          end
      | SplitBranch =>
          match py_int (strip (rstrip_char "/" t)) with
          | Some ev =>
              match parts !! (idx + 1) with
              | Some games_part =>
                  match py_int (strip games_part) with
                  | Some gv => OK (Some ev, Some gv, idx + 2)
                  | None => OK (Some ev, None, idx + 1)
                  end
              | None => OK (Some ev, None, idx + 1)
              end
          | None => OK (None, None, idx + 1)
          end
      | PlainBranch =>
          match py_int (strip t) with
          | Some ev => OK (Some ev, None, S idx)
          | None => OK (None, None, S idx)
          end
      end
  end.

(** The bare-digit games value after an end rating without games. *)
Definition games_fallback (parts : list str) (e g : option Z) (idx : nat)
    : option Z * nat :=
  match e, g with
  | Some _, None =>
      match parts !! idx with
      | Some t =>
          if isdigit t then
            match py_int t with
            | Some v => (Some v, S idx)
            | None => (None, idx)
            end
          else (None, idx)
      | None => (None, idx)
      end
  | _, _ => (g, idx)
  end.

Record Ratings := {
  r_start : option Z;
  r_end : option Z;
  r_gms : option Z;
  r_idx : nat
}.

(** The rating columns, read from the token after the ID. *)
Definition ratings (parts : list str) (name_end : nat) : result Ratings :=
  let idx := name_end + 1 in
  let '(s, idx) := start_rating parts idx in
  let* eg := end_games parts idx in
  let '(e, g, idx) := eg in
  let '(g, idx) := games_fallback parts e g idx in
  OK {| r_start := s; r_end := e; r_gms := g; r_idx := idx |}.

(** The round loop: [idx] is [first_round_idx + i]. *)
Fixpoint round_results (rc : list (nat * str)) (parts : list str) (idx : nat)
    : list RoundResult :=
  match rc with
  | [] => []
  | (_, round_name) :: rc' =>
      match parts !! idx with
      | Some result_ => {| round := round_name; res := result_ |}
                        :: round_results rc' parts (S idx)
      | None => round_results rc' parts (S idx)
      end
  end.

Section SectionTableParser.

Context {F : Type} (py_float : str -> option F).

(** The dictionary [player]; the keys set on every appended row are plain
    fields, the others are [None] when absent. *)
Record Player := {
  pos : Z;
  id : str;
  last_name : str;
  first_name : str;
  start : option Z;
  end_ : option Z;
  gms : option Z;
  rds : list RoundResult;
  tot : option F
}.

Definition total_score (parts : list str) (total_idx : nat) : option F :=
  match parts !! total_idx with
  | Some t => if nonempty t then py_float t else None
  | None => None
  end.

(** The body of the loop for one tokenized line: [None] is [continue]. *)
Definition parse_player (rc : list (nat * str)) (parts : list str)
    : result (option Player) :=
  if length parts <? 10 then OK None else
  let* first := py_index parts 0 in
  match py_int first with
  | None => OK None
  | Some position =>
      match find_id parts with
      | None => OK None
      | Some (name_end, ident) =>
          if name_end <? 2 then OK None else
          let* second := py_index parts 1 in
          let* r := ratings parts name_end in
          let first_round_idx := r_idx r in
          let total_idx := first_round_idx + length rc in
          OK (Some {| pos := position;
                      id := ident;
                      last_name := rstrip_char "," second;
                      first_name := join (lit " ") (slice parts 2 name_end);
                      start := r_start r;
                      end_ := r_end r;
                      gms := r_gms r;
                      rds := round_results rc parts first_round_idx;
                      tot := total_score parts total_idx |})
      end
  end.

Definition parse_line (rc : list (nat * str)) (line : str) : result (option Player) :=
  if nonempty (strip line) then parse_player rc (py_split line) else OK None.

(** The loop over [lines[1:]], appending to [results]. *)
Fixpoint parse_lines (rc : list (nat * str)) (lines : list str)
    (results : list Player) : result (list Player) :=
  match lines with
  | [] => OK results
  | line :: rest =>
      let* row := parse_line rc line in
      match row with
      | Some player => parse_lines rc rest (results ++ [player])
      | None => parse_lines rc rest results
      end
  end.

Definition parse_section_results (pre_text : str) : result (list Player) :=
  let* lines := py_split_sep [NL] (strip pre_text) in
  if nonempty lines then
    let* first := py_index lines 0 in
    let header := strip first in
    let rc := round_columns (py_split header) in
    parse_lines rc (drop 1 lines) []
  else OK [].

End SectionTableParser.

Arguments Player : clear implicits.

(** ** Definitions used to state the properties *)

(** A token "exactly 8 characters, each an uppercase letter or digit". *)
Definition is_id (t : str) : bool :=
  (length t =? 8) && forallb (fun c => is_upper c || is_decimal c) t.

(** A bare digit sequence: one or more decimal digits. *)
Definition is_digits (t : str) : bool := nonempty t && forallb is_decimal t.

(** What holds of the tokens of [s.split()]: non-empty, no whitespace. *)
Definition token (t : str) : Prop :=
  t <> [] /\ Forall (fun c => isspace c = false) t.

(** The number a digit sequence denotes. *)
Definition decimal_value (s : str) : Z :=
  fold_left (fun acc c => (acc * 10 + digit_val c)%Z) s 0%Z.

(** The row the loop body appends, given what it has read. *)
Definition make_player {F : Type} (py_float : str -> option F)
    (rc : list (nat * str)) (parts : list str) (position : Z)
    (name_end : nat) (ident second : str) (r : Ratings) : Player F :=
  {| pos := position;
     id := ident;
     last_name := rstrip_char "," second;
     first_name := join (lit " ") (slice parts 2 name_end);
     start := r_start r;
     end_ := r_end r;
     gms := r_gms r;
     rds := round_results rc parts (r_idx r);
     tot := total_score py_float parts (r_idx r + length rc) |}.

(** The anchor scan as the specification words it: from index 1 onward. *)
Definition spec_find_id (parts : list str) : option (nat * str) :=
  find_id_from 1 (drop 1 parts).

(** The row with another total score. *)
Definition with_tot {F G : Type} (v : option G) (p : Player F) : Player G :=
  {| pos := pos p; id := id p; last_name := last_name p;
     first_name := first_name p; start := start p; end_ := end_ p;
     gms := gms p; rds := rds p; tot := v |}.

(** A float parser for the examples: it accepts digits with one dot. *)
Definition demo_float (s : str) : option str :=
  if isdigit (filter (fun c => is_decimal c = true) s) then Some s else None.

Definition demo_header : str :=
  lit "pos last first id start end/gms rd1 rd2 rd3 tot".

(** What the text matched by one item satisfies. *)
Definition within (hi : option nat) (n : nat) : Prop :=
  match hi with
  | Some h => n <= h
  | None => True
  end.

Definition item_ok (it : item) (g : str) : Prop :=
  match it with
  | Bos | Eos => g = []
  | Rep p lo hi =>
      lo <= length g /\ within hi (length g) /\ Forall (fun c => p c = true) g
  end.

(** A pattern without anchors. *)
Definition anchor_free (its : list item) : Prop :=
  Forall (fun it => match it with Rep _ _ _ => True | _ => False end) its.

(** The row a line yields, when the line raises nothing. *)
Definition line_row {F : Type} (py_float : str -> option F)
    (rc : list (nat * str)) (line : str) : option (Player F) :=
  match parse_line py_float rc line with
  | OK row => row
  | Raise _ => None
  end.

(** The number of "/" in a token. *)
Definition slashes (t : str) : nat :=
  length (filter (fun c => c = "/"%char) t).

(** The character class of the ID pattern. *)
Definition id_char (c : ascii) : bool := is_upper c || is_decimal c.

(** A date as the pattern has it: three word characters, whitespace, one
    or two digits, a comma, whitespace, four digits. *)
Definition date_form (m : str) : Prop :=
  exists w s1 d s2 y,
    m = w ++ s1 ++ d ++ ","%char :: s2 ++ y /\
    length w = 3 /\ Forall (fun c => is_word c = true) w /\
    1 <= length s1 /\ Forall (fun c => isspace c = true) s1 /\
    1 <= length d <= 2 /\ Forall (fun c => is_decimal c = true) d /\
    1 <= length s2 /\ Forall (fun c => isspace c = true) s2 /\
    length y = 4 /\ Forall (fun c => is_decimal c = true) y.

(** A date as the specification words it: the first three characters are
    letters (of a month name). *)
Definition spec_date_form (m : str) : Prop :=
  exists w s1 d s2 y,
    m = w ++ s1 ++ d ++ ","%char :: s2 ++ y /\
    length w = 3 /\ Forall (fun c => isalpha_char c = true) w /\
    1 <= length s1 /\ Forall (fun c => isspace c = true) s1 /\
    1 <= length d <= 2 /\ Forall (fun c => is_decimal c = true) d /\
    1 <= length s2 /\ Forall (fun c => isspace c = true) s2 /\
    length y = 4 /\ Forall (fun c => is_decimal c = true) y.

(** The date of the first line, in order, that holds one. *)
Fixpoint first_date (lines : list str) : option str :=
  match lines with
  | [] => None
  | line :: rest =>
      match re_search date_pattern line with
      | Some m => Some (group0 m)
      | None => first_date rest
      end
  end.

(** The text after the first occurrence of [d], up to its next occurrence
    if there is one: [s.split(d)[1]] on [s = pre ++ d ++ post]. *)
Definition up_to_next (d post : str) : str :=
  match find_sub d post with
  | Some (seg, _) => seg
  | None => post
  end.

(** The heading parser without its exceptions: what each step returns once
    it is known to raise nothing. *)
Definition date_found (line : str) (m : re_match) (info : TournamentInfo)
    : TournamentInfo :=
  let info := set_date (group0 m) info in
  let address_part := strip (up_to_next (group0 m) (after m)) in
  if nonempty address_part then set_address address_part info else info.

Definition first_line_info (first_line : str) (m : re_match) : TournamentInfo :=
  let info := set_tournament (strip (before m)) (set_date (group0 m) empty_info) in
  let address_part := strip (up_to_next (group0 m) (after m)) in
  if nonempty address_part then set_address address_part info else info.

Fixpoint later_lines_info (rest : list str) (info : TournamentInfo) : TournamentInfo :=
  match rest with
  | [] => info
  | line :: rest' =>
      match re_search date_pattern line with
      | Some m => date_found line m info
      | None => later_lines_info rest' info
      end
  end.

Definition lines_info (lines : list str) : TournamentInfo :=
  match lines with
  | [] => empty_info
  | first_line :: rest =>
      td_in_lines lines
        (address_fallback lines
           match re_search date_pattern first_line with
           | Some m => first_line_info first_line m
           | None => later_lines_info rest (set_tournament first_line empty_info)
           end)
  end.

Definition raw_lines (text : str) : list str :=
  split_cuts (length (strip text)) [NL] (strip text).

Definition nonblank_lines (text : str) : list str :=
  map strip (filter (fun l => nonempty (strip l) = true) (raw_lines text)).

(** Case analysis on the 256 characters. *)
Ltac by_cases_on_char c :=
  destruct c as [[] [] [] [] [] [] [] []]; vm_compute; congruence.

(** The address the date rule gives: the trimmed text that follows the date
    on the first line, in order, that holds a date, when it is not empty. *)
Fixpoint date_line_address (lines : list str) : option str :=
  match lines with
  | [] => None
  | line :: rest =>
      match re_search date_pattern line with
      | Some m =>
          let a := strip (up_to_next (group0 m) (after m)) in
          if nonempty a then Some a else None
      | None => date_line_address rest
      end
  end.

(** A line the address fallback accepts: it holds neither the date text
    nor "TD:". *)
Definition fallback_line (d : option str) (line : str) : bool :=
  negb (match d with Some d => contains d line | None => false end
        || contains (lit "TD:") line).

(** A data line on which the loop body raises: it passes the three checks
    and the token under the cursor after the start rating holds two or more
    "/". *)
Definition raising_line (line : str) : Prop :=
  exists first position i t s0 k u,
    10 <= length (py_split line) /\
    py_split line !! 0 = Some first /\ py_int first = Some position /\
    find_id (py_split line) = Some (i, t) /\ 2 <= i /\
    start_rating (py_split line) (i + 1) = (s0, k) /\
    py_split line !! k = Some u /\ 2 <= slashes u.

(** The header and the data lines of a results block. *)
Definition header_line (pre_text : str) : str :=
  strip (default [] (head (raw_lines pre_text))).

Definition data_lines (pre_text : str) : list str := drop 1 (raw_lines pre_text).

(** * The page extractor: [extract_chess_results]

    [requests.get] and [BeautifulSoup] are outside the program. A response
    is its status code and, for the parsed document, what the function
    reads of it: the text of the [h3.tournreport] element when there is one
    ([extract_tournament_info] takes it from there), and the [h4] and [pre]
    elements in document order, each with its [get_text()].
    [header.find_next('pre')] is the first [pre] element that starts after
    the header in document order. *)

Inductive node :=
| H4 (text : str)
| Pre (text : str).

Record Response := {
  status_code : Z;
  tourney_heading : option str;
  elements : list node
}.

Fixpoint find_next_pre (following : list node) : option str :=
  match following with
  | [] => None
  | Pre text :: _ => Some text
  | H4 _ :: rest => find_next_pre rest
  end.

Section PageExtractor.

Context {F : Type} (py_float : str -> option F).

(** One entry of [sections]: the keys "section" and "results". *)
Record SectionData := {
  section : str;
  results : list (Player F)
}.

(** The returned dictionary: the heading's keys, "url" and "sections". *)
Record Report := {
  info : TournamentInfo;
  url : str;
  sections : list SectionData
}.

(** The loop over [soup.find_all('h4')], appending to [sections]; the
    elements are walked in document order, [rest] being what follows the
    current one. *)
Fixpoint section_loop (nodes : list node) (acc : list SectionData)
    : result (list SectionData) :=
  match nodes with
  | [] => OK acc
  | Pre _ :: rest => section_loop rest acc
  | H4 text :: rest =>
      match find_next_pre rest with
      | Some pre_text =>
          let* rows := parse_section_results py_float pre_text in
          section_loop rest (acc ++ [{| section := strip text; results := rows |}])
      | None => section_loop rest acc
      end
  end.

(** [None] is the function's [return None]. *)
Definition extract_chess_results (url : str) (response : Response)
    : result (option Report) :=
  if negb (status_code response =? 200)%Z then OK None else
  let* result_ := extract_tournament_info (tourney_heading response) in
  let* secs := section_loop (elements response) [] in
  OK (Some {| info := result_; url := url; sections := secs |}).

End PageExtractor.

Arguments SectionData : clear implicits.
Arguments Report : clear implicits.

(** The texts of the [h4] elements of a document, in order. *)
Definition h4_texts (nodes : list node) : list str :=
  omap (fun n => match n with H4 t => Some t | Pre _ => None end) nodes.

Definition is_pre (n : node) : bool :=
  match n with Pre _ => true | H4 _ => false end.

(** The headers of a document that have a block after them, each with the
    text of the first such block, in document order. *)
Fixpoint header_blocks (nodes : list node) : list (str * str) :=
  match nodes with
  | [] => []
  | Pre _ :: rest => header_blocks rest
  | H4 text :: rest =>
      match find_next_pre rest with
      | Some pre_text => (text, pre_text) :: header_blocks rest
      | None => header_blocks rest
      end
  end.

(** A results block one of whose data lines makes the table parser raise. *)
Definition raising_block (pre_text : str) : Prop :=
  exists line, line ∈ data_lines pre_text /\ raising_line line.

(** A page with two headers before one block and a header after it. *)
Definition demo_page : Response :=
  {| status_code := 200;
     tourney_heading := Some (lit "Summer Open Jul 4, 2024 Seattle");
     elements := [ Pre (lit "preamble");
                   H4 (lit " Open ");
                   H4 (lit "Reserve");
                   Pre (demo_header ++ [NL] ++
                        lit "1 Doe, Jane ABCD1234 1500 1510/3 W2 L3 D4 1.5");
                   H4 (lit "Novice") ] |}.

(** * The store: [store_chess_data.py]

    The database is the five tables of [create_database_schema]. A table
    with a declared primary key is a finite map from the key to the other
    columns; the [tournament] table, whose key SQLite assigns, is the list
    of its rows in row-id order together with the counter that
    [AUTOINCREMENT] keeps in [sqlite_sequence]. Foreign keys are declared
    but not enforced (the connection never turns them on), so they put no
    condition on a write. Identifiers are the positive integers SQLite and
    the program assign; text is compared character by character. Every
    function commits what it wrote before it returns, so the database at an
    exception is the one the statements before it left.

    The data are the extractor's records, as [chess_results.json] holds
    them: a report, its sections and their rows. The keys the heading
    parser may leave out are options; a missing key read with [d[k]] raises
    [KeyError], one read with [d.get(k, v)] gives [v]. *)

Inductive db_exn :=
| KeyError (key : str)
| IntegrityError
| OverflowError.

(** An integer SQLite can hold: the module refuses to bind any other
    ("Python int too large to convert to SQLite INTEGER"). *)
Definition fits_int64 (value : option Z) : bool :=
  match value with
  | Some z => (- 2 ^ 63 <=? z)%Z && (z <? 2 ^ 63)%Z
  | None => true
  end.

Record TournamentRow := {
  t_id : nat;
  tournament_name : str;
  t_date : str;
  t_address : str;
  t_url : str
}.

(** [player_data["id"][4:] if len(player_data["id"]) > 4 else
    player_data["id"]]: the expression that names a player in the store. *)
Definition player_id (ident : str) : str :=
  if 4 <? length ident then drop 4 ident else ident.

(** [INSERT INTO]: a row whose primary key is taken is refused. *)
Definition sql_insert {K V : Type} `{Countable K} (key : K) (row : V)
    (table : gmap K V) : option (gmap K V) :=
  match table !! key with
  | Some _ => None
  | None => Some (<[key := row]> table)
  end.

(** [INSERT OR REPLACE INTO]: the row that holds the key, if any, gives way. *)
Definition sql_replace {K V : Type} `{Countable K} (key : K) (row : V)
    (table : gmap K V) : gmap K V :=
  <[key := row]> table.

(** [SELECT MAX(section_id) FROM section WHERE tournament_id = ?]:
    [None] is NULL, the answer on no row. *)
Definition max_section_id (tournament_id : nat) (table : gmap (nat * nat) str)
    : option nat :=
  map_fold (fun key _ acc =>
              if key.1 =? tournament_id
              then Some (match acc with
                         | Some m => Nat.max m key.2
                         | None => key.2
                         end)
              else acc) None table.

(** The largest row id of the [tournament] table. *)
Definition max_rowid (rows : list TournamentRow) : nat :=
  foldr (fun row m => Nat.max (t_id row) m) 0 rows.

(** The [games] table: (tournament, player, section, round) to (opponent,
    result). *)
Abbreviation games_table := (gmap (nat * str * nat * str) (str * str)).

(** A statement returns or raises. *)
Inductive outcome (A : Type) :=
| Ret (a : A)
| Exc (e : db_exn).
Arguments Ret {A} a.
Arguments Exc {A} e.

Section Store.

Context {F : Type}.

Record DB := {
  db_tournament : list TournamentRow;
  db_sequence : nat;
  db_player : gmap str (str * str);
  db_section : gmap (nat * nat) str;
  db_player_tournament :
    gmap (str * nat * nat) (option Z * option Z * option Z * option F);
  db_games : gmap (nat * str * nat * str) (str * str)
}.

(** A new database file after [create_database_schema]. *)
Definition empty_db : DB :=
  {| db_tournament := []; db_sequence := 0; db_player := ∅; db_section := ∅;
     db_player_tournament := ∅; db_games := ∅ |}.

(** A statement runs on the database, which it may change. *)
Definition M (A : Type) : Type := DB -> outcome A * DB.

Definition ret {A} (a : A) : M A := fun db => (Ret a, db).

Definition seq_ {A B} (m : M A) (k : A -> M B) : M B :=
  fun db =>
    match m db with
    | (Ret a, db') => k a db'
    | (Exc e, db') => (Exc e, db')
    end.

Notation "'run' x ':=' m 'in' k" := (seq_ m (fun x => k))
  (at level 10, x name, m at level 100, k at level 200).

Definition same_tournament (name day : str) (row : TournamentRow) : bool :=
  bool_decide (tournament_name row = name) && bool_decide (t_date row = day).

Definition insert_tournament (tournament_data : Report F) : M nat :=
  fun db =>
    match tournament (info tournament_data) with
    | None => (Exc (KeyError (lit "tournament")), db)
    | Some name =>
        match date (info tournament_data) with
        | None => (Exc (KeyError (lit "date")), db)
        | Some day =>
            match find (same_tournament name day) (db_tournament db) with
            | Some existing => (Ret (t_id existing), db)
            | None =>
                let tournament_id :=
                  S (Nat.max (db_sequence db) (max_rowid (db_tournament db))) in
                (Ret tournament_id,
                 {| db_tournament :=
                      db_tournament db ++
                      [ {| t_id := tournament_id;
                           tournament_name := name;
                           t_date := day;
                           t_address := default [] (address (info tournament_data));
                           t_url := url tournament_data |} ];
                    db_sequence := tournament_id;
                    db_player := db_player db;
                    db_section := db_section db;
                    db_player_tournament := db_player_tournament db;
                    db_games := db_games db |})
            end
        end
    end.

Definition insert_player (player_data : Player F) : M str :=
  fun db =>
    let pid := player_id (id player_data) in
    match db_player db !! pid with
    | Some _ => (Ret pid, db)
    | None =>
        match sql_insert pid (last_name player_data, first_name player_data)
                (db_player db) with
        | None => (Exc IntegrityError, db)
        | Some table =>
            (Ret pid,
             {| db_tournament := db_tournament db;
                db_sequence := db_sequence db;
                db_player := table;
                db_section := db_section db;
                db_player_tournament := db_player_tournament db;
                db_games := db_games db |})
        end
    end.

Definition insert_section (tournament_id : nat) (section_name : str) : M nat :=
  fun db =>
    let section_id :=
      default 0 (max_section_id tournament_id (db_section db)) + 1 in
    match sql_insert (tournament_id, section_id) section_name (db_section db) with
    | None => (Exc IntegrityError, db)
    | Some table =>
        (Ret section_id,
         {| db_tournament := db_tournament db;
            db_sequence := db_sequence db;
            db_player := db_player db;
            db_section := table;
            db_player_tournament := db_player_tournament db;
            db_games := db_games db |})
    end.

Definition insert_player_tournament (pid : str) (tournament_id section_id : nat)
    (player_data : Player F) : M unit :=
  fun db =>
    if fits_int64 (start player_data) && fits_int64 (end_ player_data) &&
       fits_int64 (gms player_data)
    then
      (Ret tt,
       {| db_tournament := db_tournament db;
          db_sequence := db_sequence db;
          db_player := db_player db;
          db_section := db_section db;
          db_player_tournament :=
            sql_replace (pid, tournament_id, section_id)
              (start player_data, end_ player_data, gms player_data,
               tot player_data)
              (db_player_tournament db);
          db_games := db_games db |})
    else (Exc OverflowError, db).

Fixpoint get_opponent_id_by_position (players_in_section : list (Player F))
    (opponent_pos : Z) : option str :=
  match players_in_section with
  | [] => None
  | player :: rest =>
      if (pos player =? opponent_pos)%Z then Some (player_id (id player))
      else get_opponent_id_by_position rest opponent_pos
  end.

(** The body of the loop over a player's rounds, up to the write: the
    opponent and the result to store, [None] when the round is passed over
    by one of the four [continue]. *)
Definition game_record (players_in_section : list (Player F))
    (round_data : RoundResult) : option (str * str) :=
  match res round_data with
  | [] => None
  | c :: rest =>
      if length (res round_data) <? 2 then None else
      if negb (bool_decide (c ∈ ["W"; "L"; "D"]%char)) then None else
      match py_int rest with
      | None => None
      | Some opponent_pos =>
          match get_opponent_id_by_position players_in_section opponent_pos with
          | None => None
          | Some opponent_id =>
              if nonempty opponent_id then Some (opponent_id, [c]) else None
          end
      end
  end.

Fixpoint insert_rounds (tournament_id section_id : nat)
    (players_in_section : list (Player F)) (pid : str)
    (rounds : list RoundResult) (table : games_table) : games_table :=
  match rounds with
  | [] => table
  | round_data :: rest =>
      insert_rounds tournament_id section_id players_in_section pid rest
        match game_record players_in_section round_data with
        | Some game =>
            sql_replace (tournament_id, pid, section_id, round round_data) game table
        | None => table
        end
  end.

Fixpoint insert_games_loop (tournament_id section_id : nat)
    (players_in_section todo : list (Player F)) (table : games_table)
    : games_table :=
  match todo with
  | [] => table
  | player :: rest =>
      insert_games_loop tournament_id section_id players_in_section rest
        (insert_rounds tournament_id section_id players_in_section
           (player_id (id player)) (rds player) table)
  end.

Definition insert_games (tournament_id section_id : nat)
    (players_in_section : list (Player F)) : M unit :=
  fun db =>
    (Ret tt,
     {| db_tournament := db_tournament db;
        db_sequence := db_sequence db;
        db_player := db_player db;
        db_section := db_section db;
        db_player_tournament := db_player_tournament db;
        db_games :=
          insert_games_loop tournament_id section_id players_in_section
            players_in_section (db_games db) |}).

(** The first pass over a section's players. *)
Fixpoint insert_players (tournament_id section_id : nat)
    (players : list (Player F)) : M unit :=
  match players with
  | [] => ret tt
  | player :: rest =>
      run pid := insert_player player in
      run _u := insert_player_tournament pid tournament_id section_id player in
      insert_players tournament_id section_id rest
  end.

(** The loop over [data.get("sections", [])]. *)
Fixpoint process_sections (tournament_id : nat)
    (todo : list (SectionData F)) : M unit :=
  match todo with
  | [] => ret tt
  | sec :: rest =>
      run section_id := insert_section tournament_id (section sec) in
      run _u := insert_players tournament_id section_id (results sec) in
      run _v := insert_games tournament_id section_id (results sec) in
      process_sections tournament_id rest
  end.

(** [process_chess_data] once the JSON file is loaded and the database is
    open with its schema: the [try] block, whose [except Exception] turns
    every exception into [False]. The database returned is what the file
    holds afterwards. *)
Definition process_chess_data (data : Report F) (db : DB) : bool * DB :=
  match (run tournament_id := insert_tournament data in
         process_sections tournament_id (sections data)) db with
  | (Ret _, db') => (true, db')
  | (Exc _, db') => (false, db')
  end.

End Store.

Arguments DB : clear implicits.
Arguments M : clear implicits.

(** ** Definitions used to state the properties of the store *)

(** The (name, date) pairs and the row ids of the [tournament] table. *)
Definition name_date (row : TournamentRow) : str * str :=
  (tournament_name row, t_date row).

(** A row whose three integers SQLite can hold. *)
Definition storable {F : Type} (player : Player F) : bool :=
  fits_int64 (start player) && fits_int64 (end_ player) &&
  fits_int64 (gms player).

(** The key of the [games] row of a player's round. *)
Definition game_key {F : Type} (tournament_id section_id : nat)
    (player : Player F) (round_data : RoundResult) : nat * str * nat * str :=
  (tournament_id, player_id (id player), section_id, round round_data).

(** A report with a name and a date, one section and two rows. *)
Definition demo_rows : list (Player str) :=
  [ {| pos := 1; id := lit "ABCD1234"; last_name := lit "Doe";
       first_name := lit "Jane"; start := Some 1500%Z; end_ := Some 1510%Z;
       gms := Some 3%Z;
       rds := [ {| round := lit "rd1"; res := lit "W2" |};
                {| round := lit "rd2"; res := lit "B---" |} ];
       tot := Some (lit "2.0") |};
    {| pos := 2; id := lit "WXYZ9876"; last_name := lit "Roe";
       first_name := lit "Rick"; start := None; end_ := Some 1200%Z;
       gms := None;
       rds := [ {| round := lit "rd1"; res := lit "L1" |};
                {| round := lit "rd2"; res := lit "D7" |} ];
       tot := Some (lit "0.0") |} ].

Definition demo_report : Report str :=
  {| info := {| date := Some (lit "Jul 4, 2024");
                tournament := Some (lit "Summer Open");
                address := None;
                TD := None |};
     url := lit "http://x";
     sections := [ {| section := lit "Open"; results := demo_rows |} ] |}.

(** What a run of the store leaves in place: the tournament rows in their
    order, and every player and every section it found. *)
Definition grows {F : Type} (db db' : DB F) : Prop :=
  (exists new, db_tournament db' = db_tournament db ++ new) /\
  (forall k v, db_player db !! k = Some v -> db_player db' !! k = Some v) /\
  (forall k v, db_section db !! k = Some v -> db_section db' !! k = Some v).

(** Every row of every section can be stored. *)
Definition all_storable {F : Type} (secs : list (SectionData F)) : bool :=
  forallb (fun sec => forallb storable (results sec)) secs.

(** A heading none of whose lines holds a date; a page without heading
    counts as one. *)
Definition undated (heading : option str) : Prop :=
  match heading with
  | None => True
  | Some text =>
      forall l, l ∈ nonblank_lines text -> re_search date_pattern l = None
  end.

(** A page whose heading has a name and a place but no date. *)
Definition undated_page : Response :=
  {| status_code := 200;
     tourney_heading := Some (lit "Summer Open" ++ [NL] ++ lit "Seattle");
     elements := [] |}.

(** A player whose ID ends like that of the first row of [demo_rows]. *)
Definition demo_namesake : Player str :=
  {| pos := 5; id := lit "WXYZ1234"; last_name := lit "Poe";
     first_name := lit "Pat"; start := None; end_ := None; gms := None;
     rds := []; tot := None |}.

Definition demo_first : Player str :=
  {| pos := 1; id := lit "ABCD1234"; last_name := lit "Doe";
     first_name := lit "Jane"; start := Some 1500%Z; end_ := Some 1510%Z;
     gms := Some 3%Z;
     rds := [ {| round := lit "rd1"; res := lit "W2" |};
              {| round := lit "rd2"; res := lit "B---" |} ];
     tot := Some (lit "2.0") |}.

(** A text that starts with a director marker: "TD", an optional colon,
    whitespace and at least one ASCII letter. *)
Definition td_marker (s : str) : Prop :=
  exists colon ws v post,
    s = lit "TD" ++ colon ++ ws ++ v ++ post /\
    (colon = [] \/ colon = lit ":") /\
    ws <> [] /\ Forall (fun c => isspace c = true) ws /\
    v <> [] /\ Forall (fun c => is_letter c = true) v.

(** * Properties *)

(** ** Strings *)

Lemma lstrip_by_id p (s : str) :
  Forall (fun c => p c = false) s -> lstrip_by p s = s.
Proof. destruct 1 as [|c s Hc _]; simpl; [reflexivity | now rewrite Hc]. Qed.

Lemma rstrip_by_id p (s : str) :
  Forall (fun c => p c = false) s -> rstrip_by p s = s.
Proof.
  intros H. unfold rstrip_by.
  rewrite lstrip_by_id by now apply List.Forall_rev.
  apply rev_involutive.
Qed.

Lemma strip_id (s : str) :
  Forall (fun c => isspace c = false) s -> strip s = s.
Proof.
  intros H. unfold strip. rewrite rstrip_by_id by assumption.
  now apply lstrip_by_id.
Qed.

Lemma eqb_char_eq a c : Ascii.eqb a c = true <-> a = c.
Proof. apply Ascii.eqb_eq. Qed.

Lemma startswith_nil (s : str) : startswith s [] = true.
Proof. now destruct s. Qed.

Lemma find_sub_single_cons a c (s : str) :
  find_sub [a] (c :: s) =
  if Ascii.eqb a c then Some ([], s)
  else match find_sub [a] s with
       | Some (pre, post) => Some (c :: pre, post)
       | None => None
       end.
Proof.
  cbn [find_sub startswith]. rewrite startswith_nil, andb_true_r.
  destruct (Ascii.eqb a c); reflexivity.
Qed.

Lemma find_sub_single_fresh a (pre post : str) :
  a ∉ pre -> find_sub [a] (pre ++ a :: post) = Some (pre, post).
Proof.
  induction pre as [|c pre IH]; intros Hn.
  - cbn [app]. rewrite find_sub_single_cons. now rewrite Ascii.eqb_refl.
  - apply not_elem_of_cons in Hn as [Hac Hn].
    cbn [app]. rewrite find_sub_single_cons.
    destruct (Ascii.eqb a c) eqn:E.
    + apply Ascii.eqb_eq in E. contradiction.
    + now rewrite (IH Hn).
Qed.

Lemma find_sub_single_None a (s : str) : a ∉ s -> find_sub [a] s = None.
Proof.
  induction s as [|c s IH]; intros Hn; [reflexivity|].
  apply not_elem_of_cons in Hn as [Hac Hn].
  rewrite find_sub_single_cons.
  destruct (Ascii.eqb a c) eqn:E.
  - apply Ascii.eqb_eq in E. contradiction.
  - now rewrite (IH Hn).
Qed.

Lemma elem_of_cut (a : ascii) (s : str) :
  a ∈ s -> exists pre post, s = pre ++ a :: post /\ a ∉ pre.
Proof.
  induction s as [|c s IH]; intros Hin.
  - inversion Hin.
  - destruct (decide (a = c)) as [->|Hne].
    + exists [], s. split; [reflexivity | apply not_elem_of_nil].
    + apply elem_of_cons in Hin as [?|Hin]; [contradiction|].
      destruct (IH Hin) as (pre & post & -> & Hn).
      exists (c :: pre), post. split; [reflexivity|].
      apply not_elem_of_cons. auto.
Qed.

Lemma contains_single a (s : str) : contains [a] s = true <-> a ∈ s.
Proof.
  unfold contains. split.
  - intros H. destruct (decide (a ∈ s)) as [|Hn]; [assumption|].
    rewrite (find_sub_single_None _ _ Hn) in H. discriminate.
  - intros Hin. destruct (elem_of_cut _ _ Hin) as (pre & post & -> & Hn).
    now rewrite find_sub_single_fresh.
Qed.

Lemma contains_single_false a (s : str) : contains [a] s = false <-> a ∉ s.
Proof.
  rewrite <- contains_single. destruct (contains [a] s); split; congruence.
Qed.

(** The pieces of [s.split(a)] for a one-character separator number one
    more than the occurrences of [a]. *)
Lemma split_cuts_single_length a (n : nat) (s : str) :
  length s <= n ->
  length (split_cuts n [a] s) = S (length (filter (fun c => c = a) s)).
Proof.
  revert s. induction n as [|n IH]; intros s Hn.
  - destruct s; [reflexivity | simpl in Hn; lia].
  - cbn [split_cuts]. destruct (decide (a ∈ s)) as [Hin|Hn'].
    + destruct (elem_of_cut _ _ Hin) as (pre & post & -> & Hfresh).
      rewrite find_sub_single_fresh by assumption. cbn [length].
      rewrite IH by (rewrite length_app in Hn; simpl in Hn; lia).
      rewrite filter_app, filter_cons_True by reflexivity.
      rewrite length_app. cbn [length].
      assert (filter (fun c => c = a) pre = []) as ->; [|simpl; lia].
      clear -Hfresh. induction pre as [|c pre IH]; [reflexivity|].
      apply not_elem_of_cons in Hfresh as [Hac Hn].
      rewrite filter_cons_False by congruence. auto.
    + rewrite find_sub_single_None by assumption. cbn [length]. f_equal.
      clear -Hn'. induction s as [|c s IH]; [reflexivity|].
      apply not_elem_of_cons in Hn' as [Hac Hn].
      rewrite filter_cons_False by congruence. auto.
Qed.

Lemma rev_cons_nonempty (d : ascii) (cur : str) : rev (d :: cur) <> [].
Proof. simpl. destruct (rev cur); discriminate. Qed.

Lemma split_ws_tokens (s cur : str) :
  Forall (fun c => isspace c = false) cur ->
  Forall token (split_ws s cur).
Proof.
  assert (Hrun : forall d cur, Forall (fun c => isspace c = false) (d :: cur) ->
                               token (rev (d :: cur))).
  { intros d cur' H. split; [apply rev_cons_nonempty | now apply List.Forall_rev]. }
  revert cur. induction s as [|c s IH]; intros cur Hcur; cbn [split_ws].
  - destruct cur as [|d cur]; cbn [nonempty]; [constructor|].
    constructor; [now apply Hrun | constructor].
  - destruct (isspace c) eqn:E.
    + destruct cur as [|d cur]; cbn [nonempty].
      * apply IH. constructor.
      * constructor; [now apply Hrun | apply IH; constructor].
    + apply IH. now constructor.
Qed.

Lemma py_split_tokens (line : str) : Forall token (py_split line).
Proof. apply split_ws_tokens. constructor. Qed.

Lemma token_no_space (t : str) : token t -> contains (lit " ") t = false.
Proof.
  intros [_ H]. change (lit " ") with [" "%char].
  apply contains_single_false. intros Hin.
  rewrite Forall_forall in H. specialize (H _ Hin). discriminate.
Qed.

(** ** Characters *)

Lemma decimal_not_space c : is_decimal c = true -> isspace c = false.
Proof. by_cases_on_char c. Qed.

Lemma decimal_not_sign c :
  is_decimal c = true -> is_code 45 c = false /\ is_code 43 c = false.
Proof. destruct c as [[] [] [] [] [] [] [] []]; vm_compute; intuition congruence. Qed.

Lemma decimal_isdigit c : is_decimal c = true -> isdigit_char c = true.
Proof. by_cases_on_char c. Qed.

Lemma isdigit_not_space c : isdigit_char c = true -> isspace c = false.
Proof. by_cases_on_char c. Qed.

Lemma isdigit_not_sign c :
  isdigit_char c = true -> is_code 45 c = false /\ is_code 43 c = false.
Proof. destruct c as [[] [] [] [] [] [] [] []]; vm_compute; intuition congruence. Qed.

Lemma isdigit_not_underscore c :
  isdigit_char c = true -> is_decimal c = false -> is_code 95 c = false.
Proof. by_cases_on_char c. Qed.

(** ** [int] on digit sequences *)

Lemma int_digits_decimal (s : str) (acc : Z) (prev : bool) :
  forallb is_decimal s = true ->
  int_digits s acc prev =
  if nonempty s || prev
  then Some (fold_left (fun acc c => (acc * 10 + digit_val c)%Z) s acc)
  else None.
Proof.
  revert acc prev. induction s as [|c s IH]; intros acc prev H.
  - simpl. now destruct prev.
  - cbn [forallb] in H. apply andb_prop in H as [Hc Hs].
    cbn [int_digits]. rewrite Hc, (IH _ _ Hs). cbn [nonempty orb fold_left].
    now rewrite orb_true_r.
Qed.

Lemma forallb_Forall {A} (p : A -> bool) (l : list A) :
  forallb p l = true <-> Forall (fun c => p c = true) l.
Proof.
  rewrite forallb_forall, Forall_forall. setoid_rewrite list_elem_of_In. tauto.
Qed.

Lemma is_digits_no_space (t : str) :
  forallb is_decimal t = true -> Forall (fun c => isspace c = false) t.
Proof.
  rewrite forallb_Forall. apply List.Forall_impl. intros c. apply decimal_not_space.
Qed.

Lemma int_space_isspace c : int_space c = true -> isspace c = true.
Proof. by_cases_on_char c. Qed.

Lemma int_strip_id (s : str) :
  Forall (fun c => isspace c = false) s ->
  lstrip_by int_space (rstrip_by int_space s) = s.
Proof.
  intros H.
  assert (Forall (fun c => int_space c = false) s) as H'.
  { revert H. apply List.Forall_impl. intros c Hc.
    destruct (int_space c) eqn:E; [|reflexivity].
    apply int_space_isspace in E. congruence. }
  rewrite rstrip_by_id by assumption. now apply lstrip_by_id.
Qed.

Lemma py_int_digits (t : str) :
  is_digits t = true -> py_int t = Some (decimal_value t).
Proof.
  unfold is_digits. intros H. apply andb_prop in H as [Hne Hall].
  unfold py_int. rewrite int_strip_id by now apply is_digits_no_space.
  destruct t as [|c r]; [discriminate|].
  pose proof Hall as Hall'. cbn [forallb] in Hall'.
  apply andb_prop in Hall' as [Hc _].
  destruct (decimal_not_sign _ Hc) as [-> ->].
  now rewrite int_digits_decimal.
Qed.

Lemma is_digits_isdigit (t : str) : is_digits t = true -> isdigit t = true.
Proof.
  unfold is_digits, isdigit. intros H. apply andb_prop in H as [-> Hall].
  cbn [andb]. rewrite forallb_Forall in *.
  revert Hall. apply List.Forall_impl. intros c. apply decimal_isdigit.
Qed.

Lemma int_digits_isdigit (s : str) (acc : Z) (prev : bool) (v : Z) :
  forallb isdigit_char s = true ->
  int_digits s acc prev = Some v ->
  forallb is_decimal s = true.
Proof.
  revert acc prev. induction s as [|c s IH]; intros acc prev H Hv; [reflexivity|].
  cbn [forallb] in H. apply andb_prop in H as [Hc Hs].
  cbn [int_digits] in Hv. cbn [forallb].
  destruct (is_decimal c) eqn:E.
  - cbn [andb]. eapply IH; eassumption.
  - rewrite (isdigit_not_underscore _ Hc E) in Hv. discriminate.
Qed.

Lemma isdigit_int_digits (t : str) (v : Z) :
  isdigit t = true -> py_int t = Some v -> is_digits t = true.
Proof.
  unfold isdigit, is_digits. intros H Hv.
  apply andb_prop in H as [Hne Hall]. rewrite Hne. cbn [andb].
  unfold py_int in Hv. rewrite int_strip_id in Hv.
  2:{ rewrite forallb_Forall in Hall. revert Hall. apply List.Forall_impl.
      intros c. apply isdigit_not_space. }
  destruct t as [|c r]; [discriminate|].
  pose proof Hall as Hall'. cbn [forallb] in Hall'.
  apply andb_prop in Hall' as [Hc _].
  destruct (isdigit_not_sign _ Hc) as [E1 E2]. rewrite E1, E2 in Hv.
  eapply int_digits_isdigit; eassumption.
Qed.

Lemma py_int_nil : py_int [] = None.
Proof. reflexivity. Qed.

(** ** The rating columns *)

Lemma games_fallback_spec (parts : list str) (v : Z) (idx : nat) :
  games_fallback parts (Some v) None idx =
  match parts !! idx with
  | Some g => if is_digits g then (Some (decimal_value g), S idx) else (None, idx)
  | None => (None, idx)
  end.
Proof.
  unfold games_fallback. destruct (parts !! idx) as [g|]; [|reflexivity].
  destruct (is_digits g) eqn:E.
  - now rewrite (is_digits_isdigit _ E), (py_int_digits _ E).
  - destruct (isdigit g) eqn:E'; [|reflexivity].
    destruct (py_int g) as [w|] eqn:E''; [|reflexivity].
    rewrite (isdigit_int_digits _ _ E' E'') in E. discriminate.
Qed.

Lemma split_cuts_nil (n : nat) (sep : str) :
  sep <> [] -> split_cuts n sep [] = [[]].
Proof. intros H. destruct n; [reflexivity|]. destruct sep; [contradiction | reflexivity]. Qed.

Lemma split_one_slash (e : str) :
  "/"%char ∉ e ->
  py_split_sep (lit "/") (e ++ lit "/") = OK [e; []].
Proof.
  intros H. change (lit "/") with ["/"%char]. unfold py_split_sep.
  rewrite length_app, Nat.add_1_r. cbn [split_cuts].
  rewrite find_sub_single_fresh by assumption.
  now rewrite split_cuts_nil.
Qed.

Lemma endswith_single_elem a (t : str) : endswith t [a] = true -> a ∈ t.
Proof.
  unfold endswith. cbn [rev app]. intros H.
  destruct (rev t) as [|c r] eqn:E; [discriminate|].
  cbn [startswith] in H. apply andb_prop in H as [H _].
  apply Ascii.eqb_eq in H. subst c.
  apply list_elem_of_In, in_rev. rewrite E. now left.
Qed.

Lemma token_branch (t : str) :
  token t ->
  end_games_branch t = if contains (lit "/") t then SlashBranch else PlainBranch.
Proof.
  intros Ht. unfold end_games_branch. rewrite (token_no_space _ Ht).
  now destruct (contains (lit "/") t).
Qed.

(** C9. Data lines are tokenized by whitespace splitting, so no token holds
    a space: the guard of the first rating/games branch ("/" in the token
    and no space in it) also captures every token ending in "/", and the
    [elif] branch for the split "rating/ games" format is taken by no token
    of any line. A token [e ++ "/"] is handled by the first branch, which
    sets the end rating and fails on the empty games part; the bare-digit
    fallback then reads the games value from the next token. *)
Theorem split_branch_unreachable (line t : str) :
  t ∈ py_split line ->
  contains (lit " ") t = false /\
  end_games_branch t <> SplitBranch /\
  (endswith t (lit "/") = true -> end_games_branch t = SlashBranch) /\
  (forall e v idx,
     t = e ++ lit "/" -> "/"%char ∉ e -> py_int e = Some v ->
     py_split line !! idx = Some t ->
     end_games (py_split line) idx = OK (Some v, None, S idx) /\
     games_fallback (py_split line) (Some v) None (S idx) =
       match py_split line !! S idx with
       | Some g => if is_digits g
                   then (Some (decimal_value g), S (S idx))
                   else (None, S idx)
       | None => (None, S idx)
       end).
Proof.
  intros Hin.
  assert (Ht : token t).
  { pose proof (py_split_tokens line) as H. rewrite Forall_forall in H. auto. }
  pose proof (token_branch _ Ht) as Hb.
  split; [now apply token_no_space|].
  split; [rewrite Hb; destruct (contains (lit "/") t); discriminate|].
  split.
  - intros He. rewrite Hb.
    apply (endswith_single_elem "/"%char) in He.
    apply contains_single in He. change (lit "/") with ["/"%char]. now rewrite He.
  - intros e v idx -> Hfresh Hv Hidx. split; [|apply games_fallback_spec].
    unfold end_games. rewrite Hidx, Hb.
    assert (contains (lit "/") (e ++ lit "/") = true) as ->.
    { apply contains_single. apply elem_of_app. right. now left. }
    rewrite split_one_slash by assumption. cbn [bind].
    destruct Ht as [_ Ht]. apply Forall_app in Ht as [He _].
    rewrite strip_id by assumption. rewrite Hv.
    reflexivity.
Qed.

Lemma split_branch_unreachable_witness :
  let line := lit "3 Smith, John ABCD1234 1500 1600/ 9 W2 D3 L4 2.5" in
  lit "1600/" ∈ py_split line /\
  end_games_branch (lit "1600/") <> SplitBranch /\
  end_games (py_split line) 5 = OK (Some 1600%Z, None, 6).
Proof.
  intros line.
  assert (Hin : lit "1600/" ∈ py_split line).
  { apply list_elem_of_lookup. exists 5. reflexivity. }
  split; [exact Hin|].
  destruct (split_branch_unreachable line (lit "1600/") Hin) as (_ & Hb & _ & Hs).
  split; [exact Hb|].
  apply (Hs (lit "1600") 1600%Z 5); [reflexivity | | reflexivity | reflexivity].
  vm_compute. intros H.
  repeat (apply elem_of_cons in H as [H|H]; [discriminate|]).
  inversion H.
Defined.

(** ** One row *)

Section Rows.

Context {F : Type} (py_float : str -> option F).

Lemma parse_player_unfold (rc : list (nat * str)) (parts : list str)
    (first : str) (position : Z) (name_end : nat) (ident : str) :
  10 <= length parts ->
  parts !! 0 = Some first -> py_int first = Some position ->
  find_id parts = Some (name_end, ident) -> 2 <= name_end ->
  exists second, parts !! 1 = Some second /\
    parse_player py_float rc parts =
    match ratings parts name_end with
    | OK r => OK (Some (make_player py_float rc parts position name_end ident second r))
    | Raise e => Raise e
    end.
Proof.
  intros Hlen H0 Hpos Hid Hne.
  destruct (lookup_lt_is_Some_2 parts 1) as [second H1]; [lia|].
  exists second. split; [assumption|].
  unfold parse_player, py_index.
  destruct (Nat.ltb_spec (length parts) 10) as [|_]; [lia|].
  rewrite H0. cbn [bind]. rewrite Hpos, Hid.
  destruct (Nat.ltb_spec name_end 2) as [|_]; [lia|].
  rewrite H1. cbn [bind]. unfold bind.
  destruct (ratings parts name_end); reflexivity.
Qed.

Lemma ratings_unfold (parts : list str) (name_end : nat) (s0 : option Z) (k : nat) :
  start_rating parts (name_end + 1) = (s0, k) ->
  ratings parts name_end =
  match end_games parts k with
  | OK (e, g, idx) =>
      OK {| r_start := s0; r_end := e; r_gms := fst (games_fallback parts e g idx);
            r_idx := snd (games_fallback parts e g idx) |}
  | Raise e => Raise e
  end.
Proof.
  intros H. unfold ratings. rewrite H.
  destruct (end_games parts k) as [[[e g] idx]|]; [|reflexivity].
  cbn [bind]. now destruct (games_fallback parts e g idx).
Qed.

End Rows.

(** C4. In an otherwise well-formed row (ten tokens or more, an integer
    position, the ID found at index 2 or later, [k] the cursor after the
    start rating), an end-rating/games field written as the token
    "1500/9", as the tokens "1500/" then "9", or as the token "1500" alone
    yields the end rating 1500; the first two forms also yield 9 games; the
    third leaves the games unset unless the next token is a bare digit
    sequence, which is then consumed as the games value. The rounds start
    at the token after the ones consumed. *)
Theorem rating_games_formats {F : Type} (py_float : str -> option F)
    (rc : list (nat * str)) (parts : list str) (first : str) (position : Z)
    (name_end : nat) (ident : str) (s0 : option Z) (k : nat) :
  10 <= length parts ->
  parts !! 0 = Some first -> py_int first = Some position ->
  find_id parts = Some (name_end, ident) -> 2 <= name_end ->
  start_rating parts (name_end + 1) = (s0, k) ->
  (parts !! k = Some (lit "1500/9") ->
   exists pl, parse_player py_float rc parts = OK (Some pl) /\
     end_ pl = Some 1500%Z /\ gms pl = Some 9%Z /\
     rds pl = round_results rc parts (k + 1)) /\
  (parts !! k = Some (lit "1500/") -> parts !! (k + 1) = Some (lit "9") ->
   exists pl, parse_player py_float rc parts = OK (Some pl) /\
     end_ pl = Some 1500%Z /\ gms pl = Some 9%Z /\
     rds pl = round_results rc parts (k + 2)) /\
  (parts !! k = Some (lit "1500") ->
   exists pl, parse_player py_float rc parts = OK (Some pl) /\
     end_ pl = Some 1500%Z /\
     match parts !! (k + 1) with
     | Some g =>
         if is_digits g
         then gms pl = Some (decimal_value g) /\
              rds pl = round_results rc parts (k + 2)
         else gms pl = None /\ rds pl = round_results rc parts (k + 1)
     | None => gms pl = None /\ rds pl = round_results rc parts (k + 1)
     end).
Proof.
  intros Hlen H0 Hpos Hid Hne Hstart.
  destruct (parse_player_unfold py_float rc parts first position name_end ident
              Hlen H0 Hpos Hid Hne) as (second & _ & Hrow).
  rewrite (ratings_unfold parts name_end s0 k Hstart) in Hrow.
  replace (k + 1) with (S k) by lia. replace (k + 2) with (S (S k)) by lia.
  split; [|split].
  - intros Hk.
    assert (He : end_games parts k = OK (Some 1500%Z, Some 9%Z, S k)).
    { unfold end_games. rewrite Hk. reflexivity. }
    rewrite He in Hrow. eexists. split; [exact Hrow|]. cbn. auto.
  - intros Hk Hk1.
    assert (He : end_games parts k = OK (Some 1500%Z, None, S k)).
    { unfold end_games. rewrite Hk. reflexivity. }
    rewrite He, games_fallback_spec, Hk1 in Hrow.
    eexists. split; [exact Hrow|]. cbn. auto.
  - intros Hk.
    assert (He : end_games parts k = OK (Some 1500%Z, None, S k)).
    { unfold end_games. rewrite Hk. reflexivity. }
    rewrite He, games_fallback_spec in Hrow.
    eexists. split; [exact Hrow|]. split; [reflexivity|].
    destruct (parts !! S k) as [g|]; [destruct (is_digits g)|]; cbn; auto.
Qed.

Lemma rating_games_formats_witness :
  let parts := py_split (lit "3 Smith, John ABCD1234 1400 1500/9 W2 D3 L4 2.5") in
  exists pl, parse_player demo_float [] parts = OK (Some pl) /\
    end_ pl = Some 1500%Z /\ gms pl = Some 9%Z.
Proof.
  intros parts.
  destruct (rating_games_formats demo_float [] parts (lit "3") 3%Z 3
              (lit "ABCD1234") (Some 1400%Z) 5) as (HA & _ & _).
  - vm_compute. lia.
  - vm_compute. reflexivity.
  - vm_compute. reflexivity.
  - vm_compute. reflexivity.
  - lia.
  - vm_compute. reflexivity.
  - assert (Hk : parts !! 5 = Some (lit "1500/9")) by (vm_compute; reflexivity).
    destruct (HA Hk) as (pl & H & He & Hg & _).
    exists pl. auto.
Defined.

(** ** The round columns *)

Lemma round_results_past_end (rc : list (nat * str)) (parts : list str) (idx : nat) :
  length parts <= idx -> round_results rc parts idx = [].
Proof.
  revert idx. induction rc as [|[n l] rc IH]; intros idx H; [reflexivity|].
  cbn [round_results]. rewrite (lookup_ge_None_2 parts idx) by assumption.
  apply IH. lia.
Qed.

Lemma round_results_lookup (rc : list (nat * str)) (parts : list str) (idx i : nat) :
  round_results rc parts idx !! i =
  match rc !! i, parts !! (idx + i) with
  | Some (_, l), Some t => Some {| round := l; res := t |}
  | _, _ => None
  end.
Proof.
  revert idx i. induction rc as [|[n l] rc IH]; intros idx i; [reflexivity|].
  cbn [round_results]. destruct (parts !! idx) as [t|] eqn:E.
  - destruct i as [|i].
    + cbn. rewrite Nat.add_0_r, E. reflexivity.
    + cbn [lookup list_lookup]. rewrite IH. now replace (S idx + i) with (idx + S i) by lia.
  - apply lookup_ge_None_1 in E.
    rewrite round_results_past_end by lia. cbn.
    rewrite (lookup_ge_None_2 parts (idx + i)) by lia.
    now destruct (((n, l) :: rc) !! i) as [[? ?]|].
Qed.

Lemma round_results_length (rc : list (nat * str)) (parts : list str) (idx : nat) :
  length (round_results rc parts idx) = Nat.min (length rc) (length parts - idx).
Proof.
  revert idx. induction rc as [|[n l] rc IH]; intros idx; [reflexivity|].
  cbn [round_results]. destruct (parts !! idx) as [t|] eqn:E.
  - apply lookup_lt_Some in E. cbn [length]. rewrite IH. lia.
  - apply lookup_ge_None_1 in E. rewrite round_results_past_end by lia.
    cbn [length]. lia.
Qed.

Lemma round_columns_labels (i : nat) (header_parts : list str) :
  map snd (round_columns_from i header_parts) =
  filter (fun t => is_round_column t = true) header_parts.
Proof.
  revert i. induction header_parts as [|t l IH]; intros i; [reflexivity|].
  cbn [round_columns_from]. destruct (is_round_column t) eqn:E.
  - rewrite filter_cons_True by assumption. cbn [map snd]. now rewrite IH.
  - rewrite filter_cons_False by congruence. apply IH.
Qed.

(** ** The loop over the lines *)

Section Lines.

Context {F : Type} (py_float : str -> option F).

Lemma parse_player_inv (rc : list (nat * str)) (parts : list str) (pl : Player F) :
  parse_player py_float rc parts = OK (Some pl) ->
  exists first position name_end ident second r,
    10 <= length parts /\ parts !! 0 = Some first /\ py_int first = Some position /\
    find_id parts = Some (name_end, ident) /\ 2 <= name_end /\
    parts !! 1 = Some second /\ ratings parts name_end = OK r /\
    pl = make_player py_float rc parts position name_end ident second r.
Proof.
  unfold parse_player, py_index.
  destruct (Nat.ltb_spec (length parts) 10) as [|Hlen]; [discriminate|].
  destruct (parts !! 0) as [first|] eqn:H0; [|discriminate]. cbn [bind].
  destruct (py_int first) as [position|] eqn:Hpos; [|discriminate].
  destruct (find_id parts) as [[name_end ident]|] eqn:Hid; [|discriminate].
  destruct (Nat.ltb_spec name_end 2) as [|Hne]; [discriminate|].
  destruct (parts !! 1) as [second|] eqn:H1; [|discriminate]. cbn [bind].
  destruct (ratings parts name_end) as [r|] eqn:Hr; [|discriminate]. cbn [bind].
  intros [= <-].
  exists first, position, name_end, ident, second, r. repeat split; auto.
Qed.

Lemma parse_lines_rows (rc : list (nat * str)) (lines : list str)
    (acc rows : list (Player F)) :
  parse_lines py_float rc lines acc = OK rows ->
  exists new, rows = acc ++ new /\
    forall pl, pl ∈ new ->
      exists line, line ∈ lines /\ parse_line py_float rc line = OK (Some pl).
Proof.
  revert acc. induction lines as [|line lines IH]; intros acc H.
  - cbn in H. injection H as <-. exists []. split; [now rewrite app_nil_r|].
    intros pl Hin. inversion Hin.
  - cbn [parse_lines] in H.
    destruct (parse_line py_float rc line) as [[pl0|]|] eqn:E; cbn [bind] in H;
      [| |discriminate].
    + destruct (IH _ H) as (new & -> & Hnew).
      exists (pl0 :: new). split; [now rewrite <- app_assoc|].
      intros pl Hin. apply elem_of_cons in Hin as [->|Hin].
      * exists line. split; [now left | assumption].
      * destruct (Hnew _ Hin) as (l & Hl & Hp). exists l. split; [now right | assumption].
    + destruct (IH _ H) as (new & -> & Hnew).
      exists new. split; [reflexivity|].
      intros pl Hin. destruct (Hnew _ Hin) as (l & Hl & Hp).
      exists l. split; [now right | assumption].
Qed.

End Lines.

Lemma split_cuts_cons (n : nat) (sep s : str) :
  exists h t, split_cuts n sep s = h :: t.
Proof.
  destruct n; cbn [split_cuts]; [eauto|].
  destruct (find_sub sep s) as [[? ?]|]; eauto.
Qed.

Lemma token_nonempty (t : str) : token t -> nonempty t = true.
Proof. intros [H _]. now destruct t. Qed.

Lemma total_score_token {F : Type} (py_float : str -> option F)
    (parts : list str) (idx : nat) :
  Forall token parts ->
  total_score py_float parts idx = parts !! idx ≫= py_float.
Proof.
  intros H. unfold total_score. destruct (parts !! idx) as [t|] eqn:E; [|reflexivity].
  rewrite Forall_forall in H.
  rewrite token_nonempty; [reflexivity|].
  apply H. apply list_elem_of_lookup. eauto.
Qed.

Lemma parse_player_other_float {F G : Type} (py_float : str -> option F)
    (other : str -> option G) (rc : list (nat * str)) (parts : list str)
    (pl : Player F) (r : Ratings) (name_end : nat) :
  parse_player py_float rc parts = OK (Some pl) ->
  fst <$> find_id parts = Some name_end ->
  ratings parts name_end = OK r ->
  parse_player other rc parts =
  OK (Some (with_tot (total_score other parts (r_idx r + length rc)) pl)).
Proof.
  intros H Hid Hr.
  destruct (parse_player_inv _ _ _ _ H)
    as (first & position & ne & ident & second & r' & Hlen & H0 & Hpos & Hid' & Hne & H1 & Hr' & ->).
  rewrite Hid' in Hid. injection Hid as <-.
  rewrite Hr in Hr'. injection Hr' as <-.
  destruct (parse_player_unfold other rc parts first position ne ident
              Hlen H0 Hpos Hid' Hne) as (second' & H1' & ->).
  rewrite H1 in H1'. injection H1' as <-.
  rewrite Hr. reflexivity.
Qed.

(** C1. For every row the table parser produces, the i-th element of its
    rounds has as label the i-th header token of the form "rd" + digits and
    as code the token at position cursor + i of the row's line, present
    exactly when that token exists; the token at cursor + (number of round
    columns), when it exists, is what the total score is parsed from, and
    a failure of that parse leaves only the total unset: with any other
    float parser the line yields the same row but for its total. *)
Theorem rounds_aligned {F : Type} (py_float : str -> option F)
    (pre_text : str) (rows : list (Player F)) :
  parse_section_results py_float pre_text = OK rows ->
  exists header data,
    py_split_sep [NL] (strip pre_text) = OK (header :: data) /\
    let rc := round_columns (py_split (strip header)) in
    let labels := filter (fun t => is_round_column t = true) (py_split (strip header)) in
    map snd rc = labels /\
    forall pl, pl ∈ rows ->
      exists line name_end r,
        line ∈ data /\
        let parts := py_split line in
        let cursor := r_idx r in
        fst <$> find_id parts = Some name_end /\
        ratings parts name_end = OK r /\
        (forall i, rds pl !! i =
           match labels !! i, parts !! (cursor + i) with
           | Some l, Some t => Some {| round := l; res := t |}
           | _, _ => None
           end) /\
        length (rds pl) = Nat.min (length labels) (length parts - cursor) /\
        tot pl = parts !! (cursor + length labels) ≫= py_float /\
        forall (G : Type) (other : str -> option G),
          parse_line other rc line =
          OK (Some (with_tot (parts !! (cursor + length labels) ≫= other) pl)).
Proof.
  unfold parse_section_results. intros H.
  destruct (py_split_sep [NL] (strip pre_text)) as [lines|] eqn:Hsplit; [|discriminate].
  cbn [bind] in H. destruct lines as [|header data]; [|cbn [nonempty] in H].
  { unfold py_split_sep in Hsplit. injection Hsplit as Hsplit.
    destruct (split_cuts_cons (length (strip pre_text)) [NL] (strip pre_text))
      as (h & t & E).
    rewrite E in Hsplit. discriminate. }
  unfold py_index in H. cbn [lookup list_lookup bind drop] in H.
  exists header, data. split; [reflexivity|].
  set (rc := round_columns (py_split (strip header))) in *.
  set (labels := filter (fun t => is_round_column t = true) (py_split (strip header))).
  assert (Hlabels : map snd rc = labels) by apply round_columns_labels.
  split; [assumption|].
  intros pl Hin.
  destruct (parse_lines_rows _ _ _ _ _ H) as (new & -> & Hnew).
  rewrite app_nil_l in Hin.
  destruct (Hnew _ Hin) as (line & Hline & Hrow).
  unfold parse_line in Hrow.
  destruct (nonempty (strip line)) eqn:Hne; [|discriminate].
  destruct (parse_player_inv _ _ _ _ Hrow)
    as (first & position & ne & ident & second & r & Hlen & H0 & Hpos & Hid & Hne2 & H1 & Hr & Hpl).
  exists line, ne, r. split; [assumption|].
  set (parts := py_split line) in *. set (cursor := r_idx r).
  assert (Hlen' : length rc = length labels) by (rewrite <- Hlabels; now rewrite length_map).
  split; [now rewrite Hid|]. split; [assumption|].
  assert (Htok : Forall token parts) by apply py_split_tokens.
  split; [|split; [|split]].
  - intros i. rewrite Hpl. cbn [rds make_player]. rewrite round_results_lookup.
    rewrite <- Hlabels, list_lookup_fmap.
    destruct (rc !! i) as [[n l]|]; reflexivity.
  - rewrite Hpl. cbn [rds make_player]. rewrite round_results_length. now rewrite Hlen'.
  - rewrite Hpl. cbn [tot make_player]. rewrite total_score_token by assumption.
    now rewrite Hlen'.
  - intros G other. unfold parse_line. rewrite Hne. fold parts.
    rewrite (parse_player_other_float py_float other rc parts pl r ne Hrow);
      [|now rewrite Hid | assumption].
    rewrite total_score_token by assumption. fold cursor. now rewrite Hlen'.
Qed.

Lemma rounds_aligned_witness :
  let text := demo_header ++ [NL]
              ++ lit "3 Smith, John Q ABCD1234 1500 1600/9 W2 D3 L4 2.5" in
  exists rows header data,
    parse_section_results demo_float text = OK rows /\
    py_split_sep [NL] (strip text) = OK (header :: data).
Proof.
  intros text.
  destruct (parse_section_results demo_float text) as [rows|e] eqn:E.
  - destruct (rounds_aligned demo_float text rows E) as (header & data & Hs & _).
    exists rows, header, data. split; [reflexivity | exact Hs].
  - vm_compute in E. discriminate.
Defined.

(** ** The matcher *)

Lemma try_down_Some {A} (f : nat -> option A) (k : nat) (x : A) :
  try_down f k = Some x -> exists j, j <= k /\ f j = Some x.
Proof.
  induction k as [|k IH]; cbn [try_down]; destruct (f _) eqn:E; intros H.
  - injection H as <-. eauto.
  - discriminate.
  - injection H as <-. eauto.
  - destruct (IH H) as (j & Hj & Hf). exists j. split; [lia | assumption].
Qed.

Lemma try_down_None {A} (f : nat -> option A) (k : nat) :
  try_down f k = None -> forall j, j <= k -> f j = None.
Proof.
  induction k as [|k IH]; cbn [try_down]; destruct (f _) eqn:E; intros H j Hj;
    try discriminate.
  - now replace j with 0 by lia.
  - destruct (decide (j = S k)) as [->|]; [assumption|]. apply IH; [assumption | lia].
Qed.

Lemma try_down_is_Some {A} (f : nat -> option A) (k j : nat) :
  j <= k -> is_Some (f j) -> is_Some (try_down f k).
Proof.
  intros Hj [x Hx]. destruct (try_down f k) eqn:E; [eauto|].
  rewrite (try_down_None _ _ E j Hj) in Hx. discriminate.
Qed.

Lemma span_len_le (p : ascii -> bool) (s : str) : span_len p s <= length s.
Proof.
  induction s as [|c s IH]; cbn [span_len length]; [lia|].
  destruct (p c); lia.
Qed.

Lemma take_span (p : ascii -> bool) (s : str) (k : nat) :
  k <= span_len p s -> Forall (fun c => p c = true) (take k s).
Proof.
  revert k. induction s as [|c s IH]; intros k Hk.
  - rewrite take_nil. constructor.
  - destruct k as [|k]; [constructor|]. cbn [span_len] in Hk.
    destruct (p c) eqn:E; [|lia]. cbn [take]. constructor; [assumption|].
    apply IH. lia.
Qed.

Lemma span_len_app (p : ascii -> bool) (g s : str) :
  Forall (fun c => p c = true) g -> length g <= span_len p (g ++ s).
Proof.
  induction 1 as [|c g Hc _ IH]; cbn [app span_len length]; [lia|].
  rewrite Hc. lia.
Qed.

Lemma span_len_all (p : ascii -> bool) (s : str) (k : nat) :
  k <= span_len p s <-> k <= length s /\ Forall (fun c => p c = true) (take k s).
Proof.
  split.
  - intros H. split; [pose proof (span_len_le p s); lia | now apply take_span].
  - intros [Hk Hall]. rewrite <- (take_drop k s) at 1.
    etransitivity; [|apply span_len_app; exact Hall].
    rewrite length_take. lia.
Qed.

Lemma cap_le (hi : option nat) (n j : nat) :
  j <= cap hi n <-> j <= n /\ within hi j.
Proof. destruct hi as [h|]; cbn [cap within]; lia. Qed.

(** What a successful match returns: each text fits its item, and the
    texts, in order, are the beginning of the string. *)
Lemma match_items_sound (its : list item) (pos : nat) (s : str) (gs : list str) :
  match_items its pos s = Some gs ->
  Forall2 item_ok its gs /\ s = concat gs ++ drop (length (concat gs)) s.
Proof.
  revert pos s gs. induction its as [|it its IH]; intros pos s gs H.
  - injection H as <-. split; [constructor | reflexivity].
  - destruct it as [| |p lo hi]; cbn [match_items] in H.
    + destruct (pos =? 0); [|discriminate].
      destruct (match_items its pos s) as [gs'|] eqn:E; [|discriminate].
      injection H as <-. destruct (IH _ _ _ E) as [HF Hs].
      split; [constructor; [reflexivity | assumption] | exact Hs].
    + destruct (at_end s); [|discriminate].
      destruct (match_items its pos s) as [gs'|] eqn:E; [|discriminate].
      injection H as <-. destruct (IH _ _ _ E) as [HF Hs].
      split; [constructor; [reflexivity | assumption] | exact Hs].
    + apply try_down_Some in H as (j & Hj & Hf).
      apply cap_le in Hj as [Hj Hhi].
      destruct (Nat.leb_spec lo j) as [Hlo|]; [|discriminate].
      destruct (match_items its (pos + j) (drop j s)) as [gs'|] eqn:E; [|discriminate].
      injection Hf as <-. destruct (IH _ _ _ E) as [HF Hs].
      pose proof (span_len_le p s) as Hlen.
      assert (Hl : length (take j s) = j) by (rewrite length_take; lia).
      split.
      * constructor; [|assumption]. cbn [item_ok]. rewrite Hl.
        repeat split; [assumption | assumption | now apply take_span].
      * cbn [concat]. rewrite length_app, Hl, <- app_assoc.
        rewrite <- drop_drop, <- Hs. now rewrite take_drop.
Qed.

(** The matcher finds a match wherever an anchor-free pattern has one. *)
Lemma match_items_complete (its : list item) (pos : nat) (gs : list str) (rest : str) :
  anchor_free its -> Forall2 item_ok its gs ->
  is_Some (match_items its pos (concat gs ++ rest)).
Proof.
  intros Hfree HF. revert pos. induction HF as [|it g its gs Hok HF IH]; intros pos.
  - cbn. eauto.
  - apply Forall_cons in Hfree as [Hit Hfree].
    destruct it as [| |p lo hi]; try contradiction.
    destruct Hok as (Hlo & Hhi & Hall).
    cbn [match_items concat]. rewrite <- app_assoc.
    apply (try_down_is_Some _ _ (length g)).
    + apply cap_le. split; [now apply span_len_app | assumption].
    + destruct (Nat.leb_spec lo (length g)) as [_|]; [|lia].
      rewrite take_app_length, drop_app_length.
      destruct (IH Hfree (pos + length g)) as [x ->]. cbn. eauto.
Qed.

Lemma search_from_Some (its : list item) (pos : nat) (s : str) (m : re_match) :
  search_from its pos s = Some m ->
  s = before m ++ group0 m ++ after m /\
  Forall2 item_ok its (groups m) /\
  match_items its (pos + length (before m)) (group0 m ++ after m) = Some (groups m) /\
  forall j, j < length (before m) -> match_items its (pos + j) (drop j s) = None.
Proof.
  revert pos m. induction s as [|c s IH]; intros pos m H; cbn [search_from] in H.
  - destruct (match_items its pos []) as [gs|] eqn:E; [|discriminate].
    injection H as <-. unfold group0. cbn [before groups after length app].
    destruct (match_items_sound _ _ _ _ E) as [HF Hs].
    rewrite Nat.add_0_r, <- Hs. repeat split; auto. intros j Hj. lia.
  - destruct (match_items its pos (c :: s)) as [gs|] eqn:E.
    + injection H as <-. unfold group0. cbn [before groups after length app].
      destruct (match_items_sound _ _ _ _ E) as [HF Hs].
      rewrite Nat.add_0_r, <- Hs. repeat split; auto. intros j Hj. lia.
    + destruct (search_from its (S pos) s) as [m'|] eqn:E'; [|discriminate].
      injection H as <-. destruct (IH _ _ E') as (Hs & HF & Hm & Hfirst).
      unfold shift, group0 in *. cbn [before groups after length app].
      split; [now rewrite <- Hs|].
      split; [assumption|].
      split; [now replace (pos + S (length (before m'))) with (S pos + length (before m')) by lia|].
      intros j Hj. destruct j as [|j].
      * now rewrite Nat.add_0_r.
      * cbn [drop]. replace (pos + S j) with (S pos + j) by lia. apply Hfirst. lia.
Qed.

Lemma search_from_None (its : list item) (pos : nat) (s : str) :
  search_from its pos s = None ->
  forall j, j <= length s -> match_items its (pos + j) (drop j s) = None.
Proof.
  revert pos. induction s as [|c s IH]; intros pos H j Hj; cbn [search_from] in H.
  - destruct (match_items its pos []) eqn:E; [discriminate|].
    cbn in Hj. replace j with 0 by lia. now rewrite Nat.add_0_r.
  - destruct (match_items its pos (c :: s)) eqn:E; [discriminate|].
    destruct (search_from its (S pos) s) eqn:E'; [discriminate|].
    destruct j as [|j].
    + now rewrite Nat.add_0_r.
    + cbn [drop]. replace (pos + S j) with (S pos + j) by lia.
      apply IH; [assumption | cbn in Hj; lia].
Qed.

(** ** The ID anchor *)

Lemma id_match_spec (t : str) :
  is_Some (re_match_at0 id_pattern t) <->
  8 <= span_len id_char t /\ at_end (drop 8 t) = true.
Proof.
  unfold re_match_at0, id_pattern. cbn [match_items Nat.eqb].
  change (fun c => is_upper c || is_decimal c) with id_char.
  set (f := fun k => if 8 <=? k then _ else None).
  split.
  - intros [x Hx].
    destruct (try_down f (cap (Some 8) (span_len id_char t))) as [y|] eqn:E;
      [|discriminate].
    apply try_down_Some in E as (j & Hj & Hf). apply cap_le in Hj as [Hj Hhi].
    cbn [within] in Hhi. subst f. cbv beta in Hf.
    destruct (Nat.leb_spec 8 j) as [Hlo|]; [|discriminate].
    assert (j = 8) as -> by lia. split; [assumption|].
    destruct (at_end (drop 8 t)); [reflexivity | discriminate].
  - intros [Hspan Hend].
    assert (is_Some (try_down f (cap (Some 8) (span_len id_char t)))) as [y ->].
    { apply (try_down_is_Some _ _ 8).
      - apply cap_le. cbn [within]. lia.
      - subst f. cbv beta. cbn [Nat.leb]. rewrite Hend. cbn. eauto. }
    cbn. eauto.
Qed.

Lemma NL_space : isspace NL = true.
Proof. reflexivity. Qed.

Lemma id_match_token (t : str) :
  token t -> (is_Some (re_match_at0 id_pattern t) <-> is_id t = true).
Proof.
  intros [_ Htok]. rewrite id_match_spec, span_len_all. unfold is_id.
  rewrite andb_true_iff, Nat.eqb_eq. fold id_char. rewrite forallb_Forall.
  split.
  - intros [[Hlen Hall] Hend].
    assert (Hd : drop 8 t = []).
    { destruct (drop 8 t) as [|c [|d r]] eqn:E; [reflexivity | | discriminate].
      cbn [at_end] in Hend. apply Ascii.eqb_eq in Hend. subst c.
      assert (Hin : NL ∈ t).
      { rewrite <- (take_drop 8 t), E. apply elem_of_app. right. now left. }
      rewrite Forall_forall in Htok. specialize (Htok _ Hin).
      rewrite NL_space in Htok. discriminate. }
    apply (f_equal length) in Hd. rewrite length_drop in Hd. cbn in Hd.
    assert (Hl : length t = 8) by lia. split; [assumption|].
    now rewrite take_ge in Hall by lia.
  - intros [Hl Hall]. split; [split; [lia | now rewrite take_ge by lia]|].
    now rewrite drop_ge by lia.
Qed.

Lemma find_id_from_Some (i : nat) (parts : list str) (n : nat) (t : str) :
  find_id_from i parts = Some (n, t) <->
  exists k, n = i + k /\ parts !! k = Some t /\
    is_Some (re_match_at0 id_pattern t) /\
    forall j u, j < k -> parts !! j = Some u -> re_match_at0 id_pattern u = None.
Proof.
  revert i. induction parts as [|p parts IH]; intros i; cbn [find_id_from].
  - split; [discriminate|]. intros (k & _ & Hk & _). discriminate.
  - destruct (re_match_at0 id_pattern p) as [gs|] eqn:E.
    + split.
      * intros [= <- <-]. exists 0. rewrite Nat.add_0_r.
        repeat split; [rewrite E; eauto|]. intros j u Hj. lia.
      * intros (k & -> & Hk & Hm & Hfirst). destruct k as [|k].
        -- cbn in Hk. injection Hk as <-. now rewrite Nat.add_0_r.
        -- rewrite (Hfirst 0 p) in E by (lia || reflexivity). discriminate.
    + rewrite IH. split.
      * intros (k & -> & Hk & Hm & Hfirst). exists (S k).
        split; [lia|]. split; [assumption|]. split; [assumption|].
        intros j u Hj Hu. destruct j as [|j].
        -- cbn in Hu. now injection Hu as <-.
        -- apply (Hfirst j); [lia | assumption].
      * intros (k & -> & Hk & Hm & Hfirst). destruct k as [|k].
        -- cbn in Hk. injection Hk as <-. rewrite E in Hm. destruct Hm. discriminate.
        -- exists k. split; [lia|]. split; [assumption|]. split; [assumption|].
           intros j u Hj Hu. apply (Hfirst (S j)); [lia | assumption].
Qed.

Lemma find_id_from_None (i : nat) (parts : list str) :
  find_id_from i parts = None <->
  forall t, t ∈ parts -> re_match_at0 id_pattern t = None.
Proof.
  revert i. induction parts as [|p parts IH]; intros i; cbn [find_id_from].
  - split; [|reflexivity]. intros _ t Hin. inversion Hin.
  - destruct (re_match_at0 id_pattern p) as [gs|] eqn:E.
    + split; [discriminate|]. intros H. rewrite (H p) in E by now left. discriminate.
    + rewrite IH. split.
      * intros H t Hin. apply elem_of_cons in Hin as [->|Hin]; auto.
      * intros H t Hin. apply H. now right.
Qed.

Lemma not_is_Some_None {A} (o : option A) : ~ is_Some o <-> o = None.
Proof.
  destruct o; split; intros H; try reflexivity; try discriminate.
  - exfalso. apply H. eauto.
  - intros [x Hx]. discriminate.
Qed.

Lemma token_id_None (t : str) :
  token t -> (re_match_at0 id_pattern t = None <-> is_id t = false).
Proof.
  intros Ht. rewrite <- not_is_Some_None, (id_match_token _ Ht).
  destruct (is_id t); split; congruence.
Qed.

(** On a tokenized line the scan returns the first token, from index 0 on,
    that is exactly 8 characters, each an uppercase letter or digit. *)
Lemma find_id_tokens (parts : list str) :
  Forall token parts ->
  (forall i t, find_id parts = Some (i, t) <->
     parts !! i = Some t /\ is_id t = true /\
     forall j u, j < i -> parts !! j = Some u -> is_id u = false) /\
  (find_id parts = None <-> forall t, t ∈ parts -> is_id t = false).
Proof.
  intros Htok. rewrite Forall_forall in Htok.
  assert (Hlk : forall j u, parts !! j = Some u -> token u).
  { intros j u Hu. apply Htok. apply list_elem_of_lookup. eauto. }
  split.
  - intros i t. unfold find_id. rewrite find_id_from_Some. split.
    + intros (k & -> & Hk & Hm & Hfirst). cbn [Nat.add].
      split; [assumption|]. split; [now apply id_match_token; eauto|].
      intros j u Hj Hu. apply token_id_None; eauto.
    + intros (Hi & Hm & Hfirst). exists i. split; [reflexivity|].
      split; [assumption|]. split; [apply id_match_token; eauto|].
      intros j u Hj Hu. apply token_id_None; eauto.
  - unfold find_id. rewrite find_id_from_None. split.
    + intros H t Hin. apply token_id_None; auto.
    + intros H t Hin. apply token_id_None; auto.
Qed.

(** ** Stripping *)

Lemma lstrip_by_spec (p : ascii -> bool) (s : str) :
  exists junk, s = junk ++ lstrip_by p s /\
    Forall (fun c => p c = true) junk /\
    forall c r, lstrip_by p s = c :: r -> p c = false.
Proof.
  induction s as [|c s (junk & Hs & Hj & Hh)]; cbn [lstrip_by].
  - exists []. repeat split; [constructor | discriminate].
  - destruct (p c) eqn:E.
    + exists (c :: junk). cbn [app]. rewrite <- Hs.
      repeat split; [now constructor | assumption].
    + exists []. repeat split; [constructor|]. now intros c' r [= <- <-].
Qed.

Lemma rstrip_by_spec (p : ascii -> bool) (s : str) :
  exists tail, s = rstrip_by p s ++ tail /\
    Forall (fun c => p c = true) tail /\
    forall r c, rstrip_by p s = r ++ [c] -> p c = false.
Proof.
  unfold rstrip_by.
  destruct (lstrip_by_spec p (rev s)) as (junk & Hs & Hj & Hh).
  exists (rev junk). split; [|split].
  - rewrite <- rev_app_distr, <- Hs. now rewrite rev_involutive.
  - now apply List.Forall_rev.
  - intros r c Hr. apply (f_equal (@rev ascii)) in Hr.
    rewrite rev_involutive, rev_app_distr in Hr. cbn in Hr. eauto.
Qed.

Lemma slice_lookup {A} (l : list A) (i j k : nat) :
  k < j - i -> slice l i j !! k = l !! (i + k).
Proof.
  intros H. unfold slice. rewrite lookup_drop, lookup_take_lt by lia. reflexivity.
Qed.

Lemma slice_length {A} (l : list A) (i j : nat) :
  j <= length l -> length (slice l i j) = j - i.
Proof. intros H. unfold slice. rewrite length_drop, length_take. lia. Qed.

(** ** When the rating columns raise *)

Lemma slashes_pos (t : str) : "/"%char ∈ t -> 1 <= slashes t.
Proof.
  intros H. unfold slashes.
  assert (Hin : "/"%char ∈ filter (fun c => c = "/"%char) t)
    by (apply list_elem_of_filter; auto).
  destruct (filter _ t); [inversion Hin | cbn; lia].
Qed.

Lemma end_games_ok (parts : list str) (idx : nat) :
  (forall t, parts !! idx = Some t -> slashes t <= 1) ->
  exists x, end_games parts idx = OK x.
Proof.
  intros H. unfold end_games. destruct (parts !! idx) as [t|]; [|eauto].
  specialize (H t eq_refl). unfold end_games_branch.
  destruct (contains (lit "/") t) eqn:Hc; cbn [andb].
  - apply (contains_single "/"%char) in Hc. apply slashes_pos in Hc.
    destruct (negb (contains (lit " ") t)).
    + change (lit "/") with ["/"%char]. unfold py_split_sep. cbn [bind].
      pose proof (split_cuts_single_length "/"%char (length t) t (le_n _)) as Hl.
      fold (slashes t) in Hl.
      destruct (split_cuts (length t) ["/"%char] t) as [|e [|g [|x r]]];
        cbn [length] in Hl; try lia.
      destruct (py_int (strip e)); [|eauto]. destruct (py_int (strip g)); eauto.
    + destruct (endswith t (lit "/")).
      * destruct (py_int _); [|eauto]. destruct (parts !! (idx + 1)); [|eauto].
        destruct (py_int _); eauto.
      * destruct (py_int _); eauto.
  - destruct (py_int _); eauto.
Qed.

Lemma end_games_raises (parts : list str) (idx : nat) (t : str) :
  parts !! idx = Some t -> token t -> 2 <= slashes t ->
  end_games parts idx = Raise ValueError.
Proof.
  intros Hidx Ht Hs. unfold end_games. rewrite Hidx, (token_branch _ Ht).
  assert (contains (lit "/") t = true) as ->.
  { apply (contains_single "/"%char). unfold slashes in Hs.
    destruct (filter (fun c => c = "/"%char) t) as [|c r] eqn:E; [cbn in Hs; lia|].
    assert (Hin : c ∈ filter (fun c => c = "/"%char) t) by (rewrite E; now left).
    apply list_elem_of_filter in Hin as [-> Hin]. assumption. }
  change (lit "/") with ["/"%char]. unfold py_split_sep. cbn [bind].
  pose proof (split_cuts_single_length "/"%char (length t) t (le_n _)) as Hl.
  fold (slashes t) in Hl.
  destruct (split_cuts (length t) ["/"%char] t) as [|e [|g [|x r]]];
    cbn [length] in Hl; try lia; reflexivity.
Qed.

Lemma ratings_ok (parts : list str) (name_end : nat) :
  Forall (fun t => slashes t <= 1) parts ->
  exists r, ratings parts name_end = OK r.
Proof.
  intros H. unfold ratings.
  destruct (start_rating parts (name_end + 1)) as [s idx].
  destruct (end_games_ok parts idx) as [[[e g] idx'] ->].
  { intros t Ht. rewrite Forall_forall in H. apply H.
    apply list_elem_of_lookup. eauto. }
  cbn [bind]. destruct (games_fallback parts e g idx'). eauto.
Qed.

(** C2, as the code has it. On a data line with ten tokens or more and an
    integer position, the ID anchor is the first token, scanning from
    index 0 (the position token included), that is exactly 8 characters,
    each an uppercase letter or digit. The line is skipped when there is no
    such token or it is found at an index below 2. Otherwise the line is
    not skipped: when the token under the cursor after the start rating
    holds two or more "/" the call raises [ValueError]; in every other case
    the row is produced, the ID is the anchor, the last name is token 1
    without its trailing commas and the first name is the space-join of
    tokens 2 up to the anchor, exclusive (none when the anchor is at
    index 2). *)
Theorem id_anchor {F : Type} (py_float : str -> option F)
    (rc : list (nat * str)) (line first : str) (position : Z) :
  10 <= length (py_split line) ->
  py_split line !! 0 = Some first -> py_int first = Some position ->
  (forall i t, find_id (py_split line) = Some (i, t) <->
     py_split line !! i = Some t /\ is_id t = true /\
     forall j u, j < i -> py_split line !! j = Some u -> is_id u = false) /\
  (find_id (py_split line) = None <->
     forall t, t ∈ py_split line -> is_id t = false) /\
  match find_id (py_split line) with
  | None => parse_player py_float rc (py_split line) = OK None
  | Some (i, t) =>
      if i <? 2 then parse_player py_float rc (py_split line) = OK None
      else
        forall s0 k, start_rating (py_split line) (i + 1) = (s0, k) ->
        ((exists u, py_split line !! k = Some u /\ 2 <= slashes u) ->
         parse_player py_float rc (py_split line) = Raise ValueError) /\
        ((forall u, py_split line !! k = Some u -> slashes u <= 1) ->
        exists pl second commas,
          parse_player py_float rc (py_split line) = OK (Some pl) /\
          id pl = t /\
          py_split line !! 1 = Some second /\
          second = last_name pl ++ commas /\
          Forall (fun c => c = ","%char) commas /\
          (forall r c, last_name pl = r ++ [c] -> c <> ","%char) /\
          first_name pl = join (lit " ") (slice (py_split line) 2 i) /\
          length (slice (py_split line) 2 i) = i - 2 /\
          forall j, j < i - 2 ->
            slice (py_split line) 2 i !! j = py_split line !! (2 + j))
  end.
Proof.
  set (parts := py_split line). intros Hlen H0 Hpos.
  destruct (find_id_tokens parts (py_split_tokens line)) as [HSome HNone].
  split; [exact HSome|]. split; [exact HNone|].
  destruct (find_id parts) as [[i t]|] eqn:Hid.
  - destruct (Nat.ltb_spec i 2) as [Hi|Hi].
    + unfold parse_player, py_index.
      destruct (Nat.ltb_spec (length parts) 10) as [|_]; [lia|].
      rewrite H0. cbn [bind]. rewrite Hpos, Hid.
      destruct (Nat.ltb_spec i 2) as [_|]; [reflexivity | lia].
    + intros s0 k Hstart.
      destruct (parse_player_unfold py_float rc parts first position i t
                  Hlen H0 Hpos Hid Hi) as (second & H1 & Hrow).
      rewrite (ratings_unfold parts i s0 k Hstart) in Hrow.
      split.
      { intros (u & Hu & Hsl). rewrite Hrow.
        rewrite (end_games_raises parts k u Hu); [reflexivity | | assumption].
        pose proof (py_split_tokens line) as Htok. rewrite Forall_forall in Htok.
        apply Htok. apply list_elem_of_lookup. eauto. }
      intros Hsl.
      destruct (end_games_ok parts k Hsl) as [[[e g] idx] He]. rewrite He in Hrow.
      destruct (rstrip_by_spec (is_char ","%char) second) as (commas & Hs & Hc & Hl).
      eexists _, second, commas. split; [exact Hrow|].
      cbn [id last_name first_name make_player].
      assert (Hit : parts !! i = Some t) by (apply HSome; reflexivity).
      apply lookup_lt_Some in Hit.
      repeat split; try assumption.
      * revert Hc. apply List.Forall_impl. intros c Hc. now apply Ascii.eqb_eq in Hc.
      * intros r0 c Hr0 ->. apply Hl in Hr0. unfold is_char in Hr0.
        rewrite Ascii.eqb_refl in Hr0. discriminate.
      * apply slice_length. lia.
      * intros j Hj. now apply slice_lookup.
  - unfold parse_player, py_index.
    destruct (Nat.ltb_spec (length parts) 10) as [|_]; [lia|].
    rewrite H0. cbn [bind]. now rewrite Hpos, Hid.
Qed.

Lemma id_anchor_witness :
  let line := lit "3 Smith, John Q ABCD1234 1500 1600/9 W2 D3 L4 2.5" in
  exists pl, parse_player demo_float [] (py_split line) = OK (Some pl) /\
    id pl = lit "ABCD1234" /\ first_name pl = lit "John Q".
Proof.
  intros line.
  assert (Hlen : 10 <= length (py_split line)) by (vm_compute; lia).
  assert (H0 : py_split line !! 0 = Some (lit "3")) by (vm_compute; reflexivity).
  assert (Hpos : py_int (lit "3") = Some 3%Z) by (vm_compute; reflexivity).
  destruct (id_anchor demo_float [] line (lit "3") 3%Z Hlen H0 Hpos) as (_ & _ & H).
  assert (Hid : find_id (py_split line) = Some (4, lit "ABCD1234"))
    by (vm_compute; reflexivity).
  rewrite Hid in H. cbn [Nat.ltb Nat.leb] in H.
  assert (Hstart : start_rating (py_split line) (4 + 1) = (Some 1500%Z, 6))
    by (vm_compute; reflexivity).
  destruct (H _ _ Hstart) as [_ Hrow'].
  assert (Hsl : forall u, py_split line !! 6 = Some u -> slashes u <= 1).
  { intros u Hu. vm_compute in Hu. injection Hu as <-. vm_compute. lia. }
  destruct (Hrow' Hsl)
    as (pl & second & commas & Hrow & Hident & _ & _ & _ & _ & Hfirst & _).
  exists pl. split; [exact Hrow|]. split; [exact Hident|].
  rewrite Hfirst. vm_compute. reflexivity.
Defined.

(** C2 as stated does not hold: scanning from index 1, a line whose
    position is an 8-digit number has its anchor at index 3, which is not
    below 2, and yet the code, which scans from index 0 and finds the
    position token first, skips the line. *)
Lemma id_anchor_from_1_counterexample :
  let parts := py_split (lit "12345678 Smith, John ABCD1234 1500 1600/9 W2 D3 L4 2.5") in
  (10 <=? length parts) = true /\
  parts !! 0 ≫= py_int = Some 12345678%Z /\
  spec_find_id parts = Some (3, lit "ABCD1234") /\
  find_id parts = Some (0, lit "12345678") /\
  forall (F : Type) (py_float : str -> option F) (rc : list (nat * str)),
    parse_player py_float rc parts = OK None.
Proof.
  vm_compute. repeat split.
Qed.

(** ** What holds of the rating/games token and of the loop *)

Lemma split_cuts_fresh a (n : nat) (s : str) : a ∉ s -> split_cuts n [a] s = [s].
Proof.
  intros H. destruct n; [reflexivity|]. cbn [split_cuts].
  now rewrite find_sub_single_None.
Qed.

(** A token with exactly one "/": both parts are parsed, the cursor moves
    by one; the games part is not tried when the rating part fails. *)
Lemma end_games_one_slash (parts : list str) (idx : nat) (e g : str) :
  parts !! idx = Some (e ++ "/"%char :: g) -> token (e ++ "/"%char :: g) ->
  "/"%char ∉ e -> "/"%char ∉ g ->
  end_games parts idx =
  OK match py_int e with
     | Some ev => (Some ev, py_int g, S idx)
     | None => (None, None, S idx)
     end.
Proof.
  intros Hidx Ht He Hg. unfold end_games. rewrite Hidx, (token_branch _ Ht).
  assert (contains (lit "/") (e ++ "/"%char :: g) = true) as ->.
  { apply (contains_single "/"%char). apply elem_of_app. right. now left. }
  change (lit "/") with ["/"%char]. unfold py_split_sep.
  rewrite length_app. cbn [length]. rewrite Nat.add_succ_r. cbn [split_cuts bind].
  rewrite find_sub_single_fresh by assumption.
  rewrite split_cuts_fresh by assumption.
  destruct Ht as [_ Ht]. apply Forall_app in Ht as [Hte Htg].
  apply Forall_cons in Htg as [_ Htg].
  rewrite !strip_id by assumption.
  destruct (py_int e); [|reflexivity]. now destruct (py_int g).
Qed.

Section Loop.

Context {F : Type} (py_float : str -> option F).

(** A line is skipped exactly on the three conditions. *)
Lemma parse_player_skip_iff (rc : list (nat * str)) (parts : list str) :
  parse_player py_float rc parts = OK None <->
  length parts < 10 \/ parts !! 0 ≫= py_int = None \/ find_id parts = None \/
  exists i t, find_id parts = Some (i, t) /\ i < 2.
Proof.
  unfold parse_player, py_index.
  destruct (Nat.ltb_spec (length parts) 10) as [Hlen|Hlen]; [tauto|].
  destruct (lookup_lt_is_Some_2 parts 0) as [first H0]; [lia|].
  destruct (lookup_lt_is_Some_2 parts 1) as [second H1]; [lia|].
  rewrite H0, H1. cbn [bind mbind option_bind].
  destruct (py_int first) as [position|]; [|tauto].
  destruct (find_id parts) as [[i t]|]; [|tauto].
  destruct (Nat.ltb_spec i 2) as [Hi|Hi].
  - split; [|reflexivity]. intros _. right. right. right. eauto.
  - cbn [bind]. destruct (ratings parts i); cbn [bind]; split; try discriminate.
    + intros [|[|[|(i' & t' & [= <- <-] & ?)]]]; try lia; discriminate.
    + intros [|[|[|(i' & t' & [= <- <-] & ?)]]]; try lia; discriminate.
Qed.

(** A line passing the three checks whose tokens hold at most one "/" each
    yields a row. *)
Lemma parse_player_row (rc : list (nat * str)) (parts : list str) (first : str)
    (position : Z) (i : nat) (t : str) :
  10 <= length parts -> parts !! 0 = Some first -> py_int first = Some position ->
  find_id parts = Some (i, t) -> 2 <= i ->
  Forall (fun u => slashes u <= 1) parts ->
  exists pl, parse_player py_float rc parts = OK (Some pl).
Proof.
  intros Hlen H0 Hpos Hid Hi Hsl.
  destruct (parse_player_unfold py_float rc parts first position i t
              Hlen H0 Hpos Hid Hi) as (second & _ & ->).
  destruct (ratings_ok parts i Hsl) as [r ->]. eauto.
Qed.

(** When no line raises, the rows are those of the lines, in line order. *)
Lemma parse_lines_ok (rc : list (nat * str)) (lines : list str) (acc : list (Player F)) :
  (forall line, line ∈ lines -> exists row, parse_line py_float rc line = OK row) ->
  parse_lines py_float rc lines acc = OK (acc ++ omap (line_row py_float rc) lines).
Proof.
  revert acc. induction lines as [|line lines IH]; intros acc H.
  - cbn. now rewrite app_nil_r.
  - cbn [parse_lines omap list_omap]. unfold line_row at 1.
    destruct (H line) as [row Hrow]; [now left|]. rewrite Hrow. cbn [bind].
    destruct row as [pl|].
    + rewrite IH by (intros l Hl; apply H; now right).
      now rewrite <- app_assoc.
    + apply IH. intros l Hl. apply H. now right.
Qed.

(** One raising line loses the rows of all the lines. *)
Lemma parse_lines_raise (rc : list (nat * str)) (lines : list str)
    (acc : list (Player F)) (line : str) (e : exn) :
  line ∈ lines -> parse_line py_float rc line = Raise e ->
  exists e', parse_lines py_float rc lines acc = Raise e'.
Proof.
  revert acc. induction lines as [|l lines IH]; intros acc Hin Hr.
  - inversion Hin.
  - cbn [parse_lines]. apply elem_of_cons in Hin as [<-|Hin].
    + rewrite Hr. cbn. eauto.
    + destruct (parse_line py_float rc l) as [[pl|]|e0]; cbn [bind]; eauto.
Qed.

End Loop.

(** C3, where the code departs from it. The token "1600/9/1" contains "/"
    and no whitespace, and it is where the cursor stands after the start
    rating; the unpacking of its three parts into two names raises
    [ValueError] outside every [try], so neither field is set, the cursor
    does not advance and the whole call raises. *)
Theorem two_slashes_raise :
  let line := lit "1 Smith, John ABCD1234 1500 1600/9/1 W2 D3 L4 2.5" in
  let parts := py_split line in
  start_rating parts 4 = (Some 1500%Z, 5) /\
  parts !! 5 = Some (lit "1600/9/1") /\
  contains (lit "/") (lit "1600/9/1") = true /\
  contains (lit " ") (lit "1600/9/1") = false /\
  end_games parts 5 = Raise ValueError /\
  forall (F : Type) (py_float : str -> option F),
    parse_section_results py_float (demo_header ++ [NL] ++ line) = Raise ValueError.
Proof.
  vm_compute. repeat split.
Qed.

(** C7, where the code departs from it. The second data line has ten
    tokens, an integer position and its ID at index 3, so it passes the
    three checks; its rating/games token holds two "/", the line raises
    instead of yielding a row, and the row of the first line is lost with
    it. *)
Theorem passing_line_without_row :
  let good := lit "1 Smith, John ABCD1234 1500 1600/9 W2 D3 L4 2.5" in
  let bad := lit "2 Jones, Ann EFGH5678 1400 1450/8/1 L1 W3 D4 1.5" in
  let rc := round_columns (py_split demo_header) in
  (10 <=? length (py_split bad)) = true /\
  py_split bad !! 0 ≫= py_int = Some 2%Z /\
  find_id (py_split bad) = Some (3, lit "EFGH5678") /\
  forall (F : Type) (py_float : str -> option F),
    (exists pl, parse_line py_float rc good = OK (Some pl)) /\
    parse_line py_float rc bad = Raise ValueError /\
    parse_section_results py_float (demo_header ++ [NL] ++ good ++ [NL] ++ bad)
    = Raise ValueError.
Proof.
  vm_compute. repeat split. eexists. reflexivity.
Qed.

(** ** Substrings *)

Lemma startswith_spec (s p : str) :
  startswith s p = true <-> exists r, s = p ++ r.
Proof.
  revert s. induction p as [|a p IH]; intros s.
  - rewrite startswith_nil. split; [eauto | reflexivity].
  - destruct s as [|c s]; cbn [startswith].
    + split; [discriminate | intros [r Hr]; discriminate].
    + rewrite andb_true_iff, Ascii.eqb_eq, IH. split.
      * intros [-> [r ->]]. eauto.
      * intros [r [= -> ->]]. eauto.
Qed.

Lemma startswith_app (p r : str) : startswith (p ++ r) p = true.
Proof. apply startswith_spec. eauto. Qed.

Lemma find_sub_cons (sub : str) c (s : str) :
  find_sub sub (c :: s) =
  if startswith (c :: s) sub then Some ([], drop (length sub) (c :: s))
  else match find_sub sub s with
       | Some (pre, post) => Some (c :: pre, post)
       | None => None
       end.
Proof. reflexivity. Qed.

Lemma find_sub_nil (sub : str) :
  find_sub sub [] = if startswith [] sub then Some ([], drop (length sub) []) else None.
Proof. reflexivity. Qed.

(** [find_sub] cuts at the first occurrence. *)
Lemma find_sub_first (sub pre post : str) :
  (forall j, j < length pre -> startswith (drop j (pre ++ sub ++ post)) sub = false) ->
  find_sub sub (pre ++ sub ++ post) = Some (pre, post).
Proof.
  induction pre as [|c pre IH]; intros H.
  - cbn [app]. destruct (sub ++ post) as [|c s] eqn:E.
    + rewrite find_sub_nil. destruct sub; [|discriminate]. cbn in E. subst post.
      reflexivity.
    + rewrite find_sub_cons, <- E, startswith_app. now rewrite drop_app_length.
  - cbn [app]. rewrite find_sub_cons.
    pose proof (H 0 ltac:(cbn; lia)) as H0. cbn [drop app] in H0.
    rewrite H0. rewrite IH; [reflexivity|].
    intros j Hj. apply (H (S j)). cbn. lia.
Qed.

Lemma find_sub_Some (sub s pre post : str) :
  find_sub sub s = Some (pre, post) -> s = pre ++ sub ++ post.
Proof.
  revert pre post. induction s as [|c s IH]; intros pre post.
  - rewrite find_sub_nil. destruct (startswith [] sub) eqn:E; [|discriminate].
    intros [= <- <-]. apply startswith_spec in E as [r Hr].
    destruct sub; [reflexivity | discriminate].
  - rewrite find_sub_cons. destruct (startswith (c :: s) sub) eqn:E.
    + intros [= <- <-]. apply startswith_spec in E as [r Hr]. rewrite Hr.
      now rewrite drop_app_length.
    + destruct (find_sub sub s) as [[pre' post']|]; [|discriminate].
      intros [= <- <-]. cbn [app]. f_equal. now apply IH.
Qed.

Lemma find_sub_None (sub s : str) (j : nat) :
  find_sub sub s = None -> j <= length s -> startswith (drop j s) sub = false.
Proof.
  revert j. induction s as [|c s IH]; intros j.
  - rewrite find_sub_nil. destruct (startswith [] sub) eqn:E; [discriminate|].
    intros _ Hj. now rewrite drop_nil.
  - rewrite find_sub_cons. destruct (startswith (c :: s) sub) eqn:E; [discriminate|].
    destruct (find_sub sub s) as [[? ?]|] eqn:E'; [discriminate|].
    intros _ Hj. destruct j as [|j]; [assumption|].
    cbn [drop]. apply IH; [reflexivity | cbn in Hj; lia].
Qed.

(** The head of [s.split(sep)] when [sep] occurs. *)
Lemma split_cuts_found (sep s pre post : str) :
  sep <> [] -> find_sub sep s = Some (pre, post) ->
  split_cuts (length s) sep s = pre :: split_cuts (length s - 1) sep post.
Proof.
  intros Hsep H. pose proof (find_sub_Some _ _ _ _ H) as Hs.
  assert (length s <> 0).
  { rewrite Hs, !length_app. destruct sep; [contradiction | cbn; lia]. }
  destruct (length s) as [|n] eqn:E; [contradiction|].
  cbn [split_cuts]. rewrite H. now replace (S n - 1) with n by lia.
Qed.

Lemma find_sub_in_nil (sep : str) : sep <> [] -> find_sub sep [] = None.
Proof. destruct sep; [contradiction | reflexivity]. Qed.

Lemma split_cuts_second (n : nat) (sep post : str) :
  sep <> [] -> length post <= n ->
  exists tl, split_cuts n sep post = up_to_next sep post :: tl.
Proof.
  intros Hsep Hn. unfold up_to_next. destruct n as [|n]; cbn [split_cuts].
  - destruct post; [|cbn in Hn; lia]. rewrite find_sub_in_nil by assumption. eauto.
  - destruct (find_sub sep post) as [[seg rest]|]; eauto.
Qed.

(** ** The date pattern *)

Lemma date_pattern_free : anchor_free date_pattern.
Proof. unfold anchor_free, date_pattern, one. cbn. repeat constructor. Qed.

Lemma td_pattern_free : anchor_free td_pattern.
Proof. unfold anchor_free, td_pattern, one. cbn. repeat constructor. Qed.

Lemma comma_only (g : str) :
  1 <= length g -> length g <= 1 -> Forall (fun c => is_char "," c = true) g ->
  g = [","%char].
Proof.
  intros H1 H2 Hall. destruct g as [|c [|d r]]; cbn in H1, H2; try lia.
  apply Forall_cons in Hall as [Hc _]. apply Ascii.eqb_eq in Hc. now subst c.
Qed.

Lemma date_pattern_form (gs : list str) :
  Forall2 item_ok date_pattern gs -> date_form (concat gs).
Proof.
  unfold date_pattern, one. intros H.
  apply Forall2_cons_inv_l in H as (w & gs1 & (Hw1 & Hw2 & Hw3) & H & ->).
  apply Forall2_cons_inv_l in H as (s1 & gs2 & (Hs1 & _ & Hs1') & H & ->).
  apply Forall2_cons_inv_l in H as (d & gs3 & (Hd1 & Hd2 & Hd3) & H & ->).
  apply Forall2_cons_inv_l in H as (c & gs4 & (Hc1 & Hc2 & Hc3) & H & ->).
  apply Forall2_cons_inv_l in H as (s2 & gs5 & (Hs2 & _ & Hs2') & H & ->).
  apply Forall2_cons_inv_l in H as (y & gs6 & (Hy1 & Hy2 & Hy3) & H & ->).
  apply Forall2_nil_inv_l in H as ->.
  cbn [within] in *. rewrite (comma_only c Hc1 Hc2 Hc3).
  exists w, s1, d, s2, y. cbn [concat app]. rewrite app_nil_r.
  repeat split; try assumption; lia.
Qed.

Lemma date_form_pattern (m : str) :
  date_form m -> exists gs, Forall2 item_ok date_pattern gs /\ concat gs = m.
Proof.
  intros (w & s1 & d & s2 & y & -> & Hw & Hw' & Hs1 & Hs1' & Hd & Hd' & Hs2 & Hs2' & Hy & Hy').
  exists [w; s1; d; [","%char]; s2; y]. split.
  - unfold date_pattern, one.
    repeat (apply List.Forall2_cons;
            [cbn [item_ok within]; repeat split;
             first [assumption | cbn [length]; lia
                   | constructor; [reflexivity | constructor]]|]).
    apply List.Forall2_nil.
  - cbn [concat app]. now rewrite app_nil_r.
Qed.

Lemma date_form_nonempty (m : str) : date_form m -> m <> [].
Proof.
  intros (w & s1 & d & s2 & y & -> & Hw & _). destruct w; [discriminate | discriminate].
Qed.

(** ** Searching *)

Lemma re_search_Some (its : list item) (s : str) (m : re_match) :
  re_search its s = Some m ->
  s = before m ++ group0 m ++ after m /\
  Forall2 item_ok its (groups m) /\
  forall j, j < length (before m) -> match_items its j (drop j s) = None.
Proof.
  intros H. apply search_from_Some in H as (Hs & HF & _ & Hfirst). auto.
Qed.

(** The match of an anchor-free pattern is leftmost: no text fitting the
    pattern starts before it. *)
Lemma re_search_leftmost (its : list item) (s : str) (m : re_match)
    (pre : str) (gs : list str) (post : str) :
  anchor_free its -> re_search its s = Some m ->
  s = pre ++ concat gs ++ post -> Forall2 item_ok its gs ->
  length (before m) <= length pre.
Proof.
  intros Hfree H Hs HF. apply re_search_Some in H as (_ & _ & Hfirst).
  destruct (Nat.le_gt_cases (length (before m)) (length pre)) as [|Hlt]; [assumption|].
  specialize (Hfirst _ Hlt). rewrite Hs, drop_app_length in Hfirst.
  destruct (match_items_complete its (length pre) gs post Hfree HF) as [x Hx].
  rewrite Hx in Hfirst. discriminate.
Qed.

Lemma re_search_None (its : list item) (s pre : str) (gs : list str) (post : str) :
  anchor_free its -> re_search its s = None ->
  s = pre ++ concat gs ++ post -> Forall2 item_ok its gs -> False.
Proof.
  intros Hfree H Hs HF.
  pose proof (search_from_None its 0 s H (length pre)) as Hn.
  rewrite Hs, drop_app_length in Hn. cbn [Nat.add] in Hn.
  destruct (match_items_complete its (length pre) gs post Hfree HF) as [x Hx].
  rewrite Hx in Hn. discriminate Hn. rewrite length_app. lia.
Qed.

(** For an anchor-free pattern the matched text first occurs, as a
    substring, where it was matched. *)
Lemma re_search_find (its : list item) (s : str) (m : re_match) :
  anchor_free its -> re_search its s = Some m ->
  find_sub (group0 m) s = Some (before m, after m).
Proof.
  intros Hfree H. pose proof H as H'.
  apply re_search_Some in H' as (Hs & HF & Hfirst).
  rewrite Hs at 1. apply find_sub_first. intros j Hj. rewrite <- Hs.
  destruct (startswith (drop j s) (group0 m)) eqn:E; [|reflexivity].
  apply startswith_spec in E as [r Hr].
  specialize (Hfirst _ Hj). rewrite Hr in Hfirst.
  destruct (match_items_complete its j (groups m) r Hfree HF) as [x Hx].
  unfold group0 in Hfirst. rewrite Hx in Hfirst. discriminate.
Qed.

(** ** The heading parser raises nothing *)

Lemma py_split_sep_ok (sep s : str) :
  sep <> [] -> py_split_sep sep s = OK (split_cuts (length s) sep s).
Proof. destruct sep; [contradiction | reflexivity]. Qed.

Lemma date_match_form (line : str) (m : re_match) :
  re_search date_pattern line = Some m -> date_form (group0 m).
Proof.
  intros H. apply re_search_Some in H as (_ & HF & _). now apply date_pattern_form.
Qed.

Lemma date_match_nonempty (line : str) (m : re_match) :
  re_search date_pattern line = Some m -> group0 m <> [].
Proof. intros H. eapply date_form_nonempty, date_match_form, H. Qed.

(** [line.split(date)] for the date matched in [line]: the text before the
    match, then the text after it up to the next occurrence of the same
    date text. *)
Lemma split_at_date (line : str) (m : re_match) :
  re_search date_pattern line = Some m ->
  exists tl, py_split_sep (group0 m) line =
             OK (before m :: up_to_next (group0 m) (after m) :: tl).
Proof.
  intros H. pose proof (date_match_nonempty _ _ H) as Hne.
  pose proof (re_search_find _ _ _ date_pattern_free H) as Hf.
  rewrite py_split_sep_ok by assumption.
  rewrite (split_cuts_found _ _ _ _ Hne Hf).
  destruct (split_cuts_second (length line - 1) (group0 m) (after m) Hne) as [tl ->].
  - apply find_sub_Some in Hf. apply (f_equal length) in Hf.
    rewrite !length_app in Hf.
    destruct (group0 m); [contradiction | cbn [length] in Hf; lia].
  - eauto.
Qed.

Lemma date_in_first_line_total (first_line : str) (m : re_match) :
  re_search date_pattern first_line = Some m ->
  date_in_first_line first_line m empty_info = OK (first_line_info first_line m).
Proof.
  intros H. destruct (split_at_date _ _ H) as [tl Hs].
  unfold date_in_first_line, first_line_info, py_index. rewrite Hs.
  cbn [bind lookup list_lookup length Nat.ltb Nat.leb].
  now destruct (nonempty _).
Qed.

Lemma date_in_later_lines_total (rest : list str) (info : TournamentInfo) :
  date_in_later_lines rest info = OK (later_lines_info rest info).
Proof.
  induction rest as [|line rest IH]; [reflexivity|].
  cbn [date_in_later_lines later_lines_info].
  destruct (re_search date_pattern line) as [m|] eqn:H; [|exact IH].
  destruct (split_at_date _ _ H) as [tl Hs].
  unfold date_found, py_index. rewrite Hs.
  cbn [bind lookup list_lookup length Nat.ltb Nat.leb].
  now destruct (nonempty _).
Qed.

Lemma info_of_lines_total (lines : list str) :
  info_of_lines lines = OK (lines_info lines).
Proof.
  destruct lines as [|first_line rest]; [reflexivity|].
  unfold info_of_lines, lines_info.
  destruct (re_search date_pattern first_line) as [m|] eqn:H.
  - now rewrite (date_in_first_line_total _ _ H).
  - now rewrite date_in_later_lines_total.
Qed.

Lemma heading_lines_total (text : str) :
  heading_lines text = OK (nonblank_lines text).
Proof. reflexivity. Qed.

Lemma extract_tournament_info_total (text : str) :
  extract_tournament_info (Some text) = OK (lines_info (nonblank_lines text)).
Proof.
  unfold extract_tournament_info. rewrite heading_lines_total. cbn [bind].
  apply info_of_lines_total.
Qed.

(** ** The fields each step touches *)

Lemma td_in_lines_fields (lines : list str) (info : TournamentInfo) :
  date (td_in_lines lines info) = date info /\
  tournament (td_in_lines lines info) = tournament info /\
  address (td_in_lines lines info) = address info.
Proof.
  induction lines as [|l lines IH]; cbn [td_in_lines]; [auto|].
  destruct (re_search td_pattern l); [cbn; auto | exact IH].
Qed.

Lemma td_in_lines_TD (lines : list str) (info : TournamentInfo) :
  TD info = None ->
  (TD (td_in_lines lines info) = None <->
   forall l, l ∈ lines -> re_search td_pattern l = None).
Proof.
  intros Hi. induction lines as [|l lines IH]; cbn [td_in_lines].
  - split; [|auto]. intros _ l Hl. inversion Hl.
  - destruct (re_search td_pattern l) as [m|] eqn:E.
    + cbn [TD set_TD]. split; [discriminate|].
      intros H. rewrite (H l) in E by now left. discriminate.
    + rewrite IH. split.
      * intros H l' Hl'. apply elem_of_cons in Hl' as [->|Hl']; auto.
      * intros H l' Hl'. apply H. now right.
Qed.

Lemma address_in_later_lines_fields (rest : list str) (info : TournamentInfo) :
  date (address_in_later_lines rest info) = date info /\
  tournament (address_in_later_lines rest info) = tournament info /\
  TD (address_in_later_lines rest info) = TD info.
Proof.
  induction rest as [|l rest IH]; cbn [address_in_later_lines]; [auto|].
  destruct (_ || _); [exact IH | cbn; auto].
Qed.

Lemma address_fallback_fields (lines : list str) (info : TournamentInfo) :
  date (address_fallback lines info) = date info /\
  tournament (address_fallback lines info) = tournament info /\
  TD (address_fallback lines info) = TD info.
Proof.
  unfold address_fallback. destruct (address info); [auto|].
  destruct (1 <? length lines); [apply address_in_later_lines_fields | auto].
Qed.

Lemma date_found_fields (line : str) (m : re_match) (info : TournamentInfo) :
  date (date_found line m info) = Some (group0 m) /\
  tournament (date_found line m info) = tournament info /\
  TD (date_found line m info) = TD info.
Proof. unfold date_found. destruct (nonempty _); cbn; auto. Qed.

Lemma later_lines_info_fields (rest : list str) (info : TournamentInfo) :
  date (later_lines_info rest info) =
    match first_date rest with Some d => Some d | None => date info end /\
  tournament (later_lines_info rest info) = tournament info /\
  TD (later_lines_info rest info) = TD info.
Proof.
  induction rest as [|l rest IH]; cbn [later_lines_info first_date]; [auto|].
  destruct (re_search date_pattern l) as [m|]; [apply date_found_fields | exact IH].
Qed.

Lemma first_line_info_fields (first_line : str) (m : re_match) :
  date (first_line_info first_line m) = Some (group0 m) /\
  tournament (first_line_info first_line m) = Some (strip (before m)) /\
  TD (first_line_info first_line m) = None /\
  address (first_line_info first_line m) =
    if nonempty (strip (up_to_next (group0 m) (after m)))
    then Some (strip (up_to_next (group0 m) (after m)))
    else None.
Proof. unfold first_line_info. destruct (nonempty _); cbn; auto. Qed.

Lemma first_date_None (lines : list str) :
  first_date lines = None <->
  forall l, l ∈ lines -> re_search date_pattern l = None.
Proof.
  induction lines as [|l lines IH]; cbn [first_date].
  - split; [|auto]. intros _ l Hl. inversion Hl.
  - destruct (re_search date_pattern l) as [m|] eqn:E.
    + split; [discriminate|]. intros H. rewrite (H l) in E by now left. discriminate.
    + rewrite IH. split.
      * intros H l' Hl'. apply elem_of_cons in Hl' as [->|Hl']; auto.
      * intros H l' Hl'. apply H. now right.
Qed.

(** The fields of the result, by the lines of the heading. *)
Lemma lines_info_fields (first_line : str) (rest : list str) :
  let info := lines_info (first_line :: rest) in
  date info = first_date (first_line :: rest) /\
  tournament info =
    match re_search date_pattern first_line with
    | Some m => Some (strip (before m))
    | None => Some first_line
    end /\
  (TD info = None <->
   forall l, l ∈ first_line :: rest -> re_search td_pattern l = None).
Proof.
  cbn zeta. unfold lines_info.
  set (base := match re_search date_pattern first_line with
               | Some m => first_line_info first_line m
               | None => later_lines_info rest (set_tournament first_line empty_info)
               end).
  destruct (td_in_lines_fields (first_line :: rest)
              (address_fallback (first_line :: rest) base)) as (Hd & Ht & _).
  destruct (address_fallback_fields (first_line :: rest) base) as (Hd' & Ht' & HT').
  rewrite Hd, Ht, Hd', Ht'.
  assert (Hbase : date base = first_date (first_line :: rest) /\
                  tournament base = match re_search date_pattern first_line with
                                    | Some m => Some (strip (before m))
                                    | None => Some first_line
                                    end /\
                  TD base = None).
  { subst base. cbn [first_date].
    destruct (re_search date_pattern first_line) as [m|].
    - destruct (first_line_info_fields first_line m) as (? & ? & ? & _). auto.
    - destruct (later_lines_info_fields rest (set_tournament first_line empty_info))
        as (Hdl & Htl & HTl).
      rewrite Hdl, Htl, HTl. cbn. split; [|auto]. now destruct (first_date rest). }
  destruct Hbase as (Hb1 & Hb2 & Hb3).
  split; [assumption|]. split; [assumption|].
  apply td_in_lines_TD. now rewrite HT'.
Qed.

(** ** Non-blank lines *)

Lemma strip_keeps (c : ascii) (s : str) :
  c ∈ s -> isspace c = false -> c ∈ strip s.
Proof.
  intros Hin Hc. unfold strip.
  destruct (rstrip_by_spec isspace s) as (tail & Hs & Ht & _).
  assert (Hin' : c ∈ rstrip_by isspace s).
  { rewrite Hs in Hin. apply elem_of_app in Hin as [|Hin]; [assumption|].
    rewrite Forall_forall in Ht. rewrite (Ht _ Hin) in Hc. discriminate. }
  destruct (lstrip_by_spec isspace (rstrip_by isspace s)) as (junk & Hs' & Hj & _).
  rewrite Hs' in Hin'. apply elem_of_app in Hin' as [Hin'|]; [|assumption].
  rewrite Forall_forall in Hj. rewrite (Hj _ Hin') in Hc. discriminate.
Qed.

Lemma split_cuts_elem (a c : ascii) (n : nat) (s : str) :
  length s <= n -> c ∈ s -> c <> a ->
  exists piece, piece ∈ split_cuts n [a] s /\ c ∈ piece.
Proof.
  revert s. induction n as [|n IH]; intros s Hn Hin Hne.
  - destruct s; [inversion Hin | cbn in Hn; lia].
  - cbn [split_cuts]. destruct (decide (a ∈ s)) as [Ha|Ha].
    + destruct (elem_of_cut _ _ Ha) as (pre & post & -> & Hfresh).
      rewrite find_sub_single_fresh by assumption.
      apply elem_of_app in Hin as [Hin|Hin].
      * exists pre. split; [now left | assumption].
      * apply elem_of_cons in Hin as [->|Hin]; [contradiction|].
        destruct (IH post) as (piece & Hp & Hc); [|assumption|assumption|].
        -- rewrite length_app in Hn. cbn in Hn. lia.
        -- exists piece. split; [now right | assumption].
    + rewrite find_sub_single_None by assumption.
      exists s. split; [now left | assumption].
Qed.

Lemma nonblank_lines_nonempty (text : str) (c : ascii) :
  c ∈ text -> isspace c = false -> nonblank_lines text <> [].
Proof.
  intros Hin Hc. pose proof (strip_keeps _ _ Hin Hc) as Hin'.
  destruct (split_cuts_elem NL c (length (strip text)) (strip text))
    as (piece & Hp & Hcp); [lia | assumption | |].
  { intros ->. rewrite NL_space in Hc. discriminate. }
  pose proof (strip_keeps _ _ Hcp Hc) as Hs.
  unfold nonblank_lines, raw_lines.
  assert (Hf : piece ∈ filter (fun l => nonempty (strip l) = true)
                 (split_cuts (length (strip text)) [NL] (strip text))).
  { apply list_elem_of_filter. split; [|assumption].
    destruct (strip piece); [inversion Hs | reflexivity]. }
  destruct (filter _ _); [inversion Hf | discriminate].
Qed.

Lemma later_lines_info_no_date (rest : list str) (info : TournamentInfo) :
  first_date rest = None -> later_lines_info rest info = info.
Proof.
  induction rest as [|l rest IH]; cbn [first_date later_lines_info]; [reflexivity|].
  destruct (re_search date_pattern l); [discriminate | exact IH].
Qed.

Lemma address_in_later_lines_skip (rest : list str) (info : TournamentInfo) :
  (forall l, l ∈ rest -> contains (lit "TD:") l = true) ->
  address_in_later_lines rest info = info.
Proof.
  induction rest as [|l rest IH]; intros H; cbn [address_in_later_lines]; [reflexivity|].
  rewrite (H l) by now left. rewrite orb_true_r.
  apply IH. intros l' Hl'. apply H. now right.
Qed.

Lemma lines_info_no_address (lines : list str) :
  (forall l, l ∈ lines -> re_search date_pattern l = None) ->
  (forall l, l ∈ drop 1 lines -> contains (lit "TD:") l = true) ->
  address (lines_info lines) = None.
Proof.
  intros Hd Ht. destruct lines as [|first_line rest]; [reflexivity|].
  unfold lines_info.
  destruct (td_in_lines_fields (first_line :: rest)
              (address_fallback (first_line :: rest)
                 match re_search date_pattern first_line with
                 | Some m => first_line_info first_line m
                 | None => later_lines_info rest (set_tournament first_line empty_info)
                 end)) as (_ & _ & ->).
  rewrite (Hd first_line) by now left.
  rewrite later_lines_info_no_date.
  2:{ apply first_date_None. intros l Hl. apply Hd. now right. }
  unfold address_fallback. cbn [address set_tournament empty_info drop].
  destruct (1 <? length (first_line :: rest)); [|reflexivity].
  now rewrite address_in_later_lines_skip.
Qed.

(** C6. The heading parser never raises: it returns a record on every
    input, the empty record when the page has no heading or the heading
    has no non-blank line. When the text holds a non-blank line, the name
    is present, and it is the whole (trimmed) first line when no date is
    found in that line. The date is absent exactly when no line holds a
    date, the director exactly when no line matches the director pattern,
    and the address is absent when no line holds a date and every later
    line holds "TD:". *)
Theorem heading_parser_total (heading : option str) :
  exists info,
    extract_tournament_info heading = OK info /\
    (heading = None -> info = empty_info) /\
    forall text, heading = Some text ->
      heading_lines text = OK (nonblank_lines text) /\
      ((exists c, c ∈ text /\ isspace c = false) -> nonblank_lines text <> []) /\
      (nonblank_lines text = [] -> info = empty_info) /\
      (forall first_line rest, nonblank_lines text = first_line :: rest ->
         is_Some (tournament info) /\
         (re_search date_pattern first_line = None ->
          tournament info = Some first_line)) /\
      (date info = None <->
       forall l, l ∈ nonblank_lines text -> re_search date_pattern l = None) /\
      (TD info = None <->
       forall l, l ∈ nonblank_lines text -> re_search td_pattern l = None) /\
      ((forall l, l ∈ nonblank_lines text -> re_search date_pattern l = None) ->
       (forall l, l ∈ drop 1 (nonblank_lines text) -> contains (lit "TD:") l = true) ->
       address info = None).
Proof.
  destruct heading as [text|].
  2:{ exists empty_info. split; [reflexivity|]. split; [reflexivity|]. discriminate. }
  exists (lines_info (nonblank_lines text)).
  split; [apply extract_tournament_info_total|]. split; [discriminate|].
  intros text' [= <-]. split; [reflexivity|].
  split; [intros (c & Hin & Hc); eapply nonblank_lines_nonempty; eassumption|].
  split; [intros ->; reflexivity|].
  destruct (nonblank_lines text) as [|first_line rest] eqn:E.
  - split; [discriminate|]. cbn. split; [split; [intros _ l Hl; inversion Hl | reflexivity]|].
    split; [split; [intros _ l Hl; inversion Hl | reflexivity]|]. reflexivity.
  - destruct (lines_info_fields first_line rest) as (Hd & Ht & HT).
    split.
    { intros f r [= <- <-]. rewrite Ht.
      destruct (re_search date_pattern first_line); [split; [eauto | discriminate]|].
      split; [eauto | reflexivity]. }
    split; [rewrite Hd; apply first_date_None|].
    split; [exact HT|].
    apply lines_info_no_address.
Qed.

Lemma heading_parser_total_witness :
  exists info,
    extract_tournament_info (Some (lit "  Spring Open  ")) = OK info /\
    tournament info = Some (lit "Spring Open").
Proof.
  destruct (heading_parser_total (Some (lit "  Spring Open  ")))
    as (info & Hok & _ & H).
  exists info. split; [exact Hok|].
  destruct (H _ eq_refl) as (_ & _ & _ & Hname & _).
  destruct (Hname (lit "Spring Open") []) as [_ Hn];
    [vm_compute; reflexivity|].
  apply Hn. vm_compute. reflexivity.
Defined.

(** ** One date per starting position *)

Lemma run_unique (p : ascii -> bool) (a a' b b' : str) :
  Forall (fun c => p c = true) a -> Forall (fun c => p c = true) a' ->
  (forall c r, b = c :: r -> p c = false) ->
  (forall c r, b' = c :: r -> p c = false) ->
  b <> [] -> b' <> [] ->
  a ++ b = a' ++ b' -> a = a' /\ b = b'.
Proof.
  intros Ha. revert a'. induction Ha as [|c a Hc Ha IH]; intros a' Ha' Hb Hb' Hn Hn' E.
  - destruct Ha' as [|c' a' Hc' Ha']; [auto|].
    cbn in E. destruct b as [|c r]; [contradiction|]. injection E as -> ->.
    rewrite (Hb _ _ eq_refl) in Hc'. discriminate.
  - destruct Ha' as [|c' a' Hc' Ha'].
    + cbn in E. destruct b' as [|c0 r]; [contradiction|]. injection E as <- <-.
      rewrite (Hb' _ _ eq_refl) in Hc. discriminate.
    + cbn in E. injection E as <- E.
      destruct (IH a' Ha' Hb Hb' Hn Hn' E) as [-> ->]. auto.
Qed.

Lemma space_not_decimal c : isspace c = true -> is_decimal c = false.
Proof. by_cases_on_char c. Qed.

Lemma app_length_inj {A} (a a' b b' : list A) :
  length a = length a' -> a ++ b = a' ++ b' -> a = a' /\ b = b'.
Proof. intros Hl E. now apply app_inj_1. Qed.

Lemma date_form_unique (m m' r r' : str) :
  date_form m -> date_form m' -> m ++ r = m' ++ r' -> m = m'.
Proof.
  intros (w & s1 & d & s2 & y & -> & Hw & _ & Hs1 & Hs1' & Hd & Hd' & Hs2 & Hs2' & Hy & Hy')
         (w' & t1 & e & t2 & z & -> & Hw2 & _ & Ht1 & Ht1' & He & He' & Ht2 & Ht2' & Hz & Hz') E.
  repeat rewrite <- ?app_assoc, <- ?app_comm_cons in E.
  apply app_length_inj in E as [<- E]; [|congruence].
  assert (Hhead : forall (x : str) (rest : str),
            1 <= length x -> Forall (fun c => is_decimal c = true) x ->
            (forall c q, x ++ rest = c :: q -> isspace c = false) /\ x ++ rest <> []).
  { intros x rest Hx Hall. destruct Hall as [|c x Hc _]; [cbn in Hx; lia|].
    split; [|discriminate]. intros c0 q [= <- _].
    destruct (isspace c) eqn:Es; [|reflexivity].
    rewrite (space_not_decimal _ Es) in Hc. discriminate. }
  apply (run_unique isspace) in E as [<- E]; try assumption;
    try (apply Hhead; [lia | assumption]).
  apply (run_unique is_decimal) in E as [<- E]; try assumption;
    try (now intros c q [= <- _]); try discriminate.
  injection E as E.
  destruct (Hhead y r) as [Hy1 Hy2]; [lia | assumption|].
  destruct (Hhead z r') as [Hz1 Hz2]; [lia | assumption|].
  apply (run_unique isspace) in E as [<- E]; try assumption.
  apply app_length_inj in E as [<- _]; [reflexivity | congruence].
Qed.

(** C8, as the code has it. A line is recognized as holding a date exactly
    when it has a substring made of three word characters (letters, digits
    or underscore: not only a month name), whitespace, one or two digits, a
    comma, whitespace and four digits. The match is the leftmost such
    substring, the only one of that form starting there, and the date field
    is that text, verbatim, of the first heading line that holds one. *)
Theorem date_recognised (text : str) :
  (forall line,
     (is_Some (re_search date_pattern line) <->
      exists pre m post, line = pre ++ m ++ post /\ date_form m) /\
     forall r, re_search date_pattern line = Some r ->
       line = before r ++ group0 r ++ after r /\
       date_form (group0 r) /\
       (forall pre m post, line = pre ++ m ++ post -> date_form m ->
          length (before r) <= length pre) /\
       (forall m post, line = before r ++ m ++ post -> date_form m ->
          m = group0 r)) /\
  exists info,
    extract_tournament_info (Some text) = OK info /\
    date info = first_date (nonblank_lines text).
Proof.
  split.
  - intros line. split; [split|].
    + intros [r Hr]. pose proof (date_match_form _ _ Hr) as Hf.
      apply re_search_Some in Hr as (Hs & _ & _). eauto.
    + intros (pre & m & post & Hs & Hf).
      destruct (date_form_pattern _ Hf) as (gs & HF & <-).
      destruct (re_search date_pattern line) as [r|] eqn:E; [eauto|].
      destruct (re_search_None _ _ _ _ _ date_pattern_free E Hs HF).
    + intros r Hr. pose proof (date_match_form _ _ Hr) as Hf.
      pose proof Hr as Hr'. apply re_search_Some in Hr' as (Hs & _ & _).
      split; [assumption|]. split; [assumption|]. split.
      * intros pre m post Hs' Hm.
        destruct (date_form_pattern _ Hm) as (gs & HF & <-).
        eapply re_search_leftmost; eauto using date_pattern_free.
      * intros m post Hs' Hm. rewrite Hs in Hs' at 1.
        apply app_inv_head in Hs'. symmetry.
        eapply date_form_unique; eauto.
  - exists (lines_info (nonblank_lines text)).
    split; [apply extract_tournament_info_total|].
    destruct (nonblank_lines text) as [|first_line rest]; [reflexivity|].
    apply lines_info_fields.
Qed.

Lemma date_recognised_witness :
  exists r,
    re_search date_pattern (lit "Spring Open Jun 14, 2025 123 Main St") = Some r /\
    date_form (group0 r).
Proof.
  destruct (date_recognised []) as [H _].
  destruct (H (lit "Spring Open Jun 14, 2025 123 Main St")) as [_ Hr].
  destruct (re_search date_pattern (lit "Spring Open Jun 14, 2025 123 Main St"))
    as [r|] eqn:E.
  - exists r. split; [reflexivity|]. apply (Hr r eq_refl).
  - vm_compute in E. discriminate.
Defined.

(** C8 as stated does not hold: "123 14, 2025" holds no letter, so no
    substring begins with a month name, and the code takes it for a
    date. *)
Lemma month_name_counterexample :
  let line := lit "123 14, 2025" in
  (exists info, extract_tournament_info (Some line) = OK info /\
                date info = Some (lit "123 14, 2025")) /\
  ~ exists pre m post, line = pre ++ m ++ post /\ spec_date_form m.
Proof.
  intros line. split.
  - eexists. split; vm_compute; reflexivity.
  - intros (pre & m & post & Hs & (w & s1 & d & s2 & y & -> & Hw & Hall & _)).
    destruct w as [|c w]; [discriminate|].
    apply Forall_cons in Hall as [Hc _].
    assert (Hin : c ∈ line).
    { rewrite Hs. apply elem_of_app. right. now left. }
    vm_compute in Hin.
    repeat (apply elem_of_cons in Hin as [->|Hin]; [vm_compute in Hc; discriminate|]).
    inversion Hin.
Qed.

(** ** The date in the first line *)

Lemma strip_spec (s : str) : exists junk tail, s = junk ++ strip s ++ tail.
Proof.
  unfold strip.
  destruct (rstrip_by_spec isspace s) as (tail & Hs & _).
  destruct (lstrip_by_spec isspace (rstrip_by isspace s)) as (junk & Hs' & _).
  exists junk, tail. rewrite app_assoc, <- Hs'. exact Hs.
Qed.

Lemma no_date_before_match (line : str) (m : re_match) :
  re_search date_pattern line = Some m ->
  re_search date_pattern (strip (before m)) = None /\
  contains (group0 m) (strip (before m)) = false.
Proof.
  intros H. pose proof H as H'. apply re_search_Some in H' as (Hs & HF & _).
  destruct (strip_spec (before m)) as (junk & tail & Hb).
  assert (Hno : forall pre gs post,
            strip (before m) = pre ++ concat gs ++ post ->
            Forall2 item_ok date_pattern gs -> False).
  { intros pre gs post Hp HFg.
    assert (Hl : length (before m) <= length (junk ++ pre)).
    { eapply (re_search_leftmost date_pattern line m (junk ++ pre) gs
                (post ++ tail ++ group0 m ++ after m));
        eauto using date_pattern_free.
      rewrite Hs at 1. rewrite Hb at 1. rewrite Hp.
      now rewrite <- !app_assoc. }
    pose proof (date_form_nonempty _ (date_pattern_form _ HFg)) as Hne.
    rewrite Hb, Hp, !length_app in Hl.
    destruct (concat gs); [contradiction | cbn in Hl; lia]. }
  split.
  - destruct (re_search date_pattern (strip (before m))) as [m'|] eqn:E; [|reflexivity].
    apply re_search_Some in E as (Hs' & HF' & _).
    destruct (Hno _ _ _ Hs' HF').
  - unfold contains.
    destruct (find_sub (group0 m) (strip (before m))) as [[pre post]|] eqn:E;
      [|reflexivity].
    apply find_sub_Some in E. destruct (Hno _ _ _ E HF).
Qed.

(** What holds of the first-line rule on every input: the name is the text
    before the match, trimmed, and holds no date; the date is the matched
    text; the address is the trimmed text after the match, cut at the next
    occurrence of the same date text when there is one. *)
Lemma first_line_date (first_line : str) (rest : list str) (m : re_match) :
  re_search date_pattern first_line = Some m ->
  first_line = before m ++ group0 m ++ after m /\
  tournament (lines_info (first_line :: rest)) = Some (strip (before m)) /\
  date (lines_info (first_line :: rest)) = Some (group0 m) /\
  re_search date_pattern (strip (before m)) = None /\
  contains (group0 m) (strip (before m)) = false /\
  (nonempty (strip (up_to_next (group0 m) (after m))) = true ->
   address (lines_info (first_line :: rest)) =
   Some (strip (up_to_next (group0 m) (after m)))) /\
  (contains (group0 m) (after m) = false ->
   up_to_next (group0 m) (after m) = after m).
Proof.
  intros H. pose proof H as H'. apply re_search_Some in H' as (Hs & _ & _).
  destruct (lines_info_fields first_line rest) as (Hd & Ht & _).
  destruct (no_date_before_match _ _ H) as (Hn1 & Hn2).
  split; [assumption|]. split; [now rewrite Ht, H|].
  split; [rewrite Hd; cbn [first_date]; now rewrite H|].
  split; [assumption|]. split; [assumption|]. split.
  - intros Hne. unfold lines_info. rewrite H.
    destruct (td_in_lines_fields (first_line :: rest)
                (address_fallback (first_line :: rest) (first_line_info first_line m)))
      as (_ & _ & ->).
    destruct (first_line_info_fields first_line m) as (_ & _ & _ & Ha).
    rewrite Hne in Ha. unfold address_fallback. now rewrite Ha.
  - unfold contains, up_to_next.
    now destruct (find_sub (group0 m) (after m)) as [[? ?]|].
Qed.

(** C5, where the code departs from it. The first line holds the date text
    twice. The name and the date are as claimed, but the address is cut at
    the second occurrence of the date text ("123 Main St,"), where the
    claim gives the whole trimmed text after the match. *)
Theorem address_cut_at_repeated_date :
  let first_line := lit "Spring Open Jun 14, 2025 123 Main St, Jun 14, 2025 only" in
  (before <$> re_search date_pattern first_line) = Some (lit "Spring Open ") /\
  (group0 <$> re_search date_pattern first_line) = Some (lit "Jun 14, 2025") /\
  ((fun m => strip (after m)) <$> re_search date_pattern first_line)
    = Some (lit "123 Main St, Jun 14, 2025 only") /\
  py_split_sep (lit "Jun 14, 2025") first_line
    = OK [lit "Spring Open "; lit " 123 Main St, "; lit " only"] /\
  extract_tournament_info (Some first_line)
    = OK {| date := Some (lit "Jun 14, 2025");
            tournament := Some (lit "Spring Open");
            address := Some (lit "123 Main St,");
            TD := None |}.
Proof.
  vm_compute. repeat split.
Qed.

(** C10, where the code departs from it. The first line begins with the
    date: the name is the empty string, present, as claimed; the date text
    occurs again later in the line and the address is cut there
    ("Town Hall,"), where the claim gives the text after the date. *)
Theorem empty_name_address_cut :
  let first_line := lit "Jun 14, 2025 Town Hall, Jun 14, 2025 only" in
  (before <$> re_search date_pattern first_line) = Some [] /\
  ((fun m => strip (after m)) <$> re_search date_pattern first_line)
    = Some (lit "Town Hall, Jun 14, 2025 only") /\
  extract_tournament_info (Some first_line)
    = OK {| date := Some (lit "Jun 14, 2025");
            tournament := Some [];
            address := Some (lit "Town Hall,");
            TD := None |}.
Proof.
  vm_compute. repeat split.
Qed.

(** The name is empty, and present, whenever only whitespace precedes the
    match in the first line. *)
Lemma empty_name (first_line : str) (rest : list str) (m : re_match) :
  re_search date_pattern first_line = Some m ->
  Forall (fun c => isspace c = true) (before m) ->
  tournament (lines_info (first_line :: rest)) = Some [].
Proof.
  intros H Hsp. destruct (first_line_date first_line rest m H) as (_ & -> & _).
  f_equal. unfold strip.
  destruct (rstrip_by_spec isspace (before m)) as (tail & Hs & _).
  assert (Hall : Forall (fun c => isspace c = true) (rstrip_by isspace (before m))).
  { rewrite Hs in Hsp. now apply Forall_app in Hsp as [? _]. }
  clear -Hall. induction Hall as [|c l Hc _ IH]; cbn [lstrip_by]; [reflexivity|].
  now rewrite Hc.
Qed.

(** ** Examples *)

Example split_example :
  py_split (lit " 3  Smith, John ") = [lit "3"; lit "Smith,"; lit "John"].
Proof. vm_compute. reflexivity. Qed.

Example int_example :
  py_int (lit " -1_500 ") = Some (-1500)%Z /\ py_int (lit "1__0") = None /\
  py_int (lit "+") = None /\ py_int (lit "1500/") = None.
Proof. vm_compute. auto. Qed.

Example td_example :
  td_group1 <$> re_search td_pattern (lit "Chief TD: John Smith") = Some (lit "John").
Proof. vm_compute. reflexivity. Qed.

Example id_example :
  is_Some (re_match_at0 id_pattern (lit "ABCD1234")) /\
  re_match_at0 id_pattern (lit "ABCD12345") = None /\
  re_match_at0 id_pattern (lit "abCD1234") = None.
Proof. vm_compute. split; [eauto | auto]. Qed.

(** The date-priority example of the specification. *)
Example date_priority_example :
  extract_tournament_info (Some (lit "Spring Open Jun 14, 2025 123 Main St"))
  = OK {| date := Some (lit "Jun 14, 2025"); tournament := Some (lit "Spring Open");
          address := Some (lit "123 Main St"); TD := None |}.
Proof. vm_compute. reflexivity. Qed.

Example later_line_example :
  extract_tournament_info
    (Some (lit "  Spring Open " ++ [NL] ++ lit " Jun 14, 2025 123 Main St"
           ++ [NL] ++ lit "Chief TD: Bob Ross"))
  = OK {| date := Some (lit "Jun 14, 2025"); tournament := Some (lit "Spring Open");
          address := Some (lit "123 Main St"); TD := Some (lit "Bob") |}.
Proof. vm_compute. reflexivity. Qed.

(** The three formats of the rating/games field, in whole sections. *)
Example formats_example :
  let row (e g : option Z) :=
    OK [ {| pos := 3%Z; id := lit "ABCD1234"; last_name := lit "Smith";
            first_name := lit "John Q"; start := Some 1400%Z; end_ := e; gms := g;
            rds := [ {| round := lit "rd1"; res := lit "W2" |};
                     {| round := lit "rd2"; res := lit "D3" |};
                     {| round := lit "rd3"; res := lit "L4" |} ];
            tot := Some (lit "2.5") |} ] in
  parse_section_results demo_float
    (demo_header ++ [NL] ++ lit "3 Smith, John Q ABCD1234 1400 1500/9 W2 D3 L4 2.5")
  = row (Some 1500%Z) (Some 9%Z) /\
  parse_section_results demo_float
    (demo_header ++ [NL] ++ lit "3 Smith, John Q ABCD1234 1400 1500/ 9 W2 D3 L4 2.5")
  = row (Some 1500%Z) (Some 9%Z) /\
  parse_section_results demo_float
    (demo_header ++ [NL] ++ lit "3 Smith, John Q ABCD1234 1400 1500 9 W2 D3 L4 2.5")
  = row (Some 1500%Z) (Some 9%Z) /\
  parse_section_results demo_float
    (demo_header ++ [NL] ++ lit "3 Smith, John Q ABCD1234 1400 1500 W2 D3 L4 2.5 x")
  = row (Some 1500%Z) None.
Proof. vm_compute. repeat split. Qed.

(** * Further properties of the parsers *)

(** ** Stepping through a match *)

Lemma try_down_top {A} (f : nat -> option A) (k : nat) (x : A) :
  f k = Some x -> try_down f k = Some x.
Proof. intros H. destruct k; cbn [try_down]; now rewrite H. Qed.

Lemma match_items_rep_inv p lo hi (r : list item) (pos : nat) (s : str) (gs : list str) :
  match_items (Rep p lo hi :: r) pos s = Some gs ->
  exists g gs', gs = g :: gs' /\ s = g ++ drop (length g) s /\
    item_ok (Rep p lo hi) g /\
    match_items r (pos + length g) (drop (length g) s) = Some gs'.
Proof.
  intros H. pose proof (match_items_sound _ _ _ _ H) as [HF _].
  cbn [match_items] in H. apply try_down_Some in H as (j & Hj & Hf).
  apply cap_le in Hj as [Hj _].
  destruct (lo <=? j); [|discriminate].
  destruct (match_items r (pos + j) (drop j s)) as [gs'|] eqn:E; [|discriminate].
  injection Hf as <-.
  pose proof (span_len_le p s) as Hlen.
  assert (Hl : length (take j s) = j) by (rewrite length_take; lia).
  exists (take j s), gs'. split; [reflexivity|].
  split; [rewrite Hl; now rewrite take_drop|].
  split; [now apply Forall2_cons_1 in HF as [Hok _]|].
  rewrite Hl. assumption.
Qed.

Lemma span_len_next (p : ascii -> bool) (s : str) c (r : str) :
  drop (span_len p s) s = c :: r -> p c = false.
Proof.
  induction s as [|d s IH]; cbn [span_len]; [discriminate|].
  destruct (p d) eqn:E; cbn [drop]; [exact IH|]. now intros [= <- _].
Qed.

(** An unbounded repetition that ends the pattern takes the whole run. *)
Lemma match_last_greedy p lo (pos : nat) (s : str) (gs : list str) :
  match_items [Rep p lo None] pos s = Some gs ->
  gs = [take (span_len p s) s].
Proof.
  cbn [match_items cap]. intros H.
  destruct (Nat.leb_spec lo (span_len p s)) as [Hlo|Hlo].
  - rewrite (try_down_top _ _ [take (span_len p s) s]) in H; [now injection H|].
    destruct (Nat.leb_spec lo (span_len p s)); [reflexivity | lia].
  - apply try_down_Some in H as (j & Hj & Hf).
    destruct (Nat.leb_spec lo j); [lia | discriminate].
Qed.

(** ** The director *)

Lemma char_only (a : ascii) (g : str) :
  1 <= length g -> length g <= 1 -> Forall (fun c => is_char a c = true) g ->
  g = [a].
Proof.
  intros H1 H2 Hall. destruct g as [|c [|d r]]; cbn in H1, H2; try lia.
  apply Forall_cons in Hall as [Hc _]. apply Ascii.eqb_eq in Hc. now subst c.
Qed.

Lemma char_optional (a : ascii) (g : str) :
  length g <= 1 -> Forall (fun c => is_char a c = true) g -> g = [] \/ g = [a].
Proof.
  intros H2 Hall. destruct g as [|c [|d r]]; cbn in H2; try lia; [now left|].
  apply Forall_cons in Hall as [Hc _]. apply Ascii.eqb_eq in Hc. subst c. now right.
Qed.

(** The shape of a match of the director pattern: "TD", an optional colon,
    whitespace, and the whole run of letters that follows. *)
Lemma td_match_shape (pos : nat) (s : str) (gs : list str) :
  match_items td_pattern pos s = Some gs ->
  exists colon ws v post,
    gs = [["T"%char]; ["D"%char]; colon; ws; v] /\
    s = lit "TD" ++ colon ++ ws ++ v ++ post /\
    (colon = [] \/ colon = lit ":") /\
    ws <> [] /\ Forall (fun c => isspace c = true) ws /\
    v <> [] /\ Forall (fun c => is_letter c = true) v /\
    (forall c r, post = c :: r -> is_letter c = false).
Proof.
  unfold td_pattern, one. intros H.
  apply match_items_rep_inv in H as (gT & gs1 & -> & HsT & (HT1 & HT2 & HT3) & H).
  apply match_items_rep_inv in H as (gD & gs2 & -> & HsD & (HD1 & HD2 & HD3) & H).
  apply match_items_rep_inv in H as (gc & gs3 & -> & Hsc & (_ & Hc2 & Hc3) & H).
  apply match_items_rep_inv in H as (gw & gs4 & -> & Hsw & (Hw1 & _ & Hw3) & H).
  pose proof (match_last_greedy _ _ _ _ _ H) as Hlast.
  apply match_items_rep_inv in H as (gv & gs5 & -> & Hsv & (Hv1 & _ & Hv3) & H).
  injection H as <-. injection Hlast as Hlast.
  cbn [within] in *.
  rewrite (char_only _ _ HT1 HT2 HT3) in *.
  rewrite (char_only _ _ HD1 HD2 HD3) in *.
  set (s1 := drop (length ["T"%char]) s) in *.
  set (s2 := drop (length ["D"%char]) s1) in *.
  set (s3 := drop (length gc) s2) in *.
  set (s4 := drop (length gw) s3) in *.
  exists gc, gw, gv, (drop (length gv) s4).
  split; [reflexivity|]. split.
  { rewrite HsT, HsD, Hsc, Hsw, Hsv at 1. reflexivity. }
  split; [now apply char_optional|].
  split; [destruct gw; [cbn in Hw1; lia | discriminate]|].
  split; [assumption|].
  split; [destruct gv; [cbn in Hv1; lia | discriminate]|].
  split; [assumption|].
  intros c r Hpost. apply (span_len_next is_letter s4 c r).
  rewrite <- Hpost. f_equal. rewrite Hlast, length_take.
  pose proof (span_len_le is_letter s4). lia.
Qed.

Lemma td_in_lines_Some (lines : list str) (info : TournamentInfo) (v : str) :
  TD info = None -> TD (td_in_lines lines info) = Some v ->
  exists earlier line later m,
    lines = earlier ++ line :: later /\
    (forall l, l ∈ earlier -> re_search td_pattern l = None) /\
    re_search td_pattern line = Some m /\ v = td_group1 m.
Proof.
  intros Hi. induction lines as [|l lines IH]; cbn [td_in_lines]; intros H.
  - congruence.
  - destruct (re_search td_pattern l) as [m|] eqn:E.
    + cbn in H. injection H as <-. exists [], l, lines, m.
      repeat split; auto. intros x Hx. inversion Hx.
    + destruct (IH H) as (earlier & line & later & m & -> & Hno & Hm & Hv).
      exists (l :: earlier), line, later, m. repeat split; auto.
      intros x Hx. apply elem_of_cons in Hx as [->|Hx]; auto.
Qed.

Lemma lines_info_TD (lines : list str) (v : str) :
  TD (lines_info lines) = Some v ->
  exists earlier line later m,
    lines = earlier ++ line :: later /\
    (forall l, l ∈ earlier -> re_search td_pattern l = None) /\
    re_search td_pattern line = Some m /\ v = td_group1 m.
Proof.
  destruct lines as [|first_line rest]; [discriminate|].
  unfold lines_info. apply td_in_lines_Some.
  destruct (address_fallback_fields (first_line :: rest)
              match re_search date_pattern first_line with
              | Some m => first_line_info first_line m
              | None => later_lines_info rest (set_tournament first_line empty_info)
              end) as (_ & _ & ->).
  destruct (re_search date_pattern first_line) as [m|].
  - now destruct (first_line_info_fields first_line m) as (_ & _ & ? & _).
  - now destruct (later_lines_info_fields rest (set_tournament first_line empty_info))
      as (_ & _ & ->).
Qed.

Lemma td_marker_items (s : str) :
  td_marker s ->
  exists gs post, s = concat gs ++ post /\ Forall2 item_ok td_pattern gs.
Proof.
  intros (colon & ws & v & post & -> & Hc & Hws & Hws' & Hv & Hv').
  exists [["T"%char]; ["D"%char]; colon; ws; v], post. split.
  - cbn [concat]. rewrite app_nil_r, <- !app_assoc. reflexivity.
  - unfold td_pattern, one.
    repeat (apply List.Forall2_cons; [cbn [item_ok within length]|]).
    + repeat split; [lia.. | repeat constructor].
    + repeat split; [lia.. | repeat constructor].
    + split; [lia|]. destruct Hc as [-> | ->]; cbn; split; try lia;
        repeat constructor.
    + split; [destruct ws; [contradiction | cbn; lia]|]. split; [exact I | assumption].
    + split; [destruct v; [contradiction | cbn; lia]|]. split; [exact I | assumption].
    + constructor.
Qed.

(** X1. The director, when present, is one word: a non-empty run of ASCII
    letters, the whole run that follows "TD", an optional colon and
    whitespace at the leftmost such place of the first heading line that
    has one: no earlier line holds a director marker at any place, and the
    line holds none that starts before this one. Whatever follows the run
    (a second name, a hyphen, an apostrophe, an accented letter) is left
    out. *)
Theorem td_single_word (text : str) (info : TournamentInfo) (v : str) :
  extract_tournament_info (Some text) = OK info -> TD info = Some v ->
  v <> [] /\ Forall (fun c => is_letter c = true) v /\
  exists earlier line later pre colon ws post,
    nonblank_lines text = earlier ++ line :: later /\
    (forall l, l ∈ earlier -> re_search td_pattern l = None) /\
    (forall l p rest, l ∈ earlier -> l = p ++ rest -> ~ td_marker rest) /\
    line = pre ++ lit "TD" ++ colon ++ ws ++ v ++ post /\
    (forall p rest, line = p ++ rest -> length p < length pre ->
       ~ td_marker rest) /\
    (colon = [] \/ colon = lit ":") /\
    ws <> [] /\ Forall (fun c => isspace c = true) ws /\
    (forall c r, post = c :: r -> is_letter c = false).
Proof.
  rewrite extract_tournament_info_total. intros [= <-] HTD.
  destruct (lines_info_TD _ _ HTD) as (earlier & line & later & m & Hl & Hno & Hm & ->).
  pose proof Hm as Hsearch.
  apply search_from_Some in Hm as (Hs & _ & Hmatch & _).
  destruct (td_match_shape _ _ _ Hmatch)
    as (colon & ws & v & post & Hgs & Hshape & Hc & Hws & Hws' & Hv & Hv' & Hpost).
  unfold td_group1. rewrite Hgs. cbn [lookup list_lookup default].
  split; [assumption|]. split; [assumption|].
  exists earlier, line, later, (before m), colon, ws, post.
  split; [assumption|]. split; [assumption|]. split.
  { intros l p rest Hin -> Hmark.
    destruct (td_marker_items rest Hmark) as (gs & post' & -> & Hok).
    exact (re_search_None td_pattern _ p gs post' td_pattern_free (Hno _ Hin)
             eq_refl Hok). }
  split; [rewrite Hs at 1; now rewrite Hshape|]. split.
  { intros p rest -> Hlt Hmark.
    destruct (td_marker_items rest Hmark) as (gs & post' & -> & Hok).
    pose proof (re_search_leftmost td_pattern _ m p gs post' td_pattern_free
                  Hsearch eq_refl Hok). lia. }
  repeat split; assumption.
Qed.

Lemma td_single_word_witness :
  let text := lit "Open" ++ [NL] ++ lit "Chief TD: Mary-Ann O'Neil" in
  exists info,
    extract_tournament_info (Some text) = OK info /\
    TD info = Some (lit "Mary") /\ lit "Mary" <> [].
Proof.
  intros text.
  destruct (extract_tournament_info (Some text)) as [info|e] eqn:E.
  - assert (HTD : TD info = Some (lit "Mary")).
    { vm_compute in E. injection E as <-. reflexivity. }
    destruct (td_single_word text info (lit "Mary") E HTD) as (Hne & _).
    exists info. auto.
  - vm_compute in E. discriminate.
Defined.

(** ** The address *)

Lemma lstrip_by_head (p : ascii -> bool) (t : str) :
  (forall c r, t = c :: r -> p c = false) -> lstrip_by p t = t.
Proof.
  intros H. destruct t as [|c r]; [reflexivity|].
  cbn [lstrip_by]. now rewrite (H c r eq_refl).
Qed.

Lemma rstrip_by_last (p : ascii -> bool) (t : str) :
  (forall r c, t = r ++ [c] -> p c = false) -> rstrip_by p t = t.
Proof.
  intros H. unfold rstrip_by. rewrite lstrip_by_head; [apply rev_involutive|].
  intros c r Hr. apply (H (rev r) c).
  rewrite <- (rev_involutive t), Hr. reflexivity.
Qed.

Lemma strip_idem (s : str) : strip (strip s) = strip s.
Proof.
  unfold strip.
  destruct (rstrip_by_spec isspace s) as (tail & _ & _ & Hlast).
  destruct (lstrip_by_spec isspace (rstrip_by isspace s)) as (junk & Hj & _ & Hhead).
  set (R := rstrip_by isspace s) in *. set (L := lstrip_by isspace R) in *.
  rewrite (rstrip_by_last isspace L).
  - now apply lstrip_by_head.
  - intros r c Hr. apply (Hlast (junk ++ r) c). rewrite Hj, Hr. now rewrite app_assoc.
Qed.

Lemma nonblank_lines_stripped (text l : str) :
  l ∈ nonblank_lines text -> strip l = l.
Proof.
  unfold nonblank_lines. intros H. apply list_elem_of_fmap in H as (x & -> & _).
  apply strip_idem.
Qed.

Lemma later_lines_info_address (rest : list str) (info : TournamentInfo) :
  address (later_lines_info rest info) =
  match date_line_address rest with Some a => Some a | None => address info end.
Proof.
  induction rest as [|l rest IH]; cbn [later_lines_info date_line_address]; [reflexivity|].
  destruct (re_search date_pattern l) as [m|]; [|exact IH].
  unfold date_found. now destruct (nonempty _).
Qed.

Lemma address_in_later_lines_address (rest : list str) (info : TournamentInfo) :
  address (address_in_later_lines rest info) =
  match head (filter (fun l => fallback_line (date info) l = true) rest) with
  | Some l => Some (strip l)
  | None => address info
  end.
Proof.
  induction rest as [|l rest IH]; cbn [address_in_later_lines]; [reflexivity|].
  unfold fallback_line at 1.
  destruct (_ || _) eqn:E.
  - rewrite filter_cons_False; [exact IH|].
    unfold fallback_line. rewrite E. discriminate.
  - rewrite filter_cons_True; [reflexivity|].
    unfold fallback_line. now rewrite E.
Qed.

(** X2. How the address is resolved, on every heading: it is the trimmed
    text following the date on the first line that holds a date (cut at a
    repetition of the date text), when that text is not empty; otherwise it
    is, verbatim, the first line after the first that holds neither the
    date text nor "TD:"; otherwise it is absent. A fallback address
    therefore never holds the date or a director marker. *)
Theorem address_resolution (text : str) (info : TournamentInfo) :
  extract_tournament_info (Some text) = OK info ->
  address info =
    match date_line_address (nonblank_lines text) with
    | Some a => Some a
    | None =>
        head (filter (fun l => fallback_line (date info) l = true)
                (drop 1 (nonblank_lines text)))
    end /\
  forall a, date_line_address (nonblank_lines text) = None ->
    address info = Some a ->
    a ∈ drop 1 (nonblank_lines text) /\
    contains (lit "TD:") a = false /\
    forall d, date info = Some d -> contains d a = false.
Proof.
  rewrite extract_tournament_info_total. intros [= <-].
  assert (Hmain : address (lines_info (nonblank_lines text)) =
    match date_line_address (nonblank_lines text) with
    | Some a => Some a
    | None =>
        head (filter (fun l => fallback_line
                                 (date (lines_info (nonblank_lines text))) l = true)
                (drop 1 (nonblank_lines text)))
    end).
  { pose proof (nonblank_lines_stripped text) as Hstr.
    destruct (nonblank_lines text) as [|first_line rest]; [reflexivity|].
    destruct (lines_info_fields first_line rest) as (Hd & _ & _). rewrite Hd.
    unfold lines_info.
    set (base := match re_search date_pattern first_line with
                 | Some m => first_line_info first_line m
                 | None => later_lines_info rest (set_tournament first_line empty_info)
                 end).
    destruct (td_in_lines_fields (first_line :: rest)
                (address_fallback (first_line :: rest) base)) as (_ & _ & ->).
    assert (Hb : address base = date_line_address (first_line :: rest) /\
                 date base = first_date (first_line :: rest)).
    { subst base. cbn [date_line_address first_date].
      destruct (re_search date_pattern first_line) as [m|].
      - destruct (first_line_info_fields first_line m) as (-> & _ & _ & ->). auto.
      - rewrite later_lines_info_address.
        destruct (later_lines_info_fields rest (set_tournament first_line empty_info))
          as (-> & _ & _).
        cbn. split; [now destruct (date_line_address rest)
                    | now destruct (first_date rest)]. }
    destruct Hb as [Hba Hbd].
    unfold address_fallback. rewrite Hba.
    destruct (date_line_address (first_line :: rest)) as [a|] eqn:Ea; [assumption|].
    cbn [drop]. rewrite !drop_0.
    destruct (Nat.ltb_spec 1 (length (first_line :: rest))) as [Hl|Hl].
    - rewrite address_in_later_lines_address, Hba, Hbd.
      destruct (filter _ rest) as [|l ls] eqn:Ef; [reflexivity|].
      cbn [head]. f_equal. apply Hstr. right.
      assert (Hin : l ∈ filter (fun l => fallback_line
                                  (first_date (first_line :: rest)) l = true) rest)
        by (rewrite Ef; now left).
      now apply list_elem_of_filter in Hin as [_ ?].
    - destruct rest; [now rewrite Hba | cbn in Hl; lia]. }
  split; [exact Hmain|].
  intros a Hnone Ha. rewrite Hmain, Hnone in Ha.
  destruct (filter _ _) as [|l ls] eqn:Ef; [discriminate|].
  cbn in Ha. injection Ha as ->.
  assert (Hin : a ∈ filter (fun l => fallback_line
                              (date (lines_info (nonblank_lines text))) l = true)
                  (drop 1 (nonblank_lines text))) by (rewrite Ef; now left).
  apply list_elem_of_filter in Hin as [Hf Hin]. split; [assumption|].
  unfold fallback_line in Hf. apply negb_true_iff, orb_false_iff in Hf as [Hf1 Hf2].
  split; [assumption|]. intros d Hd. now rewrite Hd in Hf1.
Qed.

Lemma address_resolution_witness :
  let text := lit "Spring Open" ++ [NL] ++ lit "TD: Bob" ++ [NL]
              ++ lit "Jun 14, 2025" ++ [NL] ++ lit "123 Main St" in
  exists info,
    extract_tournament_info (Some text) = OK info /\
    address info = Some (lit "123 Main St").
Proof.
  intros text.
  destruct (extract_tournament_info (Some text)) as [info|e] eqn:E.
  - destruct (address_resolution text info E) as [H _].
    exists info. split; [reflexivity|]. rewrite H.
    vm_compute in E. injection E as <-. vm_compute. reflexivity.
  - vm_compute in E. discriminate.
Defined.

(** ** When the table parser raises *)

Lemma split_ws_chars (s cur t : str) (c : ascii) :
  t ∈ split_ws s cur -> c ∈ t -> c ∈ s \/ c ∈ cur.
Proof.
  revert cur. induction s as [|d s IH]; intros cur Ht Hc; cbn [split_ws] in Ht.
  - destruct cur as [|x cur]; cbn [nonempty] in Ht; [inversion Ht|].
    apply list_elem_of_singleton in Ht. subst t. right.
    apply list_elem_of_In, in_rev, list_elem_of_In in Hc. assumption.
  - destruct (isspace d).
    + destruct cur as [|x cur]; cbn [nonempty] in Ht.
      * destruct (IH [] Ht Hc) as [H|H]; [left; now right | inversion H].
      * apply elem_of_cons in Ht as [->|Ht].
        -- right. apply list_elem_of_In, in_rev, list_elem_of_In in Hc. assumption.
        -- destruct (IH [] Ht Hc) as [H|H]; [left; now right | inversion H].
    + destruct (IH (d :: cur) Ht Hc) as [H|H]; [left; now right|].
      apply elem_of_cons in H as [->|H]; [left; now left | now right].
Qed.

Lemma py_split_nonblank (line : str) :
  py_split line <> [] -> nonempty (strip line) = true.
Proof.
  intros H. destruct (py_split line) as [|t ts] eqn:E; [contradiction|].
  pose proof (py_split_tokens line) as Htok. rewrite E in Htok.
  apply Forall_cons in Htok as [[Hne Hsp] _].
  destruct t as [|c t]; [contradiction|].
  apply Forall_cons in Hsp as [Hc _].
  assert (Hin : c ∈ line).
  { destruct (split_ws_chars line [] (c :: t) c) as [?|H0]; [| |assumption|inversion H0].
    - unfold py_split in E. rewrite E. now left.
    - now left. }
  pose proof (strip_keeps _ _ Hin Hc) as Hs.
  destruct (strip line); [inversion Hs | reflexivity].
Qed.

Lemma end_games_raise_inv (parts : list str) (idx : nat) (e : exn) :
  end_games parts idx = Raise e ->
  e = ValueError /\ exists u, parts !! idx = Some u /\ 2 <= slashes u.
Proof.
  intros H. destruct (parts !! idx) as [u|] eqn:Hu.
  2:{ unfold end_games in H. rewrite Hu in H. discriminate. }
  split.
  - unfold end_games in H. rewrite Hu in H.
    destruct (end_games_branch u).
    + change (lit "/") with ["/"%char] in H. unfold py_split_sep in H. cbn [bind] in H.
      destruct (split_cuts (length u) ["/"%char] u) as [|x [|y [|z r]]];
        try (now injection H).
      destruct (py_int (strip x)); [destruct (py_int (strip y))|]; discriminate.
    + destruct (py_int _); [|discriminate].
      destruct (parts !! (idx + 1)); [destruct (py_int _)|]; discriminate.
    + destruct (py_int _); discriminate.
  - exists u. split; [reflexivity|].
    destruct (Nat.le_gt_cases 2 (slashes u)) as [|Hlt]; [assumption|].
    destruct (end_games_ok parts idx) as [x Hx].
    + intros t Ht. rewrite Hu in Ht. injection Ht as <-. lia.
    + rewrite Hx in H. discriminate.
Qed.

Section Raising.

Context {F : Type} (py_float : str -> option F).

Lemma parse_line_raise_iff (rc : list (nat * str)) (line : str) (e : exn) :
  parse_line py_float rc line = Raise e <-> e = ValueError /\ raising_line line.
Proof.
  split.
  - unfold parse_line. destruct (nonempty (strip line)); [|discriminate].
    unfold parse_player, py_index.
    destruct (Nat.ltb_spec (length (py_split line)) 10) as [|Hlen]; [discriminate|].
    destruct (lookup_lt_is_Some_2 (py_split line) 0) as [first H0]; [lia|].
    destruct (lookup_lt_is_Some_2 (py_split line) 1) as [second H1]; [lia|].
    rewrite H0, H1. cbn [bind].
    destruct (py_int first) as [position|] eqn:Hpos; [|discriminate].
    destruct (find_id (py_split line)) as [[i t]|] eqn:Hid; [|discriminate].
    destruct (Nat.ltb_spec i 2) as [|Hi]; [discriminate|].
    destruct (ratings (py_split line) i) as [r|e'] eqn:Hr; cbn [bind]; [discriminate|].
    intros [= <-]. unfold ratings in Hr.
    destruct (start_rating (py_split line) (i + 1)) as [s0 k] eqn:Hs.
    destruct (end_games (py_split line) k) as [[[a b] c]|e''] eqn:He; cbn [bind] in Hr.
    { destruct (games_fallback (py_split line) a b c). discriminate. }
    injection Hr as <-.
    destruct (end_games_raise_inv _ _ _ He) as (-> & u & Hu & Hsl).
    split; [reflexivity|].
    exists first, position, i, t, s0, k, u. repeat split; assumption.
  - intros (-> & first & position & i & t & s0 & k & u &
            Hlen & H0 & Hpos & Hid & Hi & Hs & Hu & Hsl).
    unfold parse_line. rewrite py_split_nonblank.
    2:{ intros E. rewrite E in Hlen. cbn in Hlen. lia. }
    destruct (parse_player_unfold py_float rc (py_split line) first position i t
                Hlen H0 Hpos Hid Hi) as (second & _ & ->).
    rewrite (ratings_unfold _ _ _ _ Hs).
    rewrite (end_games_raises _ _ u Hu); [reflexivity | | assumption].
    pose proof (py_split_tokens line) as Htok. rewrite Forall_forall in Htok.
    apply Htok. apply list_elem_of_lookup. eauto.
Qed.

Lemma parse_lines_raise_inv (rc : list (nat * str)) (lines : list str)
    (acc : list (Player F)) (e : exn) :
  parse_lines py_float rc lines acc = Raise e ->
  exists line, line ∈ lines /\ parse_line py_float rc line = Raise e.
Proof.
  revert acc. induction lines as [|l lines IH]; intros acc H; [discriminate|].
  cbn [parse_lines] in H.
  destruct (parse_line py_float rc l) as [[pl|]|e0] eqn:E; cbn [bind] in H.
  - destruct (IH _ H) as (line & Hin & Hr). exists line. split; [now right | assumption].
  - destruct (IH _ H) as (line & Hin & Hr). exists line. split; [now right | assumption].
  - injection H as <-. exists l. split; [now left | assumption].
Qed.

Lemma parse_section_results_unfold (pre_text : str) :
  parse_section_results py_float pre_text =
  parse_lines py_float (round_columns (py_split (header_line pre_text)))
    (data_lines pre_text) [].
Proof.
  unfold parse_section_results, header_line, data_lines, raw_lines, py_split_sep.
  cbn [bind].
  destruct (split_cuts_cons (length (strip pre_text)) [NL] (strip pre_text))
    as (h & t & ->).
  reflexivity.
Qed.

End Raising.

(** X3. The table parser raises nothing but [ValueError], and it raises
    exactly when some data line passes the three checks (ten tokens, an
    integer position, the ID at index 2 or later) and has two or more "/"
    in the token under the cursor after the start rating. On every other
    block it returns the rows of its lines, in line order. *)
Theorem table_parser_raises_iff {F : Type} (py_float : str -> option F)
    (pre_text : str) :
  (forall e, parse_section_results py_float pre_text = Raise e <->
     e = ValueError /\
     exists line, line ∈ data_lines pre_text /\ raising_line line) /\
  ((forall line, line ∈ data_lines pre_text -> ~ raising_line line) ->
   parse_section_results py_float pre_text =
   OK (omap (line_row py_float (round_columns (py_split (header_line pre_text))))
         (data_lines pre_text))).
Proof.
  rewrite parse_section_results_unfold.
  set (rc := round_columns (py_split (header_line pre_text))).
  split.
  - intros e. split.
    + intros H. apply parse_lines_raise_inv in H as (line & Hin & Hr).
      apply parse_line_raise_iff in Hr as [-> Hr]. eauto.
    + intros (-> & line & Hin & Hr).
      destruct (parse_lines_raise py_float rc (data_lines pre_text) [] line ValueError Hin)
        as [e' He'].
      { apply parse_line_raise_iff. auto. }
      rewrite He'. f_equal.
      apply parse_lines_raise_inv in He' as (l' & _ & Hr').
      now apply parse_line_raise_iff in Hr' as [-> _].
  - intros Hno. apply (parse_lines_ok py_float rc (data_lines pre_text) []).
    intros line Hin. destruct (parse_line py_float rc line) as [row|e] eqn:E; [eauto|].
    apply parse_line_raise_iff in E as [_ Hr]. destruct (Hno line Hin Hr).
Qed.

Lemma table_parser_raises_iff_witness :
  let text := demo_header ++ [NL] ++ lit "short line" in
  parse_section_results demo_float text = OK [].
Proof.
  intros text.
  destruct (table_parser_raises_iff demo_float text) as [_ H].
  rewrite H; [vm_compute; reflexivity|].
  intros line Hin (first & position & i & t & s0 & k & u & Hlen & _).
  vm_compute in Hin.
  apply elem_of_cons in Hin as [->|Hin]; [vm_compute in Hlen; lia | inversion Hin].
Defined.

(** ** The cursor *)

Lemma start_rating_bounds (parts : list str) (idx k : nat) (s : option Z) :
  start_rating parts idx = (s, k) ->
  (s = None -> k = idx) /\ (s <> None -> k = idx + 1 /\ idx < length parts) /\
  idx <= k <= idx + 1.
Proof.
  unfold start_rating. destruct (parts !! idx) as [t|] eqn:E.
  - apply lookup_lt_Some in E. destruct (py_int t); intros [= <- <-];
      repeat split; try congruence; lia.
  - intros [= <- <-]. repeat split; try congruence; lia.
Qed.

Lemma end_games_bounds (parts : list str) (k k' : nat) (e g : option Z) :
  end_games parts k = OK (e, g, k') ->
  k <= k' <= k + 2 /\ k' <= Nat.max k (length parts) /\
  (k < length parts -> k + 1 <= k') /\
  (g <> None -> e <> None) /\
  (e = None -> k' <= k + 1) /\
  (k' = k + 2 -> g <> None).
Proof.
  unfold end_games. destruct (parts !! k) as [t|] eqn:E.
  2:{ apply lookup_ge_None_1 in E. intros [= <- <- <-].
      repeat split; try congruence; lia. }
  apply lookup_lt_Some in E. destruct (end_games_branch t).
  - destruct (py_split_sep (lit "/") t) as [cut|]; cbn [bind]; [|discriminate].
    destruct cut as [|x [|y [|z r]]]; try discriminate.
    destruct (py_int (strip x)); [destruct (py_int (strip y))|];
      intros [= <- <- <-]; repeat split; try congruence; lia.
  - destruct (py_int _).
    + destruct (parts !! (k + 1)) as [u|] eqn:E'.
      * apply lookup_lt_Some in E'. destruct (py_int _);
          intros [= <- <- <-]; repeat split; try congruence; lia.
      * intros [= <- <- <-]; repeat split; try congruence; lia.
    + intros [= <- <- <-]; repeat split; try congruence; lia.
  - destruct (py_int _); intros [= <- <- <-]; repeat split; try congruence; lia.
Qed.

Lemma games_fallback_bounds (parts : list str) (e g g' : option Z) (k k' : nat) :
  games_fallback parts e g k = (g', k') ->
  k <= k' <= k + 1 /\ k' <= Nat.max k (length parts) /\
  (g' <> None -> e <> None \/ g <> None) /\
  (k' = k + 1 -> g = None /\ e <> None) /\
  (g <> None -> g' = g /\ k' = k) /\
  (e = None -> g' = g /\ k' = k).
Proof.
  unfold games_fallback. destruct e as [ev|], g as [gv|];
    try (intros [= <- <-]; repeat split; try congruence; auto; lia).
  destruct (parts !! k) as [t|] eqn:E.
  - apply lookup_lt_Some in E.
    destruct (isdigit t); [destruct (py_int t)|];
      intros [= <- <-]; repeat split; try congruence; auto; lia.
  - intros [= <- <-]; repeat split; try congruence; auto; lia.
Qed.

(** X4. The cursor after the rating columns. Reading the start rating, the
    end-rating/games field and the fallback games value moves the cursor
    forward from the token after the ID by at most three tokens and never
    past the end of the row; when a token follows the ID at least one token
    is consumed; games are set only together with an end rating; and when
    neither rating could be read the cursor has moved by at most one token,
    so that one garbled cell shifts the round columns by one slot at
    most. *)
Theorem cursor_bounds (parts : list str) (name_end : nat) (r : Ratings) :
  ratings parts name_end = OK r ->
  name_end + 1 <= r_idx r <= name_end + 4 /\
  r_idx r <= Nat.max (name_end + 1) (length parts) /\
  (name_end + 1 < length parts -> name_end + 2 <= r_idx r) /\
  (r_gms r <> None -> r_end r <> None) /\
  (r_start r = None -> r_end r = None ->
   r_gms r = None /\ r_idx r <= name_end + 2).
Proof.
  unfold ratings.
  destruct (start_rating parts (name_end + 1)) as [s k] eqn:Hs.
  destruct (end_games parts k) as [[[e g] k']|] eqn:He; cbn [bind]; [|discriminate].
  destruct (games_fallback parts e g k') as [g' k''] eqn:Hg.
  intros [= <-]. cbn [r_idx r_start r_end r_gms].
  destruct (start_rating_bounds _ _ _ _ Hs) as (Hs1 & Hs2 & Hs3).
  destruct (end_games_bounds _ _ _ _ _ He) as (He1 & He2 & He3 & He4 & He5 & He6).
  destruct (games_fallback_bounds _ _ _ _ _ _ Hg) as (Hg1 & Hg2 & Hg3 & Hg4 & Hg5 & Hg6).
  assert (Hk0 : k <= Nat.max (name_end + 1) (length parts)).
  { destruct s as [sv|]; [destruct Hs2 as [-> ?]; [discriminate | lia]|].
    rewrite (Hs1 eq_refl). lia. }
  split; [|split; [|split; [|split]]].
  - split; [lia|].
    destruct (decide (k' = k + 2)) as [Hk|Hk]; [|lia].
    destruct (Hg5 (He6 Hk)) as [_ ->]. lia.
  - lia.
  - intros Hlen. destruct s as [sv|].
    + destruct Hs2 as [-> _]; [discriminate|]. lia.
    + rewrite (Hs1 eq_refl) in *. specialize (He3 ltac:(lia)). lia.
  - intros Hg'. destruct (Hg3 Hg') as [|Hgn]; [assumption | auto].
  - intros -> ->. rewrite (Hs1 eq_refl) in *.
    destruct (Hg6 eq_refl) as [-> ->]. specialize (He5 eq_refl).
    split; [|lia]. destruct g; [|reflexivity]. exfalso. now apply He4.
Qed.

Lemma cursor_bounds_witness :
  let parts := py_split (lit "3 Smith, John ABCD1234 1500 16x0 W2 D3 L4 2.5") in
  exists r, ratings parts 3 = OK r /\ 4 <= r_idx r <= 7.
Proof.
  intros parts. destruct (ratings parts 3) as [r|e] eqn:E.
  - exists r. split; [reflexivity|].
    destruct (cursor_bounds parts 3 r E) as (H & _). cbn in H. lia.
  - vm_compute in E. discriminate.
Defined.

(** ** What every row satisfies *)

Lemma round_columns_from_Forall (i : nat) (header_parts : list str) :
  Forall (fun x => is_round_column (snd x) = true) (round_columns_from i header_parts).
Proof.
  revert i. induction header_parts as [|t l IH]; intros i; cbn [round_columns_from].
  - constructor.
  - destruct (is_round_column t) eqn:E; [constructor; [exact E | apply IH] | apply IH].
Qed.

Lemma round_results_Forall (P Q : str -> Prop) (rc : list (nat * str))
    (parts : list str) (idx : nat) :
  Forall (fun x => P (snd x)) rc -> Forall Q parts ->
  Forall (fun rr => P (round rr) /\ Q (res rr)) (round_results rc parts idx).
Proof.
  intros Hrc Hparts. revert idx.
  induction Hrc as [|[n l] rc Hl _ IH]; intros idx; cbn [round_results]; [constructor|].
  destruct (parts !! idx) as [t|] eqn:E; [|apply IH].
  constructor; [|apply IH]. cbn. split; [exact Hl|].
  rewrite Forall_forall in Hparts. apply Hparts. apply list_elem_of_lookup. eauto.
Qed.

Lemma ratings_gms_end (parts : list str) (name_end : nat) (r : Ratings) :
  ratings parts name_end = OK r -> r_gms r <> None -> r_end r <> None.
Proof.
  unfold ratings.
  destruct (start_rating parts (name_end + 1)) as [s k].
  destruct (end_games parts k) as [[[e g] k']|] eqn:He; cbn [bind]; [|discriminate].
  destruct (games_fallback parts e g k') as [g' k''] eqn:Hg.
  intros [= <-]. cbn [r_end r_gms].
  destruct (end_games_bounds _ _ _ _ _ He) as (_ & _ & _ & He4 & _).
  destruct (games_fallback_bounds _ _ _ _ _ _ Hg) as (_ & _ & Hg3 & _).
  intros Hg'. destruct (Hg3 Hg'); auto.
Qed.

Lemma parse_lines_length {F : Type} (py_float : str -> option F)
    (rc : list (nat * str)) (lines : list str) (acc rows : list (Player F)) :
  parse_lines py_float rc lines acc = OK rows ->
  length rows <= length acc + length lines.
Proof.
  revert acc. induction lines as [|l lines IH]; intros acc; cbn [parse_lines].
  - intros [= <-]. cbn. lia.
  - destruct (parse_line py_float rc l) as [[pl|]|]; cbn [bind]; [| |discriminate];
      intros H; apply IH in H; rewrite ?length_app in H; cbn [length] in *; lia.
Qed.

(** X5. What holds of every row the table parser returns: there are no
    more rows than data lines; the row's ID is exactly 8 characters, each an
    uppercase letter or digit; its position is the integer read from the
    first token of one of the data lines; it has at most as many rounds as
    the header has round columns, each labelled by a header token "rd" +
    digits and holding a non-empty code without whitespace; games played
    are present only together with an end rating; and the last name does
    not end with a comma. *)
Theorem row_invariants {F : Type} (py_float : str -> option F)
    (pre_text : str) (rows : list (Player F)) :
  parse_section_results py_float pre_text = OK rows ->
  length rows <= length (data_lines pre_text) /\
  forall pl, pl ∈ rows ->
    is_id (id pl) = true /\
    (exists line first, line ∈ data_lines pre_text /\
       py_split line !! 0 = Some first /\ py_int first = Some (pos pl)) /\
    length (rds pl) <= length (round_columns (py_split (header_line pre_text))) /\
    Forall (fun rr => is_round_column (round rr) = true /\ token (res rr)) (rds pl) /\
    (gms pl <> None -> end_ pl <> None) /\
    (forall r c, last_name pl = r ++ [c] -> c <> ","%char).
Proof.
  rewrite parse_section_results_unfold.
  set (rc := round_columns (py_split (header_line pre_text))). intros H.
  split; [apply parse_lines_length in H; cbn in H; lia|].
  intros pl Hin.
  destruct (parse_lines_rows _ _ _ _ _ H) as (new & -> & Hnew).
  rewrite app_nil_l in Hin. destruct (Hnew _ Hin) as (line & Hline & Hrow).
  unfold parse_line in Hrow. destruct (nonempty (strip line)); [|discriminate].
  destruct (parse_player_inv _ _ _ _ Hrow)
    as (first & position & ne & ident & second & r & Hlen & H0 & Hpos & Hid & Hne & H1 & Hr & ->).
  pose proof (py_split_tokens line) as Htok.
  cbn [id pos rds gms end_ last_name make_player].
  split; [|split; [|split; [|split; [|split]]]].
  - destruct (find_id_tokens _ Htok) as [HSome _]. now apply HSome in Hid.
  - eauto.
  - rewrite round_results_length. lia.
  - apply (round_results_Forall (fun l => is_round_column l = true) token);
      [apply round_columns_from_Forall | assumption].
  - exact (ratings_gms_end _ _ _ Hr).
  - intros r0 c Hr0 ->.
    destruct (rstrip_by_spec (is_char ","%char) second) as (? & _ & _ & Hl).
    apply Hl in Hr0. unfold is_char in Hr0. rewrite Ascii.eqb_refl in Hr0. discriminate.
Qed.

Lemma row_invariants_witness :
  let text := demo_header ++ [NL]
              ++ lit "3 Smith,, John Q ABCD1234 1500 1600/9 W2 D3 L4 2.5" in
  exists rows, parse_section_results demo_float text = OK rows /\ length rows <= 1.
Proof.
  intros text.
  destruct (parse_section_results demo_float text) as [rows|e] eqn:E.
  - exists rows. split; [reflexivity|].
    destruct (row_invariants demo_float text rows E) as [H _].
    vm_compute in H. exact H.
  - vm_compute in E. discriminate.
Defined.

(** ** A garbled cell, a skipped line *)

(** X6. A row survives a garbled end rating. In a row passing the three
    checks, when the token under the cursor after the start rating holds no
    "/" and is not an integer ([int] rejects it as the code passes it,
    trimmed; a token of a line holds no whitespace, so the trim changes
    nothing there), the row is still produced: end rating and games are
    unset, the cursor moves past that one token, so the rounds are read
    from the next token on and the total after them; position, ID, names
    and start rating are what they are without the garbling. *)
Theorem garbled_end_rating {F : Type} (py_float : str -> option F)
    (rc : list (nat * str)) (parts : list str) (first : str) (position : Z)
    (name_end : nat) (ident : str) (s0 : option Z) (k : nat) (t : str) :
  10 <= length parts ->
  parts !! 0 = Some first -> py_int first = Some position ->
  find_id parts = Some (name_end, ident) -> 2 <= name_end ->
  start_rating parts (name_end + 1) = (s0, k) ->
  parts !! k = Some t -> contains (lit "/") t = false ->
  py_int (strip t) = None ->
  exists pl second,
    parse_player py_float rc parts = OK (Some pl) /\
    end_ pl = None /\ gms pl = None /\
    rds pl = round_results rc parts (k + 1) /\
    tot pl = total_score py_float parts (k + 1 + length rc) /\
    pos pl = position /\ id pl = ident /\ start pl = s0 /\
    parts !! 1 = Some second /\ last_name pl = rstrip_char "," second /\
    first_name pl = join (lit " ") (slice parts 2 name_end).
Proof.
  intros Hlen H0 Hpos Hid Hne Hstart Hk Hsl Hint.
  destruct (parse_player_unfold py_float rc parts first position name_end ident
              Hlen H0 Hpos Hid Hne) as (second & H1 & Hrow).
  rewrite (ratings_unfold parts name_end s0 k Hstart) in Hrow.
  assert (He : end_games parts k = OK (None, None, S k)).
  { unfold end_games, end_games_branch. rewrite Hk, Hsl. cbn [andb].
    now rewrite Hint. }
  rewrite He in Hrow. cbn [games_fallback fst snd] in Hrow.
  eexists _, second. split; [exact Hrow|].
  replace (k + 1) with (S k) by lia. cbn. auto 12.
Qed.

Lemma garbled_end_rating_witness :
  let parts := py_split (lit "3 Smith, John ABCD1234 1400 15oo W2 D3 L4 2.5") in
  exists pl, parse_player demo_float (round_columns (py_split demo_header)) parts
             = OK (Some pl) /\
    end_ pl = None /\ tot pl = Some (lit "2.5").
Proof.
  intros parts.
  destruct (garbled_end_rating demo_float (round_columns (py_split demo_header))
              parts (lit "3") 3%Z 3 (lit "ABCD1234") (Some 1400%Z) 5 (lit "15oo"))
    as (pl & second & Hrow & He & _ & _ & Ht & _);
    try (vm_compute; reflexivity); try (vm_compute; lia).
  exists pl. split; [exact Hrow|]. split; [exact He|].
  rewrite Ht. vm_compute. reflexivity.
Defined.

Section Skipping.

Context {F : Type} (py_float : str -> option F).

Lemma short_line_skipped (rc : list (nat * str)) (line : str) :
  length (py_split line) < 10 -> parse_line py_float rc line = OK None.
Proof.
  intros H. unfold parse_line, parse_player.
  destruct (nonempty (strip line)); [|reflexivity].
  destruct (Nat.ltb_spec (length (py_split line)) 10); [reflexivity | lia].
Qed.

Lemma parse_lines_skip (rc : list (nat * str)) (l1 l2 : list str) (junk : str)
    (acc : list (Player F)) :
  parse_line py_float rc junk = OK None ->
  parse_lines py_float rc (l1 ++ junk :: l2) acc = parse_lines py_float rc (l1 ++ l2) acc.
Proof.
  intros Hj. revert acc. induction l1 as [|l l1 IH]; intros acc; cbn [app parse_lines].
  - now rewrite Hj.
  - destruct (parse_line py_float rc l) as [[pl|]|]; cbn [bind]; auto.
Qed.

End Skipping.

(** X7. A skipped line is transparent. Two blocks with the same header
    whose data lines differ by one line of fewer than ten tokens (a blank
    line, a separator, a truncated row), anywhere among the data lines,
    give the same result: the same rows in the same order, or the same
    exception. *)
Theorem skipped_line_transparent {F : Type} (py_float : str -> option F)
    (text text' header : str) (l1 l2 : list str) (junk : str) :
  raw_lines text = header :: l1 ++ junk :: l2 ->
  raw_lines text' = header :: l1 ++ l2 ->
  length (py_split junk) < 10 ->
  parse_section_results py_float text = parse_section_results py_float text'.
Proof.
  intros H H' Hj. rewrite !parse_section_results_unfold.
  unfold header_line, data_lines. rewrite H, H'. cbn [head default drop].
  apply parse_lines_skip. now apply short_line_skipped.
Qed.

Lemma skipped_line_transparent_witness :
  let row := lit "3 Smith, John ABCD1234 1400 1500/9 W2 D3 L4 2.5" in
  parse_section_results demo_float (demo_header ++ [NL] ++ lit "-- --" ++ [NL] ++ row)
  = parse_section_results demo_float (demo_header ++ [NL] ++ row).
Proof.
  intros row.
  apply (skipped_line_transparent demo_float _ _ demo_header [] [row] (lit "-- --")).
  - vm_compute. reflexivity.
  - vm_compute. reflexivity.
  - vm_compute. lia.
Defined.

(** X8. A block without a usable data line yields no row and raises
    nothing: the empty block, a header alone, or a block whose data lines
    all have fewer than ten tokens. *)
Theorem no_usable_line {F : Type} (py_float : str -> option F) (pre_text : str) :
  (forall line, line ∈ data_lines pre_text -> length (py_split line) < 10) ->
  parse_section_results py_float pre_text = OK [].
Proof.
  intros H. rewrite parse_section_results_unfold.
  rewrite parse_lines_ok.
  - cbn [app]. f_equal.
    induction (data_lines pre_text) as [|l ls IH]; [reflexivity|].
    cbn [omap list_omap]. unfold line_row at 1.
    rewrite short_line_skipped by (apply H; now left).
    apply IH. intros line Hin. apply H. now right.
  - intros line Hin. exists None. apply short_line_skipped. now apply H.
Qed.

Lemma no_usable_line_witness :
  parse_section_results demo_float [] = OK [] /\
  parse_section_results demo_float demo_header = OK [].
Proof.
  split; apply no_usable_line; intros line Hin; vm_compute in Hin; inversion Hin.
Defined.

(** * The page extractor *)

Section Blocks.

Context {F : Type} (py_float : str -> option F).

Lemma block_raise_iff (pre_text : str) (e : exn) :
  parse_section_results py_float pre_text = Raise e <->
  e = ValueError /\ raising_block pre_text.
Proof.
  rewrite parse_section_results_unfold.
  set (rc := round_columns (py_split (header_line pre_text))).
  unfold raising_block. split.
  - intros H. apply parse_lines_raise_inv in H as (line & Hin & Hr).
    apply parse_line_raise_iff in Hr as [-> Hr]. eauto.
  - intros (-> & line & Hin & Hr).
    destruct (parse_lines_raise py_float rc (data_lines pre_text) [] line ValueError Hin)
      as [e' He'].
    { apply parse_line_raise_iff. auto. }
    rewrite He'. f_equal.
    apply parse_lines_raise_inv in He' as (l' & _ & Hr').
    now apply parse_line_raise_iff in Hr' as [-> _].
Qed.

Lemma section_loop_raise_inv (nodes : list node) (acc : list (SectionData F))
    (e : exn) :
  section_loop py_float nodes acc = Raise e ->
  exists l1 t l2 p, nodes = l1 ++ H4 t :: l2 /\ find_next_pre l2 = Some p /\
    parse_section_results py_float p = Raise e.
Proof.
  revert acc. induction nodes as [|n nodes IH]; intros acc H; [discriminate|].
  destruct n as [t|q]; cbn [section_loop] in H.
  - destruct (find_next_pre nodes) as [p|] eqn:Hp.
    + destruct (parse_section_results py_float p) as [rows|e0] eqn:Hr; cbn [bind] in H.
      * destruct (IH _ H) as (l1 & t' & l2 & p' & -> & H2 & H3).
        exists (H4 t :: l1), t', l2, p'. auto.
      * injection H as <-. exists [], t, nodes, p. auto.
    + destruct (IH _ H) as (l1 & t' & l2 & p' & -> & H2 & H3).
      exists (H4 t :: l1), t', l2, p'. auto.
  - destruct (IH _ H) as (l1 & t' & l2 & p' & -> & H2 & H3).
    exists (Pre q :: l1), t', l2, p'. auto.
Qed.

Lemma section_loop_raise (l1 l2 : list node) (t p : str)
    (acc : list (SectionData F)) (e : exn) :
  find_next_pre l2 = Some p -> parse_section_results py_float p = Raise e ->
  exists e', section_loop py_float (l1 ++ H4 t :: l2) acc = Raise e'.
Proof.
  intros Hp Hr. revert acc. induction l1 as [|n l1 IH]; intros acc.
  - cbn [app section_loop]. rewrite Hp, Hr. cbn. eauto.
  - cbn [app]. destruct n as [t'|q]; cbn [section_loop]; [|apply IH].
    destruct (find_next_pre (l1 ++ H4 t :: l2)) as [p'|]; [|apply IH].
    destruct (parse_section_results py_float p'); cbn [bind]; eauto.
Qed.

Lemma section_loop_ok (nodes : list node) (acc secs : list (SectionData F)) :
  section_loop py_float nodes acc = OK secs ->
  exists new, secs = acc ++ new /\
    Forall2 (fun s b => section s = strip b.1 /\
                        parse_section_results py_float b.2 = OK (results s))
      new (header_blocks nodes).
Proof.
  revert acc. induction nodes as [|n nodes IH]; intros acc H.
  - injection H as <-. exists []. rewrite app_nil_r. split; [reflexivity|constructor].
  - destruct n as [t|q]; cbn [section_loop header_blocks] in *.
    + destruct (find_next_pre nodes) as [p|] eqn:Hp; [|now apply IH].
      destruct (parse_section_results py_float p) as [rows|e0] eqn:Hr;
        cbn [bind] in H; [|discriminate].
      destruct (IH _ H) as (new & -> & HF).
      exists ({| section := strip t; results := rows |} :: new).
      split; [now rewrite <- app_assoc|].
      apply List.Forall2_cons; [|assumption]. split; [reflexivity | exact Hr].
    + now apply IH.
Qed.

Lemma section_loop_no_raise (nodes : list node) (acc : list (SectionData F)) :
  (forall l1 t l2 p, nodes = l1 ++ H4 t :: l2 -> find_next_pre l2 = Some p ->
     ~ raising_block p) ->
  exists secs, section_loop py_float nodes acc = OK secs.
Proof.
  intros Hno. destruct (section_loop py_float nodes acc) as [secs|e] eqn:E; [eauto|].
  apply section_loop_raise_inv in E as (l1 & t & l2 & p & Hn & Hp & Hr).
  apply block_raise_iff in Hr as [_ Hr]. destruct (Hno _ _ _ _ Hn Hp Hr).
Qed.

End Blocks.

Lemma find_next_pre_None (nodes : list node) :
  find_next_pre nodes = None <-> Forall (fun n => is_pre n = false) nodes.
Proof.
  induction nodes as [|[t|p] nodes IH]; cbn [find_next_pre].
  - split; [constructor | reflexivity].
  - rewrite IH. split; [now constructor | now inversion 1].
  - split; [discriminate | inversion 1; discriminate].
Qed.

Lemma header_blocks_no_pre (nodes : list node) :
  Forall (fun n => is_pre n = false) nodes -> header_blocks nodes = [].
Proof.
  induction 1 as [|[t|p] nodes Hn HF IH]; cbn [header_blocks]; [reflexivity| |discriminate].
  apply find_next_pre_None in HF. now rewrite HF.
Qed.

Lemma header_blocks_elem (nodes : list node) (t p : str) :
  (t, p) ∈ header_blocks nodes <->
  exists l1 l2, nodes = l1 ++ H4 t :: l2 /\ find_next_pre l2 = Some p.
Proof.
  induction nodes as [|n nodes IH].
  - split; [inversion 1 | intros ([|? ?] & ? & ? & _); discriminate].
  - destruct n as [t'|q]; cbn [header_blocks].
    + split.
      * intros H. destruct (find_next_pre nodes) as [p'|] eqn:Hp.
        -- apply elem_of_cons in H as [[= -> ->]|H].
           ++ exists [], nodes. auto.
           ++ apply IH in H as (l1 & l2 & -> & H2). exists (H4 t' :: l1), l2. auto.
        -- apply IH in H as (l1 & l2 & -> & H2). exists (H4 t' :: l1), l2. auto.
      * intros (l1 & l2 & Hn & Hp). destruct l1 as [|n1 l1]; cbn [app] in Hn.
        -- injection Hn as -> ->. rewrite Hp. now left.
        -- injection Hn as <- ->.
           assert ((t, p) ∈ header_blocks (l1 ++ H4 t :: l2)) as Hin
             by (apply IH; eauto).
           destruct (find_next_pre (l1 ++ H4 t :: l2)); [now right | assumption].
    + rewrite IH. split.
      * intros (l1 & l2 & -> & H2). exists (Pre q :: l1), l2. auto.
      * intros (l1 & l2 & Hn & Hp). destruct l1 as [|n1 l1]; cbn [app] in Hn;
          [discriminate|]. injection Hn as <- ->. eauto.
Qed.

Lemma header_blocks_names (nodes : list node) :
  exists front back, nodes = front ++ back /\
    Forall (fun n => is_pre n = false) back /\
    (front = [] \/ exists f p, front = f ++ [Pre p]) /\
    (header_blocks nodes).*1 = h4_texts front.
Proof.
  induction nodes as [|n nodes IH].
  - exists [], []. repeat split; [constructor | now left].
  - destruct IH as (front & back & Hn & Hb & Hf & Hh). destruct n as [t|q].
    + cbn [header_blocks]. destruct (find_next_pre nodes) as [p|] eqn:Hp.
      * exists (H4 t :: front), back. subst nodes. repeat split; [assumption| |].
        -- right. destruct Hf as [->|(f & p' & ->)].
           ++ cbn [app] in Hp. apply find_next_pre_None in Hb. congruence.
           ++ exists (H4 t :: f), p'. reflexivity.
        -- cbn. unfold h4_texts in Hh. now rewrite Hh.
      * apply find_next_pre_None in Hp.
        exists [], (H4 t :: nodes). repeat split; [now constructor | now left |].
        now rewrite header_blocks_no_pre.
    + exists (Pre q :: front), back. subst nodes. repeat split; [assumption| |].
      * right. destruct Hf as [->|(f & p' & ->)].
        -- exists [], q. reflexivity.
        -- exists (Pre q :: f), p'. reflexivity.
      * cbn [header_blocks]. rewrite Hh. reflexivity.
Qed.

(** X9. What the page extractor returns. A response whose status is not 200
    gives [None] whatever the document holds. On status 200 the function
    raises nothing but [ValueError], and it raises exactly when the first
    block after some [h4] header has a line that makes the table parser
    raise; a defective block that follows no header is never read.
    Otherwise it returns a report that carries the URL it was given, the
    heading's fields, and one section for each header that has a block
    after it. *)
Theorem page_outcome {F : Type} (py_float : str -> option F)
    (url0 : str) (response : Response) :
  (status_code response <> 200%Z ->
   extract_chess_results py_float url0 response = OK None) /\
  (status_code response = 200%Z ->
   (forall e, extract_chess_results py_float url0 response = Raise e <->
      e = ValueError /\
      exists l1 t l2 p, elements response = l1 ++ H4 t :: l2 /\
        find_next_pre l2 = Some p /\ raising_block p) /\
   ((forall l1 t l2 p, elements response = l1 ++ H4 t :: l2 ->
       find_next_pre l2 = Some p -> ~ raising_block p) ->
    exists report,
      extract_chess_results py_float url0 response = OK (Some report) /\
      url report = url0 /\
      extract_tournament_info (tourney_heading response) = OK (info report) /\
      length (sections report) = length (header_blocks (elements response)))).
Proof.
  unfold extract_chess_results. split.
  - intros Hs. destruct (Z.eqb_spec (status_code response) 200); [contradiction|].
    reflexivity.
  - intros ->. cbn [Z.eqb Pos.eqb negb].
    assert (exists i, extract_tournament_info (tourney_heading response) = OK i)
      as [i Hi].
    { destruct (tourney_heading response) as [text|]; [|now eexists].
      rewrite extract_tournament_info_total. eauto. }
    rewrite Hi. cbn [bind]. split.
    + intros e. split.
      * destruct (section_loop py_float (elements response) []) as [secs|e0] eqn:E;
          cbn [bind]; [discriminate|]. intros [= <-].
        apply section_loop_raise_inv in E as (l1 & t & l2 & p & Hn & Hp & Hr).
        apply block_raise_iff in Hr as [-> Hr]. split; [reflexivity|].
        exists l1, t, l2, p. auto.
      * intros (-> & l1 & t & l2 & p & Hn & Hp & Hr).
        destruct (section_loop_raise py_float l1 l2 t p [] ValueError Hp) as [e' He'].
        { apply block_raise_iff. auto. }
        rewrite Hn, He'. cbn [bind]. f_equal.
        apply section_loop_raise_inv in He' as (? & ? & ? & ? & _ & _ & Hr').
        now apply block_raise_iff in Hr' as [-> _].
    + intros Hno.
      destruct (section_loop_no_raise py_float (elements response) [] Hno) as [secs Hs].
      rewrite Hs. cbn [bind]. eexists. split; [reflexivity|].
      cbn. repeat split.
      apply section_loop_ok in Hs as (new & -> & HF).
      cbn [app]. now apply Forall2_length in HF.
Qed.

Lemma page_outcome_witness :
  exists report,
    extract_chess_results demo_float (lit "http://x") demo_page = OK (Some report) /\
    length (sections report) = 2.
Proof.
  destruct (page_outcome demo_float (lit "http://x") demo_page) as [_ H].
  destruct (H eq_refl) as [_ Hok].
  destruct Hok as (report & Hr & _ & _ & Hl).
  - intros l1 t l2 p Hn Hp (line & Hin & first & position & i & t' & s0 & k & u &
                             _ & _ & _ & _ & _ & _ & Hu & Hsl).
    assert ((t, p) ∈ header_blocks (elements demo_page)) as Hb
      by (apply header_blocks_elem; eauto).
    vm_compute in Hb.
    assert (Forall (fun w => slashes w <= 1) (py_split line)) as HF.
    { apply elem_of_cons in Hb as [[= -> ->]|Hb];
        [|apply elem_of_cons in Hb as [[= -> ->]|Hb]; [|inversion Hb]];
        vm_compute in Hin;
        (apply elem_of_cons in Hin as [->|Hin]; [|inversion Hin]);
        vm_compute; repeat constructor. }
    rewrite Forall_forall in HF.
    assert (slashes u <= 1) by (apply HF; apply list_elem_of_lookup; eauto).
    lia.
  - exists report. split; [exact Hr|]. rewrite Hl. vm_compute. reflexivity.
Defined.

(** X10. The sections of a report. They are, in document order, the [h4]
    headers that have a [pre] block somewhere after them: each section is
    named by its header's trimmed text and holds the rows of the first
    block after that header, so that consecutive headers with one block
    after them give sections with the same rows. The headers kept are
    exactly those that come before the last block of the document; headers
    after it give no section. *)
Theorem sections_of_page {F : Type} (py_float : str -> option F)
    (url0 : str) (response : Response) (report : Report F) :
  extract_chess_results py_float url0 response = OK (Some report) ->
  Forall2 (fun s b => section s = strip b.1 /\
                      parse_section_results py_float b.2 = OK (results s))
    (sections report) (header_blocks (elements response)) /\
  (forall t p, (t, p) ∈ header_blocks (elements response) <->
     exists l1 l2, elements response = l1 ++ H4 t :: l2 /\
       find_next_pre l2 = Some p) /\
  exists front back,
    elements response = front ++ back /\
    Forall (fun n => is_pre n = false) back /\
    (front = [] \/ exists f p, front = f ++ [Pre p]) /\
    map section (sections report) = map strip (h4_texts front).
Proof.
  unfold extract_chess_results.
  destruct (negb (status_code response =? 200)%Z); [discriminate|].
  destruct (extract_tournament_info (tourney_heading response)) as [i|e];
    cbn [bind]; [|discriminate].
  destruct (section_loop py_float (elements response) []) as [secs|e] eqn:E;
    cbn [bind]; [|discriminate].
  intros [= <-]. cbn [sections].
  apply section_loop_ok in E as (new & -> & HF). cbn [app].
  split; [exact HF|]. split; [intros t p; apply header_blocks_elem|].
  destruct (header_blocks_names (elements response))
    as (front & back & Hn & Hb & Hf & Hh).
  exists front, back. repeat split; try assumption.
  rewrite <- Hh. clear -HF.
  induction HF as [|s b new bs [Hs _] _ IH]; [reflexivity|].
  cbn. now rewrite Hs, IH.
Qed.

Lemma sections_of_page_witness :
  exists report,
    extract_chess_results demo_float (lit "http://x") demo_page = OK (Some report) /\
    map section (sections report) = [lit "Open"; lit "Reserve"].
Proof.
  destruct (extract_chess_results demo_float (lit "http://x") demo_page)
    as [[report|]|e] eqn:E; [|vm_compute in E; discriminate..].
  exists report. split; [reflexivity|].
  destruct (sections_of_page demo_float _ _ _ E) as (HF & _ & _).
  assert (exists p, header_blocks (elements demo_page) =
                    [(lit " Open ", p); (lit "Reserve", p)]) as [p Hb]
    by (eexists; vm_compute; reflexivity).
  rewrite Hb in HF.
  inversion HF as [|s1 b1 r1 bs1 [H1 _] HF1]; subst.
  inversion HF1 as [|s2 b2 r2 bs2 [H2 _] HF2]; subst.
  inversion HF2; subst.
  cbn [map]. rewrite H1, H2. vm_compute. reflexivity.
Defined.

(** * The store *)

Lemma player_id_of_id (ident : str) :
  is_id ident = true ->
  player_id ident = drop 4 ident /\ length (player_id ident) = 4 /\
  ident = take 4 ident ++ player_id ident /\
  Forall (fun c => id_char c = true) (player_id ident).
Proof.
  unfold is_id, player_id. intros [Hl Hc]%andb_prop. apply Nat.eqb_eq in Hl.
  rewrite Hl. change (4 <? 8) with true. cbv iota.
  split; [reflexivity|]. split; [rewrite length_drop; lia|].
  split; [now rewrite take_drop|].
  apply Forall_drop. now apply forallb_Forall in Hc.
Qed.

Lemma max_section_id_spec (tid : nat) (table : gmap (nat * nat) str) :
  match max_section_id tid table with
  | None => forall s, table !! (tid, s) = None
  | Some m =>
      is_Some (table !! (tid, m)) /\
      forall s, is_Some (table !! (tid, s)) -> s <= m
  end.
Proof.
  unfold max_section_id.
  apply (map_fold_weak_ind
           (fun r (m : gmap (nat * nat) str) =>
              match r with
              | None => forall s, m !! (tid, s) = None
              | Some mx =>
                  is_Some (m !! (tid, mx)) /\
                  forall s, is_Some (m !! (tid, s)) -> s <= mx
              end)).
  - intros s. apply lookup_empty.
  - intros [t' s'] x m r Hi IH. cbn [fst snd].
    destruct (Nat.eqb_spec t' tid) as [->|Hne].
    + destruct r as [mx|].
      * destruct IH as [Hmx Hle]. split.
        -- destruct (decide (Nat.max mx s' = s')) as [->|Hd].
           ++ rewrite lookup_insert_eq. eauto.
           ++ rewrite lookup_insert_ne by (intros [= E]; lia).
              replace (Nat.max mx s') with mx by lia. assumption.
        -- intros s Hs. destruct (decide (s = s')) as [->|Hd]; [lia|].
           rewrite lookup_insert_ne in Hs by congruence. apply Hle in Hs. lia.
      * split; [rewrite lookup_insert_eq; eauto|].
        intros s Hs. destruct (decide (s = s')) as [->|Hd]; [lia|].
        rewrite lookup_insert_ne in Hs by congruence. rewrite IH in Hs.
        destruct Hs; discriminate.
    + destruct r as [mx|].
      * destruct IH as [Hmx Hle]. split.
        -- rewrite lookup_insert_ne by congruence. assumption.
        -- intros s Hs. rewrite lookup_insert_ne in Hs by congruence. auto.
      * intros s. rewrite lookup_insert_ne by congruence. apply IH.
Qed.

Lemma max_rowid_ge (rows : list TournamentRow) (row : TournamentRow) :
  row ∈ rows -> t_id row <= max_rowid rows.
Proof.
  induction rows as [|r rows IH]; [inversion 1|].
  intros [->|Hin]%elem_of_cons; cbn [max_rowid foldr]; [lia|].
  specialize (IH Hin). unfold max_rowid in IH. lia.
Qed.

Lemma find_snoc {A} (p : A -> bool) (l : list A) (x : A) :
  find p l = None -> find p (l ++ [x]) = if p x then Some x else None.
Proof.
  induction l as [|a l IH]; cbn [find app]; [reflexivity|].
  destruct (p a); [discriminate | exact IH].
Qed.

Lemma find_elem {A} (p : A -> bool) (l : list A) (x : A) :
  find p l = Some x -> x ∈ l /\ p x = true.
Proof.
  intros H. apply find_some in H as [H1 H2].
  split; [now apply list_elem_of_In | assumption].
Qed.

Lemma find_None_elem {A} (p : A -> bool) (l : list A) :
  find p l = None <-> forall x, x ∈ l -> p x = false.
Proof.
  split.
  - intros H x Hx. apply (find_none p l H). now apply list_elem_of_In.
  - intros H. induction l as [|a l IH]; [reflexivity|]. cbn [find].
    rewrite (H a) by now left. apply IH. intros x Hx. apply H. now right.
Qed.

Lemma same_tournament_spec (name day : str) (row : TournamentRow) :
  same_tournament name day row = true <->
  tournament_name row = name /\ t_date row = day.
Proof.
  unfold same_tournament. rewrite andb_true_iff, !bool_decide_eq_true. tauto.
Qed.

Section StoreFacts.

Context {F : Type}.

(** [insert_player] never raises, and what it writes. *)
Lemma insert_player_run (p : Player F) (db : DB F) :
  exists db',
    insert_player p db = (Ret (player_id (id p)), db') /\
    db_player db' =
      match db_player db !! player_id (id p) with
      | Some _ => db_player db
      | None => <[player_id (id p) := (last_name p, first_name p)]> (db_player db)
      end /\
    db_tournament db' = db_tournament db /\
    db_sequence db' = db_sequence db /\
    db_section db' = db_section db /\
    db_player_tournament db' = db_player_tournament db /\
    db_games db' = db_games db.
Proof.
  unfold insert_player, sql_insert.
  destruct (db_player db !! player_id (id p)) as [names|] eqn:E.
  - exists db. repeat split.
  - eexists. split; [reflexivity|]. cbn. repeat split.
Qed.

Lemma insert_player_known (p : Player F) (db : DB F) :
  is_Some (db_player db !! player_id (id p)) ->
  insert_player p db = (Ret (player_id (id p)), db).
Proof.
  intros [names E]. unfold insert_player. now rewrite E.
Qed.

(** [insert_section] never raises, and what it writes. *)
Lemma insert_section_run (tid : nat) (name : str) (db : DB F) :
  exists sid db',
    insert_section tid name db = (Ret sid, db') /\
    sid = default 0 (max_section_id tid (db_section db)) + 1 /\
    db_section db !! (tid, sid) = None /\
    db_section db' = <[(tid, sid) := name]> (db_section db) /\
    db_tournament db' = db_tournament db /\
    db_sequence db' = db_sequence db /\
    db_player db' = db_player db /\
    db_player_tournament db' = db_player_tournament db /\
    db_games db' = db_games db.
Proof.
  unfold insert_section, sql_insert.
  set (sid := default 0 (max_section_id tid (db_section db)) + 1).
  assert (db_section db !! (tid, sid) = None) as Hfresh.
  { pose proof (max_section_id_spec tid (db_section db)) as Hm.
    destruct (max_section_id tid (db_section db)) as [m|] eqn:E; [|apply Hm].
    destruct Hm as [_ Hle].
    destruct (db_section db !! (tid, sid)) as [x|] eqn:E'; [|reflexivity].
    assert (sid <= m) by (apply Hle; eauto). subst sid. cbn in *. lia. }
  rewrite Hfresh. exists sid. eexists. split; [reflexivity|]. cbn. repeat split.
  exact Hfresh.
Qed.

End StoreFacts.

(** X11. A player is stored once, under the ID without its first four
    characters, and the first writer wins. [insert_player] never raises; it
    leaves every other player and every other table as they are; a player
    already present keeps the names stored first. A second player whose
    8-character ID differs from the first's only in its first four
    characters is taken for the first: nothing is written for it. *)
Theorem player_first_wins {F : Type} (p : Player F) (db : DB F) :
  exists db',
    insert_player p db = (Ret (player_id (id p)), db') /\
    db_player db' !! player_id (id p) =
      Some (default (last_name p, first_name p)
              (db_player db !! player_id (id p))) /\
    (forall k, k <> player_id (id p) -> db_player db' !! k = db_player db !! k) /\
    (forall q : Player F,
       is_id (id p) = true -> is_id (id q) = true ->
       drop 4 (id q) = drop 4 (id p) ->
       insert_player q db' = (Ret (player_id (id p)), db')) /\
    db_tournament db' = db_tournament db /\
    db_section db' = db_section db /\
    db_player_tournament db' = db_player_tournament db /\
    db_games db' = db_games db.
Proof.
  destruct (insert_player_run p db) as (db' & Hrun & Hp & Ht & _ & Hs & Hpt & Hg).
  exists db'. split; [exact Hrun|].
  assert (db_player db' !! player_id (id p) =
          Some (default (last_name p, first_name p)
                  (db_player db !! player_id (id p)))) as Hl.
  { rewrite Hp. destruct (db_player db !! player_id (id p)) as [names|] eqn:E.
    - now rewrite E.
    - now rewrite lookup_insert_eq. }
  split; [exact Hl|]. split.
  { intros k Hk. rewrite Hp. destruct (db_player db !! player_id (id p));
      [reflexivity | now rewrite lookup_insert_ne]. }
  split; [|auto].
  intros q Hip Hiq Hd.
  assert (player_id (id q) = player_id (id p)) as Hq.
  { destruct (player_id_of_id _ Hip) as [-> _].
    destruct (player_id_of_id _ Hiq) as [-> _]. exact Hd. }
  rewrite <- Hq. apply insert_player_known. rewrite Hq, Hl. eauto.
Qed.

(** X12. Section numbers. [insert_section] never raises: the number it
    gives is one more than the largest number the tournament has, 1 for the
    tournament's first section, and is therefore not in use. It does not
    look at the name: storing a section again adds a row under a new
    number and keeps the old one. Every other row and table is left as it
    is. *)
Theorem section_numbers {F : Type} (tid : nat) (name : str) (db : DB F) :
  exists sid db',
    insert_section tid name db = (Ret sid, db') /\
    db_section db !! (tid, sid) = None /\
    (forall s, is_Some (db_section db !! (tid, s)) -> s < sid) /\
    (sid = 1 \/ is_Some (db_section db !! (tid, sid - 1))) /\
    db_section db' !! (tid, sid) = Some name /\
    (forall k, k <> (tid, sid) -> db_section db' !! k = db_section db !! k) /\
    size (db_section db') = S (size (db_section db)) /\
    db_tournament db' = db_tournament db /\
    db_player db' = db_player db /\
    db_player_tournament db' = db_player_tournament db /\
    db_games db' = db_games db.
Proof.
  destruct (insert_section_run tid name db)
    as (sid & db' & Hrun & Hsid & Hfresh & Hs & Ht & _ & Hp & Hpt & Hg).
  exists sid, db'. split; [exact Hrun|]. split; [exact Hfresh|].
  pose proof (max_section_id_spec tid (db_section db)) as Hm.
  destruct (max_section_id tid (db_section db)) as [m|]; cbn in Hsid.
  - destruct Hm as [Hmx Hle]. split; [intros s Hs'; apply Hle in Hs'; lia|].
    split; [right; now replace (sid - 1) with m by lia|].
    rewrite Hs. split; [apply lookup_insert_eq|].
    split; [intros k Hk; now apply lookup_insert_ne|].
    split; [now apply map_size_insert_None | auto].
  - split; [intros s [x Hx]; rewrite Hm in Hx; discriminate|].
    split; [left; lia|].
    rewrite Hs. split; [apply lookup_insert_eq|].
    split; [intros k Hk; now apply lookup_insert_ne|].
    split; [now apply map_size_insert_None | auto].
Qed.

(** ** The tournament table *)

Lemma elem_of_map {A B} (f : A -> B) (l : list A) (y : B) :
  y ∈ map f l <-> exists x, x ∈ l /\ f x = y.
Proof.
  rewrite list_elem_of_In, in_map_iff. setoid_rewrite list_elem_of_In.
  split; intros (x & H1 & H2); eauto.
Qed.

Lemma NoDup_map_snoc {A B} (f : A -> B) (l : list A) (x : A) :
  (forall a, a ∈ l -> f a <> f x) -> NoDup (map f l) -> NoDup (map f (l ++ [x])).
Proof.
  intros Hne Hnd. rewrite map_app. apply NoDup_app. split; [assumption|].
  split; [|apply NoDup_singleton].
  intros y [a [Ha <-]]%elem_of_map Hy. cbn in Hy.
  apply list_elem_of_singleton in Hy. exact (Hne a Ha Hy).
Qed.

(** X13. A tournament is stored once. [insert_tournament] raises [KeyError]
    when the report has no name or no date, and then writes nothing.
    Otherwise it returns the number of a row that holds the report's name
    and date: the row already there when one has both, in which case
    nothing is written, and else a new row appended with a number above
    every number in the table. Run again on its own result it returns the
    same number and writes nothing; row numbers and (name, date) pairs that
    were distinct stay distinct; the other tables are left as they are. *)
Theorem tournament_once {F : Type} (data : Report F) (db : DB F) :
  (tournament (info data) = None ->
   insert_tournament data db = (Exc (KeyError (lit "tournament")), db)) /\
  (tournament (info data) <> None -> date (info data) = None ->
   insert_tournament data db = (Exc (KeyError (lit "date")), db)) /\
  (forall name day,
     tournament (info data) = Some name -> date (info data) = Some day ->
     exists tid db',
       insert_tournament data db = (Ret tid, db') /\
       (exists row, row ∈ db_tournament db' /\ t_id row = tid /\
          name_date row = (name, day)) /\
       ((exists row, row ∈ db_tournament db /\ name_date row = (name, day)) ->
        db' = db) /\
       ((forall row, row ∈ db_tournament db -> name_date row <> (name, day)) ->
        db_tournament db' =
          db_tournament db ++
          [ {| t_id := tid; tournament_name := name; t_date := day;
               t_address := default [] (address (info data));
               t_url := url data |} ] /\
        forall row, row ∈ db_tournament db -> t_id row < tid) /\
       insert_tournament data db' = (Ret tid, db') /\
       (NoDup (map t_id (db_tournament db)) ->
        NoDup (map t_id (db_tournament db'))) /\
       (NoDup (map name_date (db_tournament db)) ->
        NoDup (map name_date (db_tournament db'))) /\
       db_player db' = db_player db /\
       db_section db' = db_section db /\
       db_player_tournament db' = db_player_tournament db /\
       db_games db' = db_games db).
Proof.
  unfold insert_tournament. split; [now intros ->|]. split.
  { intros Hn ->. destruct (tournament (info data)); [reflexivity | contradiction]. }
  intros name day -> ->.
  destruct (find (same_tournament name day) (db_tournament db)) as [existing|] eqn:E.
  - destruct (find_elem _ _ _ E) as [Hin Hsame].
    apply same_tournament_spec in Hsame as [H1 H2].
    exists (t_id existing), db. split; [reflexivity|].
    split; [exists existing; unfold name_date; rewrite H1, H2; auto|].
    split; [reflexivity|].
    split.
    { intros Hno. destruct (Hno existing Hin). unfold name_date. now rewrite H1, H2. }
    split; [now rewrite E | auto 10].
  - pose proof (proj1 (find_None_elem _ _) E) as Hnone.
    assert (forall row, row ∈ db_tournament db -> name_date row <> (name, day)) as Hno.
    { intros row Hin [= H1 H2]. specialize (Hnone row Hin).
      assert (same_tournament name day row = true) by now apply same_tournament_spec.
      congruence. }
    set (tid := S (Nat.max (db_sequence db) (max_rowid (db_tournament db)))).
    assert (forall row, row ∈ db_tournament db -> t_id row < tid) as Hlt.
    { intros row Hin. apply max_rowid_ge in Hin. subst tid. lia. }
    eexists tid, _. split; [reflexivity|].
    cbn [db_tournament db_player db_section db_player_tournament db_games].
    split.
    { eexists. split; [apply elem_of_app; right; now left|]. split; reflexivity. }
    split; [intros (row & Hin & Hnd); destruct (Hno row Hin Hnd)|].
    split; [intros _; split; [reflexivity | exact Hlt]|].
    split.
    { rewrite (find_snoc _ _ _ E). unfold same_tournament. cbn.
      rewrite !bool_decide_eq_true_2 by reflexivity. reflexivity. }
    split.
    { apply NoDup_map_snoc. intros a Ha. apply Hlt in Ha. cbn. lia. }
    split; [|auto].
    apply NoDup_map_snoc. intros a Ha. apply (Hno a Ha).
Qed.

Lemma tournament_once_witness :
  exists db',
    insert_tournament demo_report empty_db = (Ret 1, db') /\
    insert_tournament demo_report db' = (Ret 1, db').
Proof.
  destruct (tournament_once demo_report empty_db) as (_ & _ & H).
  destruct (H (lit "Summer Open") (lit "Jul 4, 2024") eq_refl eq_refl)
    as (tid & db' & Hrun & _ & _ & _ & Hagain & _).
  assert (tid = 1) as ->.
  { vm_compute in Hrun. now injection Hrun as <- _. }
  exists db'. split; assumption.
Defined.

(** ** The games table *)

Section Games.

Context {F : Type}.

Lemma get_opponent_id_by_position_Some (players : list (Player F)) (n : Z)
    (o : str) :
  get_opponent_id_by_position players n = Some o <->
  exists before opp after,
    players = before ++ opp :: after /\ pos opp = n /\
    (forall x, x ∈ before -> pos x <> n) /\ o = player_id (id opp).
Proof.
  induction players as [|p players IH]; cbn [get_opponent_id_by_position].
  - split; [discriminate | intros ([|? ?] & ? & ? & ? & _); discriminate].
  - destruct (Z.eqb_spec (pos p) n) as [Hp|Hp].
    + split.
      * intros [= <-]. exists [], p, players. repeat split; [assumption|].
        intros x Hx. inversion Hx.
      * intros (before & opp & after & Hl & Ho & Hb & ->).
        destruct before as [|b before]; cbn [app] in Hl.
        -- now injection Hl as <- _.
        -- injection Hl as <- _. destruct (Hb p); [now left | assumption].
    + rewrite IH. split.
      * intros (before & opp & after & -> & Ho & Hb & ->).
        exists (p :: before), opp, after. repeat split; [assumption|].
        intros x [->|Hx]%elem_of_cons; auto.
      * intros (before & opp & after & Hl & Ho & Hb & ->).
        destruct before as [|b before]; cbn [app] in Hl.
        -- injection Hl as <- _. contradiction.
        -- injection Hl as <- ->. exists before, opp, after.
           repeat split; [assumption|]. intros x Hx. apply Hb. now right.
Qed.

Lemma insert_rounds_cases (tid sid : nat) (ps : list (Player F)) (pid : str)
    (rounds : list RoundResult) (table : games_table) (key : nat * str * nat * str) :
  insert_rounds tid sid ps pid rounds table !! key = table !! key \/
  exists rr v, rr ∈ rounds /\ key = (tid, pid, sid, round rr) /\
    game_record ps rr = Some v /\
    insert_rounds tid sid ps pid rounds table !! key = Some v.
Proof.
  revert table. induction rounds as [|r rounds IH]; intros table;
    cbn [insert_rounds]; [now left|].
  destruct (game_record ps r) as [g|] eqn:Hg; cbv iota.
  - unfold sql_replace.
    destruct (IH (<[(tid, pid, sid, round r) := g]> table))
      as [Heq|(rr & v & Hin & Hk & Hg' & Hv)].
    + destruct (decide ((tid, pid, sid, round r) = key)) as [<-|Hne].
      * right. exists r, g. rewrite Heq, lookup_insert_eq.
        repeat split; [now left | assumption].
      * left. rewrite Heq. now apply lookup_insert_ne.
    + right. exists rr, v. repeat split; [now right | assumption..].
  - destruct (IH table) as [Heq|(rr & v & Hin & Hk & Hg' & Hv)]; [now left|].
    right. exists rr, v. repeat split; [now right | assumption..].
Qed.

Lemma insert_rounds_written (tid sid : nat) (ps : list (Player F)) (pid : str)
    (rounds : list RoundResult) (table : games_table) (rr : RoundResult)
    (v0 : str * str) :
  rr ∈ rounds -> game_record ps rr = Some v0 ->
  exists rr' v, rr' ∈ rounds /\ round rr' = round rr /\
    game_record ps rr' = Some v /\
    insert_rounds tid sid ps pid rounds table !! (tid, pid, sid, round rr) = Some v.
Proof.
  revert table. induction rounds as [|r rounds IH]; intros table Hin Hg;
    [inversion Hin|].
  cbn [insert_rounds]. apply elem_of_cons in Hin as [<-|Hin].
  - rewrite Hg. cbv iota. unfold sql_replace.
    match goal with |- context [insert_rounds _ _ _ _ rounds ?t] =>
      destruct (insert_rounds_cases tid sid ps pid rounds t (tid, pid, sid, round rr))
        as [Heq|(rr' & v & Hin' & Hk & Hg' & Hv)] end.
    + exists rr, v0. rewrite Heq, lookup_insert_eq.
      repeat split; [now left | assumption].
    + exists rr', v. injection Hk as Hk.
      repeat split; [now right | congruence | assumption..].
  - match goal with |- context [insert_rounds _ _ _ _ rounds ?t] =>
      destruct (IH t Hin Hg) as (rr' & v & Hin' & Hr & Hg' & Hv) end.
    exists rr', v. repeat split; [now right | assumption..].
Qed.

Lemma insert_games_loop_cases (tid sid : nat) (ps todo : list (Player F))
    (table : games_table) (key : nat * str * nat * str) :
  insert_games_loop tid sid ps todo table !! key = table !! key \/
  exists pl rr v, pl ∈ todo /\ rr ∈ rds pl /\ key = game_key tid sid pl rr /\
    game_record ps rr = Some v /\
    insert_games_loop tid sid ps todo table !! key = Some v.
Proof.
  revert table. induction todo as [|p todo IH]; intros table;
    cbn [insert_games_loop]; [now left|].
  match goal with |- context [insert_games_loop _ _ _ todo ?t] =>
    destruct (IH t) as [Heq|(pl & rr & v & Hin & Hrr & Hk & Hg & Hv)] end.
  - destruct (insert_rounds_cases tid sid ps (player_id (id p)) (rds p) table key)
      as [Heq'|(rr & v & Hin & Hk & Hg & Hv)].
    + left. congruence.
    + right. exists p, rr, v. rewrite Heq.
      repeat split; [now left | assumption..].
  - right. exists pl, rr, v. repeat split; [now right | assumption..].
Qed.

Lemma insert_games_loop_written (tid sid : nat) (ps todo : list (Player F))
    (table : games_table) (pl : Player F) (rr : RoundResult) (v0 : str * str) :
  pl ∈ todo -> rr ∈ rds pl -> game_record ps rr = Some v0 ->
  exists pl' rr' v, pl' ∈ todo /\ rr' ∈ rds pl' /\
    game_key tid sid pl' rr' = game_key tid sid pl rr /\
    game_record ps rr' = Some v /\
    insert_games_loop tid sid ps todo table !! game_key tid sid pl rr = Some v.
Proof.
  revert table. induction todo as [|p todo IH]; intros table Hin Hrr Hg;
    [inversion Hin|].
  cbn [insert_games_loop]. apply elem_of_cons in Hin as [<-|Hin].
  - destruct (insert_rounds_written tid sid ps (player_id (id pl)) (rds pl) table
                rr v0 Hrr Hg) as (rr' & v & Hin' & Hr & Hg' & Hv).
    match goal with |- context [insert_games_loop _ _ _ todo ?t] =>
      destruct (insert_games_loop_cases tid sid ps todo t (game_key tid sid pl rr))
        as [Heq|(pl2 & rr2 & v2 & Hin2 & Hrr2 & Hk2 & Hg2 & Hv2)] end.
    + exists pl, rr', v. rewrite Heq. unfold game_key at 2.
      repeat split; [now left | assumption | unfold game_key; now rewrite Hr
                     | assumption..].
    + exists pl2, rr2, v2. repeat split; [now right | assumption | now symmetry
                                         | assumption..].
  - match goal with |- context [insert_games_loop _ _ _ todo ?t] =>
      destruct (IH t Hin Hrr Hg) as (pl' & rr' & v & Hin' & Hrr' & Hk & Hg' & Hv) end.
    exists pl', rr', v. repeat split; [now right | assumption..].
Qed.

End Games.

(** X14. What counts as a game. A round gives a record exactly when its
    code is "W", "L" or "D" followed by a non-empty text that [int]
    accepts, and some player of the section has that integer as position;
    the opponent stored is the first such player, under the ID without its
    first four characters (which must not be empty), and the result stored
    is the code's first character. Byes, forfeits and every other code give
    no record. *)
Theorem game_record_spec {F : Type} (players : list (Player F))
    (rr : RoundResult) (o r : str) :
  game_record players rr = Some (o, r) <->
  exists c digits n before opp after,
    res rr = c :: digits /\ digits <> [] /\
    (c = "W" \/ c = "L" \/ c = "D")%char /\ r = [c] /\
    py_int digits = Some n /\
    players = before ++ opp :: after /\ pos opp = n /\
    (forall x, x ∈ before -> pos x <> n) /\
    o = player_id (id opp) /\ o <> [].
Proof.
  unfold game_record. split.
  - destruct (res rr) as [|c digits] eqn:Hres; [discriminate|].
    destruct (Nat.ltb_spec (length (c :: digits)) 2) as [|Hlen]; [discriminate|].
    destruct (bool_decide (c ∈ ["W"; "L"; "D"]%char)) eqn:Hc; [|discriminate].
    apply bool_decide_eq_true in Hc. cbn [negb].
    destruct (py_int digits) as [n|] eqn:Hn; [|discriminate].
    destruct (get_opponent_id_by_position players n) as [o'|] eqn:Ho; [|discriminate].
    destruct o' as [|a o']; [discriminate|]. cbn [nonempty].
    intros [= <- <-].
    apply get_opponent_id_by_position_Some in Ho
      as (before & opp & after & Hl & Hp & Hb & Ho).
    exists c, digits, n, before, opp, after.
    split; [reflexivity|]. split; [intros ->; cbn in Hlen; lia|].
    split.
    { apply elem_of_cons in Hc as [->|Hc]; [auto|].
      apply elem_of_cons in Hc as [->|Hc]; [auto|].
      apply elem_of_cons in Hc as [->|Hc]; [auto | inversion Hc]. }
    repeat split; try assumption; try reflexivity. discriminate.
  - intros (c & digits & n & before & opp & after & -> & Hd & Hc & -> & Hn &
            Hl & Hp & Hb & Ho & Hne).
    destruct (Nat.ltb_spec (length (c :: digits)) 2) as [Hlen|_].
    { destruct digits; [contradiction | cbn in Hlen; lia]. }
    rewrite bool_decide_eq_true_2.
    2:{ destruct Hc as [-> | [-> | ->]];
          [now left | right; now left | right; right; now left]. }
    cbn [negb]. rewrite Hn.
    assert (get_opponent_id_by_position players n = Some o) as ->.
    { apply get_opponent_id_by_position_Some. exists before, opp, after. auto. }
    destruct o; [contradiction | reflexivity].
Qed.

(** X15. What [insert_games] writes. It never raises and touches no other
    table. Every row of the games table is either as it was or holds the
    record of a round of a player of the section, under the key
    (tournament, player, section, round label) of that round; and every
    round that gives a record is stored, under its key, with the record of a
    round that has this key (its own when no other round has it). Rows of
    other tournaments and sections are never touched. *)
Theorem games_written {F : Type} (tid sid : nat) (players : list (Player F))
    (db : DB F) :
  exists db',
    insert_games tid sid players db = (Ret tt, db') /\
    (forall key,
       db_games db' !! key = db_games db !! key \/
       exists pl rr v, pl ∈ players /\ rr ∈ rds pl /\
         key = game_key tid sid pl rr /\
         game_record players rr = Some v /\ db_games db' !! key = Some v) /\
    (forall pl rr v0, pl ∈ players -> rr ∈ rds pl ->
       game_record players rr = Some v0 ->
       exists pl' rr' v, pl' ∈ players /\ rr' ∈ rds pl' /\
         game_key tid sid pl' rr' = game_key tid sid pl rr /\
         game_record players rr' = Some v /\
         db_games db' !! game_key tid sid pl rr = Some v) /\
    (forall t p s r, (t, s) <> (tid, sid) ->
       db_games db' !! (t, p, s, r) = db_games db !! (t, p, s, r)) /\
    db_tournament db' = db_tournament db /\
    db_player db' = db_player db /\
    db_section db' = db_section db /\
    db_player_tournament db' = db_player_tournament db.
Proof.
  unfold insert_games. eexists. split; [reflexivity|]. cbn.
  split; [intros key; apply insert_games_loop_cases|].
  split; [intros pl rr v0; apply insert_games_loop_written|].
  split; [|auto].
  intros t p s r Hne.
  destruct (insert_games_loop_cases tid sid players players (db_games db) (t, p, s, r))
    as [Heq|(pl & rr & v & _ & _ & Hk & _)]; [exact Heq|].
  unfold game_key in Hk. injection Hk as -> _ -> _. contradiction.
Qed.

(** ** A whole report *)

Section Process.

Context {F : Type}.

Lemma insert_tournament_run (data : Report F) (db : DB F) (name day : str) :
  tournament (info data) = Some name -> date (info data) = Some day ->
  exists tid db',
    insert_tournament data db = (Ret tid, db') /\
    (exists row, row ∈ db_tournament db' /\ name_date row = (name, day)) /\
    (exists new, db_tournament db' = db_tournament db ++ new) /\
    ((exists row, row ∈ db_tournament db /\ name_date row = (name, day)) ->
     db' = db) /\
    db_player db' = db_player db /\
    db_section db' = db_section db /\
    db_player_tournament db' = db_player_tournament db /\
    db_games db' = db_games db.
Proof.
  intros Hn Hd. unfold insert_tournament. rewrite Hn, Hd.
  destruct (find (same_tournament name day) (db_tournament db)) as [existing|] eqn:E.
  - destruct (find_elem _ _ _ E) as [Hin Hsame].
    apply same_tournament_spec in Hsame as [H1 H2].
    exists (t_id existing), db. split; [reflexivity|].
    split; [exists existing; unfold name_date; rewrite H1, H2; auto|].
    split; [exists []; now rewrite app_nil_r | auto 10].
  - eexists _, _. split; [reflexivity|]. cbn.
    split; [eexists; split; [apply elem_of_app; right; now left | reflexivity]|].
    split; [eauto|]. split; [|auto].
    intros (row & Hin & [= H1 H2]).
    pose proof (proj1 (find_None_elem _ _) E row Hin) as Hf.
    assert (same_tournament name day row = true) by now apply same_tournament_spec.
    congruence.
Qed.

Lemma insert_player_tournament_run (pid : str) (tid sid : nat) (p : Player F)
    (db : DB F) :
  (storable p = true ->
   exists db',
     insert_player_tournament pid tid sid p db = (Ret tt, db') /\
     db_tournament db' = db_tournament db /\
     db_sequence db' = db_sequence db /\
     db_player db' = db_player db /\
     db_section db' = db_section db /\
     db_games db' = db_games db) /\
  (storable p = false ->
   insert_player_tournament pid tid sid p db = (Exc OverflowError, db)).
Proof.
  unfold insert_player_tournament, storable. split; intros ->.
  - eexists. split; [reflexivity|]. cbn. auto.
  - reflexivity.
Qed.

Lemma insert_players_run (tid sid : nat) (players : list (Player F)) (db : DB F) :
  exists o db',
    insert_players tid sid players db = (o, db') /\
    db_tournament db' = db_tournament db /\
    db_sequence db' = db_sequence db /\
    db_section db' = db_section db /\
    db_games db' = db_games db /\
    (forall k v, db_player db !! k = Some v -> db_player db' !! k = Some v) /\
    ((forall pl, pl ∈ players -> is_Some (db_player db !! player_id (id pl))) ->
     db_player db' = db_player db) /\
    (forallb storable players = true ->
     o = Ret tt /\
     forall pl, pl ∈ players -> is_Some (db_player db' !! player_id (id pl))) /\
    (forallb storable players = false -> o = Exc OverflowError).
Proof.
  revert db. induction players as [|p players IH]; intros db.
  - exists (Ret tt), db. cbn. repeat split; try discriminate; auto.
    intros pl Hpl. inversion Hpl.
  - cbn [insert_players forallb]. unfold seq_ at 1.
    destruct (insert_player_run p db) as (db1 & Hrun1 & Hp1 & Ht1 & Hq1 & Hs1 & _ & Hg1).
    rewrite Hrun1.
    assert (forall k v, db_player db !! k = Some v -> db_player db1 !! k = Some v)
      as Hmono1.
    { intros k v Hk. rewrite Hp1.
      destruct (db_player db !! player_id (id p)) as [names|] eqn:E; [assumption|].
      rewrite lookup_insert_ne; [assumption | congruence]. }
    assert (is_Some (db_player db1 !! player_id (id p))) as Hknown1.
    { rewrite Hp1. destruct (db_player db !! player_id (id p)) as [names|] eqn:E.
      - rewrite E. eauto.
      - rewrite lookup_insert_eq. eauto. }
    unfold seq_ at 1.
    destruct (insert_player_tournament_run (player_id (id p)) tid sid p db1)
      as [Hfit Hnofit].
    destruct (storable p) eqn:Hst.
    + destruct (Hfit eq_refl) as (db2 & Hrun2 & Ht2 & Hq2 & Hp2 & Hs2 & Hg2).
      rewrite Hrun2.
      destruct (IH db2) as (o & db' & Hrun & Ht & Hq & Hs & Hg & Hmono & Hsame & Hok & Hbad).
      exists o, db'. split; [exact Hrun|].
      split; [congruence|]. split; [congruence|]. split; [congruence|].
      split; [congruence|].
      split.
      { intros k v Hk. apply Hmono. rewrite Hp2. now apply Hmono1. }
      split.
      { intros Hall. rewrite Hsame.
        - rewrite Hp2, Hp1. destruct (Hall p) as [names ->]; [now left | reflexivity].
        - intros pl Hpl. destruct (Hall pl) as [names Hn]; [now right|].
          rewrite Hp2. erewrite Hmono1; eauto. }
      cbn [andb]. split; [|exact Hbad].
      intros Hall. destruct (Hok Hall) as [-> Hk]. split; [reflexivity|].
      intros pl [->|Hpl]%elem_of_cons; [|now apply Hk].
      destruct Hknown1 as [names Hn]. erewrite Hmono; [eauto|].
      rewrite Hp2. exact Hn.
    + rewrite (Hnofit eq_refl).
      exists (Exc OverflowError), db1. split; [reflexivity|].
      split; [assumption|]. split; [assumption|]. split; [assumption|].
      split; [assumption|]. split; [exact Hmono1|].
      split.
      { intros Hall. rewrite Hp1.
        destruct (Hall p) as [names ->]; [now left | reflexivity]. }
      cbn [andb]. split; [discriminate | reflexivity].
Qed.

Lemma process_sections_run (tid : nat) (secs : list (SectionData F)) (db : DB F) :
  exists o db',
    process_sections tid secs db = (o, db') /\
    db_tournament db' = db_tournament db /\
    db_sequence db' = db_sequence db /\
    (forall k v, db_player db !! k = Some v -> db_player db' !! k = Some v) /\
    (forall k v, db_section db !! k = Some v -> db_section db' !! k = Some v) /\
    ((forall sec pl, sec ∈ secs -> pl ∈ results sec ->
        is_Some (db_player db !! player_id (id pl))) ->
     db_player db' = db_player db) /\
    (all_storable secs = true ->
     o = Ret tt /\
     size (db_section db') = size (db_section db) + length secs /\
     forall sec pl, sec ∈ secs -> pl ∈ results sec ->
       is_Some (db_player db' !! player_id (id pl))) /\
    (all_storable secs = false -> o = Exc OverflowError).
Proof.
  revert db. induction secs as [|sec secs IH]; intros db.
  - exists (Ret tt), db. cbn. repeat split; try discriminate; auto.
    intros sec pl Hs. inversion Hs.
  - cbn [process_sections all_storable forallb]. unfold seq_ at 1.
    destruct (insert_section_run tid (section sec) db)
      as (sid & db1 & Hrun1 & _ & Hfresh & Hs1 & Ht1 & Hq1 & Hp1 & _ & _).
    rewrite Hrun1. unfold seq_ at 1.
    destruct (insert_players_run tid sid (results sec) db1)
      as (o2 & db2 & Hrun2 & Ht2 & Hq2 & Hs2 & _ & Hmono2 & Hsame2 & Hok2 & Hbad2).
    rewrite Hrun2.
    assert (forall k v, db_section db !! k = Some v -> db_section db2 !! k = Some v)
      as Hsec.
    { intros k v Hk. rewrite Hs2, Hs1. rewrite lookup_insert_ne; [assumption|].
      intros <-. congruence. }
    assert (size (db_section db2) = S (size (db_section db))) as Hsize.
    { rewrite Hs2, Hs1. now apply map_size_insert_None. }
    destruct (forallb storable (results sec)) eqn:Hst.
    + destruct (Hok2 eq_refl) as [-> Hknown2].
      unfold seq_ at 1. unfold insert_games at 1.
      match goal with |- context [process_sections tid secs ?d] =>
        destruct (IH d) as (o & db' & Hrun & Ht & Hq & Hmono & Hsmono & Hsame & Hok & Hbad)
      end.
      cbn [db_tournament db_sequence db_player db_section] in *.
      exists o, db'. split; [exact Hrun|].
      split; [congruence|]. split; [congruence|].
      split.
      { intros k v Hk. apply Hmono, Hmono2. now rewrite Hp1. }
      split; [intros k v Hk; now apply Hsmono, Hsec|].
      split.
      { intros Hall. rewrite Hsame.
        - rewrite Hsame2, Hp1; [reflexivity|].
          intros pl Hpl. rewrite Hp1. apply (Hall sec); [now left | assumption].
        - intros s pl Hs Hpl. destruct (Hall s pl) as [names Hn]; [now right | assumption|].
          rewrite (Hmono2 _ names); [eauto | rewrite Hp1; exact Hn]. }
      cbn [andb]. split; [|exact Hbad].
      intros Hall. destruct (Hok Hall) as (-> & Hsz & Hk). split; [reflexivity|].
      split; [rewrite Hsz, Hsize; cbn [length]; lia|].
      intros s pl [->|Hs]%elem_of_cons Hpl; [|now apply (Hk s)].
      destruct (Hknown2 pl Hpl) as [names Hn]. erewrite Hmono; eauto.
    + rewrite (Hbad2 eq_refl).
      exists (Exc OverflowError), db2. split; [reflexivity|].
      split; [congruence|]. split; [congruence|].
      split; [intros k v Hk; apply Hmono2; now rewrite Hp1|].
      split; [exact Hsec|].
      split.
      { intros Hall. rewrite Hsame2, Hp1; [reflexivity|].
        intros pl Hpl. rewrite Hp1. apply (Hall sec); [now left | assumption]. }
      cbn [andb]. split; [discriminate | reflexivity].
Qed.

Lemma all_storable_spec (secs : list (SectionData F)) :
  all_storable secs = true <->
  forall sec pl, sec ∈ secs -> pl ∈ results sec -> storable pl = true.
Proof.
  unfold all_storable. rewrite forallb_Forall, Forall_forall.
  setoid_rewrite forallb_Forall. setoid_rewrite Forall_forall.
  split; intros H; [intros sec pl Hs Hp; exact (H sec Hs pl Hp)
                   | intros sec Hs pl Hp; exact (H sec pl Hs Hp)].
Qed.

(** The outcomes of [process_chess_data], by cases on the report. *)
Lemma process_chess_data_cases (data : Report F) (db : DB F) :
  ((tournament (info data) = None \/ date (info data) = None) /\
   process_chess_data data db = (false, db)) \/
  exists name day tid dbt o db',
    tournament (info data) = Some name /\ date (info data) = Some day /\
    insert_tournament data db = (Ret tid, dbt) /\
    process_sections tid (sections data) dbt = (o, db') /\
    process_chess_data data db =
      (match o with Ret _ => true | Exc _ => false end, db').
Proof.
  unfold process_chess_data, seq_.
  destruct (tournament (info data)) as [name|] eqn:Hn.
  2:{ left. unfold insert_tournament. rewrite Hn. auto. }
  destruct (date (info data)) as [day|] eqn:Hd.
  2:{ left. unfold insert_tournament. rewrite Hn, Hd. auto. }
  right.
  destruct (insert_tournament_run data db name day Hn Hd) as (tid & dbt & Hrun & _).
  rewrite Hrun.
  destruct (process_sections tid (sections data) dbt) as [o db'] eqn:Hp.
  exists name, day, tid, dbt, o, db'. repeat split; [assumption|]. now destruct o.
Qed.

End Process.

(** X16. When a report is stored. [process_chess_data] answers [True]
    exactly when the report has a name and a date and every row's start
    rating, end rating and games count is an integer SQLite can hold; no
    primary-key clash can occur. With no name or no date it writes nothing.
    With both, a tournament row with that name and date is in the database
    afterwards whatever the answer: a failure on a row leaves what was
    written before it. In every case the tournament rows, the players and
    the sections found before the run are all still there, unchanged. *)
Theorem store_outcome {F : Type} (data : Report F) (db : DB F) :
  ((process_chess_data data db).1 = true <->
   tournament (info data) <> None /\ date (info data) <> None /\
   forall sec pl, sec ∈ sections data -> pl ∈ results sec -> storable pl = true) /\
  (tournament (info data) = None \/ date (info data) = None ->
   process_chess_data data db = (false, db)) /\
  (forall name day,
     tournament (info data) = Some name -> date (info data) = Some day ->
     exists row, row ∈ db_tournament (process_chess_data data db).2 /\
       name_date row = (name, day)) /\
  grows db (process_chess_data data db).2.
Proof.
  destruct (process_chess_data_cases data db)
    as [[Hmiss ->]|(name & day & tid & dbt & o & db' & Hn & Hd & Hti & Hps & ->)].
  - cbn [fst snd]. split.
    { split; [discriminate|]. intros (H1 & H2 & _). destruct Hmiss; contradiction. }
    split; [reflexivity|]. split.
    { intros name day H1 H2. destruct Hmiss; congruence. }
    split; [exists []; now rewrite app_nil_r | auto].
  - cbn [fst snd].
    destruct (insert_tournament_run data db name day Hn Hd)
      as (tid' & dbt' & Hti' & (row & Hrow & Hnd) & (new & Hnew) & _ & Hp & Hs & _).
    rewrite Hti in Hti'. injection Hti' as <- <-.
    destruct (process_sections_run tid (sections data) dbt)
      as (o' & db'' & Hps' & Ht & _ & Hmono & Hsmono & _ & Hok & Hbad).
    rewrite Hps in Hps'. injection Hps' as <- <-.
    split.
    { rewrite <- all_storable_spec. split.
      - intros Ho. split; [congruence|]. split; [congruence|].
        destruct (all_storable (sections data)); [reflexivity|].
        rewrite (Hbad eq_refl) in Ho. discriminate.
      - intros (_ & _ & Hall). now destruct (Hok Hall) as [-> _]. }
    split; [intros [H|H]; congruence|].
    split.
    { intros name' day' Hn' Hd'. exists row. rewrite Ht. split; [assumption|].
      congruence. }
    split; [exists new; congruence|].
    split; [intros k v Hk; apply Hmono; now rewrite Hp
           | intros k v Hk; apply Hsmono; now rewrite Hs].
Qed.

Lemma store_outcome_witness :
  (process_chess_data demo_report empty_db).1 = true /\
  exists row, row ∈ db_tournament (process_chess_data demo_report empty_db).2 /\
    name_date row = (lit "Summer Open", lit "Jul 4, 2024").
Proof.
  destruct (store_outcome demo_report empty_db) as (Hiff & _ & Hrow & _).
  split.
  - apply Hiff. split; [discriminate|]. split; [discriminate|].
    intros sec pl Hs Hp. vm_compute in Hs.
    apply elem_of_cons in Hs as [->|Hs]; [|inversion Hs]. vm_compute in Hp.
    apply elem_of_cons in Hp as [->|Hp]; [reflexivity|].
    apply elem_of_cons in Hp as [->|Hp]; [reflexivity | inversion Hp].
  - exact (Hrow _ _ eq_refl eq_refl).
Defined.

(** X17. A page without a date cannot be stored. When the heading of a
    page has no line holding a date (or the page has no heading), the
    extractor still returns a report, and [process_chess_data] answers
    [False] for it and writes nothing, whatever its sections hold. *)
Theorem undated_page_not_stored {F : Type} (py_float : str -> option F)
    (url0 : str) (response : Response) (report : Report F) (db : DB F) :
  extract_chess_results py_float url0 response = OK (Some report) ->
  undated (tourney_heading response) ->
  process_chess_data report db = (false, db).
Proof.
  unfold extract_chess_results.
  destruct (negb (status_code response =? 200)%Z); [discriminate|].
  destruct (extract_tournament_info (tourney_heading response)) as [i|e] eqn:Hi;
    cbn [bind]; [|discriminate].
  destruct (section_loop py_float (elements response) []) as [secs|e];
    cbn [bind]; [|discriminate].
  intros [= <-] Hun.
  assert (date i = None) as Hd.
  { destruct (tourney_heading response) as [text|].
    - rewrite extract_tournament_info_total in Hi. injection Hi as <-.
      cbn [undated] in Hun.
      destruct (nonblank_lines text) as [|first_line rest] eqn:El; [reflexivity|].
      destruct (lines_info_fields first_line rest) as [-> _].
      now apply first_date_None.
    - cbn in Hi. now injection Hi as <-. }
  destruct (process_chess_data_cases
              {| info := i; url := url0; sections := secs |} db)
    as [[_ H]|(name & day & _ & _ & _ & _ & _ & Hday & _)]; [exact H|].
  cbn [info] in Hday. congruence.
Qed.

Lemma undated_page_not_stored_witness :
  exists report,
    extract_chess_results demo_float (lit "http://x") undated_page = OK (Some report) /\
    process_chess_data report empty_db = (false, empty_db).
Proof.
  destruct (extract_chess_results demo_float (lit "http://x") undated_page)
    as [[report|]|e] eqn:E; [|vm_compute in E; discriminate..].
  exists report. split; [reflexivity|].
  apply (undated_page_not_stored demo_float _ _ _ _ E).
  intros l Hl. vm_compute in Hl.
  apply elem_of_cons in Hl as [->|Hl]; [vm_compute; reflexivity|].
  apply elem_of_cons in Hl as [->|Hl]; [vm_compute; reflexivity | inversion Hl].
Defined.

(** X18. Storing a report twice. After a report has been stored, storing
    it again succeeds, adds no tournament row and changes no player, and
    adds every section once more under a new number: each run adds as many
    section rows as the report has sections. *)
Theorem stored_twice {F : Type} (data : Report F) (db db1 : DB F) :
  process_chess_data data db = (true, db1) ->
  exists db2,
    process_chess_data data db1 = (true, db2) /\
    db_tournament db2 = db_tournament db1 /\
    db_player db2 = db_player db1 /\
    size (db_section db1) = size (db_section db) + length (sections data) /\
    size (db_section db2) = size (db_section db1) + length (sections data).
Proof.
  intros H.
  destruct (process_chess_data_cases data db)
    as [[_ H']|(name & day & tid & dbt & o & db' & Hn & Hd & Hti & Hps & H')];
    rewrite H' in H; [discriminate|].
  destruct (insert_tournament_run data db name day Hn Hd)
    as (tid' & dbt' & Hti' & (row & Hrow & Hnd) & _ & _ & _ & Hs & _).
  rewrite Hti in Hti'. injection Hti' as <- <-.
  destruct (process_sections_run tid (sections data) dbt)
    as (o' & db'' & Hps' & Ht & _ & _ & _ & _ & Hok & Hbad).
  rewrite Hps in Hps'. injection Hps' as <- <-.
  assert (all_storable (sections data) = true) as Hall.
  { destruct (all_storable (sections data)); [reflexivity|].
    rewrite (Hbad eq_refl) in H. discriminate. }
  destruct (Hok Hall) as (-> & Hsz & Hknown). injection H as <-.
  destruct (process_chess_data_cases data db')
    as [[[Hm|Hm] _]|(name2 & day2 & tid2 & dbt2 & o2 & db2 & _ & _ & Hti2 & Hps2 & ->)];
    [congruence..|].
  destruct (insert_tournament_run data db' name day Hn Hd)
    as (tid3 & dbt3 & Hti3 & _ & _ & Hsame & _).
  rewrite Hti2 in Hti3. injection Hti3 as <- <-.
  rewrite Hsame in Hps2 by (exists row; rewrite Ht; auto).
  destruct (process_sections_run tid2 (sections data) db')
    as (o3 & db3 & Hps3 & Ht3 & _ & _ & _ & Hp3 & Hok3 & _).
  rewrite Hps2 in Hps3. injection Hps3 as <- <-.
  destruct (Hok3 Hall) as (-> & Hsz3 & _).
  exists db2. split; [reflexivity|]. split; [exact Ht3|].
  split; [exact (Hp3 Hknown)|]. split; [now rewrite Hsz, Hs | exact Hsz3].
Qed.

Lemma stored_twice_witness :
  exists db1 db2,
    process_chess_data demo_report empty_db = (true, db1) /\
    process_chess_data demo_report db1 = (true, db2) /\
    size (db_section db2) = 2.
Proof.
  assert ((process_chess_data demo_report empty_db).1 = true) as Hb
    by (vm_compute; reflexivity).
  destruct (process_chess_data demo_report empty_db) as [b db1] eqn:E.
  cbn [fst] in Hb. subst b.
  destruct (stored_twice demo_report empty_db db1 E) as (db2 & H2 & _ & _ & Hs1 & Hs2).
  exists db1, db2. split; [reflexivity|]. split; [exact H2|].
  rewrite Hs2, Hs1. vm_compute. reflexivity.
Defined.

(** ** Parsed rows in the store *)

Lemma parsed_row_is_id {F : Type} (py_float : str -> option F)
    (pre_text : str) (rows : list (Player F)) (pl : Player F) :
  parse_section_results py_float pre_text = OK rows -> pl ∈ rows ->
  is_id (id pl) = true.
Proof.
  rewrite parse_section_results_unfold. intros H Hin.
  destruct (parse_lines_rows _ _ _ _ _ H) as (new & -> & Hnew).
  rewrite app_nil_l in Hin. destruct (Hnew _ Hin) as (line & Hline & Hrow).
  unfold parse_line in Hrow. destruct (nonempty (strip line)); [|discriminate].
  destruct (parse_player_inv _ _ _ _ Hrow)
    as (first & position & ne & ident & second & r & _ & _ & _ & Hid & _ & _ & _ & ->).
  cbn [id make_player].
  destruct (find_id_tokens _ (py_split_tokens line)) as [HSome _].
  now apply HSome in Hid.
Qed.

Lemma get_opponent_id_by_position_found {F : Type} (players : list (Player F))
    (opp : Player F) :
  opp ∈ players ->
  exists first, first ∈ players /\ pos first = pos opp /\
    get_opponent_id_by_position players (pos opp) = Some (player_id (id first)).
Proof.
  induction players as [|p players IH]; [inversion 1|].
  intros Hin. cbn [get_opponent_id_by_position].
  destruct (Z.eqb_spec (pos p) (pos opp)) as [Hp|Hp].
  - exists p. split; [now left | auto].
  - apply elem_of_cons in Hin as [->|Hin]; [contradiction|].
    destruct (IH Hin) as (first & Hf & Hpos & Hget).
    exists first. split; [now right | auto].
Qed.

(** X19. Parsed rows in the store. Every row the table parser returns is
    stored under the last four characters of its ID: the key is the ID
    without its first four characters, has four characters, each an
    uppercase letter or digit. For the rows of a parsed block the guard
    against an empty opponent ID therefore never fires: a round whose code
    is "W", "L" or "D" followed by a text that [int] reads as the position
    of a row of the block always gives a record, and the opponent recorded
    is the first row of the block, in order, that has this position. *)
Theorem parsed_rows_keys {F : Type} (py_float : str -> option F)
    (pre_text : str) (rows : list (Player F)) :
  parse_section_results py_float pre_text = OK rows ->
  (forall pl, pl ∈ rows ->
     player_id (id pl) = drop 4 (id pl) /\
     length (player_id (id pl)) = 4 /\
     Forall (fun c => id_char c = true) (player_id (id pl))) /\
  (forall rr c digits opp,
     res rr = c :: digits -> (c = "W" \/ c = "L" \/ c = "D")%char ->
     opp ∈ rows -> py_int digits = Some (pos opp) ->
     exists before first after,
       rows = before ++ first :: after /\
       pos first = pos opp /\
       (forall x, x ∈ before -> pos x <> pos opp) /\
       game_record rows rr = Some (player_id (id first), [c])).
Proof.
  intros H. split.
  - intros pl Hin. pose proof (parsed_row_is_id _ _ _ _ H Hin) as Hid.
    destruct (player_id_of_id _ Hid) as (H1 & H2 & _ & H4). auto.
  - intros rr c digits opp Hres Hc Hin Hn.
    destruct (get_opponent_id_by_position_found rows opp Hin)
      as (first0 & _ & _ & Hget).
    pose proof Hget as Hget'.
    apply get_opponent_id_by_position_Some in Hget'
      as (before & first & after & Hrows & Hpos & Hbefore & Ho).
    exists before, first, after.
    split; [assumption|]. split; [assumption|]. split; [assumption|].
    unfold game_record. rewrite Hres.
    assert (digits <> []) as Hd by (intros ->; vm_compute in Hn; discriminate).
    destruct (Nat.ltb_spec (length (c :: digits)) 2) as [Hlen|_].
    { destruct digits; [contradiction | cbn in Hlen; lia]. }
    rewrite bool_decide_eq_true_2.
    2:{ destruct Hc as [-> | [-> | ->]];
          [now left | right; now left | right; right; now left]. }
    cbn [negb]. rewrite Hn, Hget, Ho.
    assert (first ∈ rows) as Hf.
    { rewrite Hrows. apply elem_of_app. right. now left. }
    pose proof (parsed_row_is_id _ _ _ _ H Hf) as Hid.
    destruct (player_id_of_id _ Hid) as (_ & Hl & _).
    destruct (player_id (id first)); [discriminate | reflexivity].
Qed.

Lemma parsed_rows_keys_witness :
  exists rows pl,
    parse_section_results demo_float
      (demo_header ++ [NL] ++ lit "1 Doe, Jane ABCD1234 1500 1510/3 W2 L3 D4 1.5")
    = OK rows /\
    pl ∈ rows /\ player_id (id pl) = lit "1234".
Proof.
  destruct (parse_section_results demo_float
              (demo_header ++ [NL] ++
               lit "1 Doe, Jane ABCD1234 1500 1510/3 W2 L3 D4 1.5"))
    as [rows|e] eqn:E; [|vm_compute in E; discriminate].
  destruct (parsed_rows_keys demo_float _ _ E) as [Hkeys _].
  assert (exists pl, rows = [pl] /\ id pl = lit "ABCD1234") as (pl & -> & Hid).
  { vm_compute in E. injection E as <-. eexists. split; reflexivity. }
  exists [pl], pl. split; [reflexivity|]. split; [now left|].
  destruct (Hkeys pl) as (-> & _); [now left|]. rewrite Hid. reflexivity.
Defined.

(** ** Examples of the store *)

Lemma player_first_wins_witness :
  exists db',
    insert_player demo_first empty_db = (Ret (lit "1234"), db') /\
    db_player db' !! lit "1234" = Some (lit "Doe", lit "Jane") /\
    insert_player demo_namesake db' = (Ret (lit "1234"), db').
Proof.
  destruct (player_first_wins demo_first empty_db)
    as (db' & Hrun & Hl & _ & Hq & _).
  exists db'. split; [exact Hrun|]. split; [exact Hl|].
  apply Hq; reflexivity.
Defined.

Lemma section_numbers_witness :
  exists db' : DB str,
    insert_section 1 (lit "Open") empty_db = (Ret 1, db') /\
    db_section db' !! (1, 1) = Some (lit "Open").
Proof.
  destruct (section_numbers (F := str) 1 (lit "Open") empty_db)
    as (sid & db' & Hrun & _ & _ & Hsid & Hl & _).
  assert (sid = 1) as ->.
  { destruct Hsid as [->|[x Hx]]; [reflexivity|].
    cbn [db_section empty_db] in Hx. now rewrite lookup_empty in Hx. }
  exists db'. split; assumption.
Defined.

Lemma game_record_spec_witness :
  game_record demo_rows {| round := lit "rd1"; res := lit "W2" |} =
  Some (lit "9876", lit "W").
Proof.
  apply game_record_spec.
  exists "W"%char, (lit "2"), 2%Z, [demo_first].
  eexists _, []. split; [reflexivity|]. split; [discriminate|].
  split; [now left|]. split; [reflexivity|]. split; [reflexivity|].
  split; [reflexivity|]. split; [reflexivity|].
  split; [|split; [reflexivity | discriminate]].
  intros x Hx. apply list_elem_of_singleton in Hx as ->. discriminate.
Defined.

Lemma games_written_witness :
  exists db',
    insert_games 1 1 demo_rows empty_db = (Ret tt, db') /\
    is_Some (db_games db' !!
               game_key 1 1 demo_first {| round := lit "rd1"; res := lit "W2" |}) /\
    db_games db' !!
      game_key 1 1 demo_first {| round := lit "rd2"; res := lit "B---" |} = None.
Proof.
  destruct (games_written 1 1 demo_rows empty_db) as (db' & Hrun & Hcases & Hw & _).
  exists db'. split; [exact Hrun|]. split.
  - destruct (Hw demo_first {| round := lit "rd1"; res := lit "W2" |}
                (lit "9876", lit "W"))
      as (pl' & rr' & v & _ & _ & _ & _ & Hv).
    + now left.
    + now left.
    + vm_compute. reflexivity.
    + rewrite Hv. eauto.
  - destruct (Hcases (game_key 1 1 demo_first
                        {| round := lit "rd2"; res := lit "B---" |}))
      as [->|(pl & rr & v & Hpl & Hrr & Hk & Hg & _)].
    + cbn [db_games empty_db]. apply lookup_empty.
    + exfalso. unfold game_key in Hk. cbn [round] in Hk.
      injection Hk as Hid Hround.
      assert (res rr = lit "B---" \/ res rr = lit "D7") as Hres.
      { apply elem_of_cons in Hpl as [->|Hpl].
        - apply elem_of_cons in Hrr as [->|Hrr]; [discriminate Hround|].
          apply elem_of_cons in Hrr as [->|Hrr]; [now left | inversion Hrr].
        - apply elem_of_cons in Hpl as [->|Hpl]; [|inversion Hpl].
          apply elem_of_cons in Hrr as [->|Hrr]; [discriminate Hround|].
          apply elem_of_cons in Hrr as [->|Hrr]; [now right | inversion Hrr]. }
      unfold game_record in Hg.
      destruct Hres as [Hr|Hr]; rewrite Hr in Hg; vm_compute in Hg; discriminate.
Defined.

(** ** Rows that share a player, sections in order *)

Section Passes.

Context {F : Type}.




Lemma process_sections_cons_inv (tid : nat) (sec : SectionData F)
    (rest : list (SectionData F)) (db db' : DB F) :
  process_sections tid (sec :: rest) db = (Ret tt, db') ->
  exists sid db1 db2 db3,
    insert_section tid (section sec) db = (Ret sid, db1) /\
    insert_players tid sid (results sec) db1 = (Ret tt, db2) /\
    insert_games tid sid (results sec) db2 = (Ret tt, db3) /\
    process_sections tid rest db3 = (Ret tt, db').
Proof.
  cbn [process_sections]. unfold seq_ at 1.
  destruct (insert_section_run tid (section sec) db) as (sid & db1 & Hrun1 & _).
  rewrite Hrun1. unfold seq_ at 1.
  destruct (insert_players tid sid (results sec) db1) as [[[]|e] db2] eqn:E;
    [|discriminate].
  unfold seq_ at 1.
  destruct (insert_games tid sid (results sec) db2) as [[[]|e] db3] eqn:E';
    [|discriminate].
  intros H. exists sid, db1, db2, db3. auto.
Qed.

Lemma max_section_id_insert (tid : nat) (name : str) (table : gmap (nat * nat) str) :
  max_section_id tid
    (<[(tid, default 0 (max_section_id tid table) + 1) := name]> table) =
  Some (default 0 (max_section_id tid table) + 1).
Proof.
  set (sid := default 0 (max_section_id tid table) + 1).
  pose proof (max_section_id_spec tid table) as Hold.
  pose proof (max_section_id_spec tid (<[(tid, sid) := name]> table)) as Hnew.
  destruct (max_section_id tid (<[(tid, sid) := name]> table)) as [m'|].
  - destruct Hnew as [Hin Hle]. f_equal.
    assert (sid <= m') by (apply Hle; rewrite lookup_insert_eq; eauto).
    destruct (decide (m' = sid)) as [->|Hd]; [reflexivity|].
    rewrite lookup_insert_ne in Hin by congruence.
    destruct (max_section_id tid table) as [m|].
    + destruct Hold as [_ Hle']. apply Hle' in Hin. subst sid. cbn in *. lia.
    + rewrite Hold in Hin. destruct Hin; discriminate.
  - specialize (Hnew sid). rewrite lookup_insert_eq in Hnew. discriminate.
Qed.

Lemma process_sections_numbers (tid : nat) (secs : list (SectionData F))
    (db db' : DB F) :
  process_sections tid secs db = (Ret tt, db') ->
  forall i sec, secs !! i = Some sec ->
    db_section db' !!
      (tid, default 0 (max_section_id tid (db_section db)) + 1 + i) =
    Some (section sec).
Proof.
  revert db. induction secs as [|s secs IH]; intros db H i sec Hi;
    [discriminate|].
  apply process_sections_cons_inv in H as (sid & db1 & db2 & db3 & H1 & H2 & H3 & H4).
  destruct (insert_section_run tid (section s) db)
    as (sid' & db1' & Hrun & Hsid & _ & Hs1 & _).
  rewrite H1 in Hrun. injection Hrun as <- <-.
  destruct (insert_players_run tid sid (results s) db1)
    as (o2 & db2' & Hrun2 & _ & _ & Hs2 & _).
  rewrite H2 in Hrun2. injection Hrun2 as <- <-.
  assert (db_section db3 = db_section db2) as Hs3.
  { unfold insert_games in H3. now injection H3 as <-. }
  assert (db_section db3 = <[(tid, sid) := section s]> (db_section db)) as Hsec
    by congruence.
  destruct i as [|i].
  - injection Hi as <-.
    destruct (process_sections_run tid secs db3)
      as (o & db'' & Hrun4 & _ & _ & _ & Hmono & _).
    rewrite H4 in Hrun4. injection Hrun4 as <- <-.
    apply Hmono. rewrite Hsec, Nat.add_0_r, <- Hsid. apply lookup_insert_eq.
  - cbn [lookup list_lookup] in Hi.
    pose proof (IH db3 H4 i sec Hi) as Hl.
    rewrite Hsec, Hsid, max_section_id_insert in Hl. cbn [default] in Hl.
    rewrite <- Hl. do 2 f_equal. cbn. lia.
Qed.

End Passes.



(** X21. Sections are numbered in report order. When a report is stored,
    its sections get consecutive numbers in the order of the report,
    starting one above the largest section number the tournament had (at 1
    for a tournament without sections); the tournament they are filed
    under is a row with the report's name and date. *)
Theorem sections_in_order {F : Type} (data : Report F) (db db' : DB F) :
  process_chess_data data db = (true, db') ->
  exists row,
    row ∈ db_tournament db' /\
    tournament (info data) = Some (tournament_name row) /\
    date (info data) = Some (t_date row) /\
    forall i sec, sections data !! i = Some sec ->
      db_section db' !!
        (t_id row,
         default 0 (max_section_id (t_id row) (db_section db)) + 1 + i) =
      Some (section sec).
Proof.
  intros H.
  destruct (process_chess_data_cases data db)
    as [[_ H']|(name & day & tid & dbt & o & db'' & Hn & Hd & Hti & Hps & H')];
    rewrite H' in H; [discriminate|].
  destruct o as [[]|e]; [|discriminate]. injection H as ->.
  assert (exists row, row ∈ db_tournament dbt /\ t_id row = tid /\
                      name_date row = (name, day) /\
                      db_section dbt = db_section db) as (row & Hrow & Hid & Hnd & Hs).
  { clear Hps. unfold insert_tournament in Hti. rewrite Hn, Hd in Hti.
    destruct (find (same_tournament name day) (db_tournament db)) as [existing|] eqn:E.
    - injection Hti as <- <-. destruct (find_elem _ _ _ E) as [Hin Hsame].
      apply same_tournament_spec in Hsame as [H1 H2].
      exists existing. unfold name_date. rewrite H1, H2. auto.
    - injection Hti as <- <-. eexists. cbn.
      split; [apply elem_of_app; right; now left|]. repeat split. }
  destruct (process_sections_run tid (sections data) dbt)
    as (o' & db3 & Hrun & Ht & _).
  rewrite Hps in Hrun. injection Hrun as <- <-.
  injection Hnd as <- <-.
  exists row. split; [now rewrite Ht|]. split; [assumption|]. split; [assumption|].
  intros i sec Hi. rewrite Hid, <- Hs.
  exact (process_sections_numbers tid (sections data) dbt db' Hps i sec Hi).
Qed.

Lemma sections_in_order_witness :
  exists db' row,
    process_chess_data demo_report empty_db = (true, db') /\
    row ∈ db_tournament db' /\
    db_section db' !! (t_id row, 1) = Some (lit "Open").
Proof.
  assert ((process_chess_data demo_report empty_db).1 = true) as Hb
    by (vm_compute; reflexivity).
  destruct (process_chess_data demo_report empty_db) as [b db'] eqn:E.
  cbn [fst] in Hb. subst b.
  destruct (sections_in_order demo_report empty_db db' E)
    as (row & Hrow & _ & _ & Hs).
  exists db', row. split; [reflexivity|]. split; [exact Hrow|].
  specialize (Hs 0 {| section := lit "Open"; results := demo_rows |} eq_refl).
  cbn [db_section empty_db section] in Hs.
  replace (default 0 (max_section_id (t_id row) ∅) + 1 + 0) with 1 in Hs;
    [exact Hs|].
  unfold max_section_id. rewrite map_fold_empty. reflexivity.
Defined.

(** [int] rejects a text that holds one of the separators U+001C to U+001F,
    which [str.strip] removes, and accepts a no-break space at either end;
    so a round coded "W", U+001C, "2" gives no record. *)
Lemma int_separator_example :
  py_int [ascii_of_nat 28; "5"%char] = None /\
  py_int (strip [ascii_of_nat 28; "5"%char]) = Some 5%Z /\
  py_int [ascii_of_nat 160; "5"%char; " "%char] = Some 5%Z /\
  game_record demo_rows
    {| round := lit "rd1"; res := ["W"%char; ascii_of_nat 28; "2"%char] |} = None.
Proof. vm_compute. repeat split. Qed.
